(** * QICK assembler: a shallow embedding of [qick_asm.py] and [asm_v2.py]

    The development follows the two program builders of the repository:

    - [QickAsm]  embeds [QickProgram] of [qick_lib/qick/qick_asm.py]
      (the first-generation tProc assembler: [safe_regwi],
      [convert_immediate], [align], [sync_all], the pulse macros);
    - [AsmV2]    embeds [Wave], [FullSpeedGenManager] and [QickProgramV2] of
      [qick_lib/qick/asm_v2.py];
    - [Qick]     embeds the support function [format_buffer] of
      [qick_lib/qick/qick.py].

    Python integers are [Z]; Python dictionaries with string keys are
    [gmap string _]; Python lists are [list]; a raised exception is the
    [Raise] branch of [result].  Python floats only occur as clock ratios
    and durations and are read as exact rationals ([Q]). *)

From Stdlib Require Import Ascii String ZArith QArith Qround Lia List.
From stdpp Require Import base option list gmap strings pretty.

Local Open Scope string_scope.
Local Open Scope list_scope.
Local Open Scope Z_scope.

(** ** Exceptions and results *)

(** The Python exception classes that the embedded code can raise. *)
Inductive exn : Type :=
  | KeyError
  | IndexError
  | TypeError
  | NameError
  | ValueError
  | RuntimeError
  | OverflowError
  | ZeroDivisionError
  | UnboundLocalError.

Inductive result (A : Type) : Type :=
  | Ok (a : A)
  | Raise (e : exn).

Arguments Ok {A} a.
Arguments Raise {A} e.

#[global] Instance result_ret : MRet result := fun A a => Ok a.

#[global] Instance result_bind : MBind result := fun A B k m =>
  match m with
  | Ok a => k a
  | Raise e => Raise e
  end.

#[global] Instance result_fmap : FMap result := fun A B f m =>
  match m with
  | Ok a => Ok (f a)
  | Raise e => Raise e
  end.

Definition is_ok {A : Type} (m : result A) : bool :=
  match m with Ok _ => true | Raise _ => false end.

(** [d[k]] on a dictionary: [KeyError] when the key is absent. *)
Definition dict_get {V : Type} (d : gmap string V) (k : string) : result V :=
  match d !! k with
  | Some v => Ok v
  | None => Raise KeyError
  end.

(** [l[i]] on a list, with Python's negative indices. *)
Definition py_index (len i : Z) : option nat :=
  if (0 <=? i) && (i <? len) then Some (Z.to_nat i)
  else if (i <? 0) && (- len <=? i) then Some (Z.to_nat (i + len))
  else None.

Definition list_get {A : Type} (l : list A) (i : Z) : result A :=
  match py_index (Z.of_nat (length l)) i with
  | Some n => match l !! n with Some a => Ok a | None => Raise IndexError end
  | None => Raise IndexError
  end.

(** [l[i] = v]. *)
Definition list_set {A : Type} (l : list A) (i : Z) (v : A) : result (list A) :=
  match py_index (Z.of_nat (length l)) i with
  | Some n => Ok (<[n := v]> l)
  | None => Raise IndexError
  end.

(** [max(l)] on a list of integers: [ValueError] on the empty list. *)
Definition py_max (l : list Z) : result Z :=
  match l with
  | [] => Raise ValueError
  | x :: r => Ok (fold_left Z.max r x)
  end.

(** [x is not None] *)
Definition not_none {A : Type} (o : option A) : bool :=
  match o with Some _ => true | None => false end.

(** [int(x)] on a float read as a rational: truncation towards zero. *)
Definition py_int (q : Q) : Z := Z.quot (Qnum q) (Z.pos (Qden q)).

(** [str(n)] for an integer. *)
Definition py_str (n : Z) : string := pretty n.

(** [s.upper()] on ASCII strings. *)
Definition upper_ascii (c : ascii) : ascii :=
  let n := nat_of_ascii c in
  if (Nat.leb 97 n && Nat.leb n 122)%bool then ascii_of_nat (n - 32) else c.

Fixpoint upper (s : string) : string :=
  match s with
  | EmptyString => EmptyString
  | String c r => String (upper_ascii c) (upper r)
  end.

(** ** [qick_asm.py]: the first-generation program builder *)

Module QickAsm.

(** An instruction argument.  The trailing comment argument of the
    generated instruction methods is display text (it may embed formatted
    floats) and is kept as the opaque [AComment]. *)
Inductive arg : Type :=
  | AInt (z : Z)
  | AStr (s : string)
  | AComment.

(** An entry of [prog_list]: [{'name': name, 'args': args}]. *)
Record inst : Type := Inst { name : string; args : list arg }.

(** An entry of the per-channel pulse library.  A key that the dictionary
    may lack ([idata], [gain]) or hold [None] for ([length]) is an option. *)
Record pinfo : Type := Pinfo {
  idata : option (list Z);
  qdata : option (list Z);
  pi_addr : Z;
  pi_length : option Z;
  style : string;
  pi_gain : option Z
}.

Record channel : Type := Channel {
  ch_addr : Z;
  pulses : gmap string pinfo;
  last_pulse : option string
}.

Record program : Type := Program {
  prog_list : list inst;
  labels : gmap string Z;
  dac_ts : list Z;
  channels : gmap Z channel
}.

(** The time argument of the pulse macros: ['auto'] or an integer. *)
Inductive tval : Type :=
  | TAuto
  | TInt (t : Z).

Definition set_prog_list (l : list inst) (p : program) : program :=
  Program l (labels p) (dac_ts p) (channels p).

Definition set_dac_ts (ts : list Z) (p : program) : program :=
  Program (prog_list p) (labels p) ts (channels p).

Definition set_channels (c : gmap Z channel) (p : program) : program :=
  Program (prog_list p) (labels p) (dac_ts p) c.

(** [QickProgram.__init__] *)
Definition init : program :=
  Program [] ∅ (replicate 9 0)
    (list_to_map ((fun ch => (ch, Channel 0 ∅ None)) <$> [1; 2; 3; 4; 5; 6; 7])).

Definition special_registers : list (gmap string Z) :=
  let a : gmap string Z := list_to_map
    [("freq", 16); ("phase", 17); ("addr", 18); ("gain", 19); ("mode", 20); ("t", 21)] in
  let b : gmap string Z := list_to_map
    [("freq", 23); ("phase", 24); ("addr", 25); ("gain", 26); ("mode", 27); ("t", 28)] in
  [a; b; a; b; a; b; a].

Definition append_instruction (nm : string) (a : list arg) (p : program) : program :=
  set_prog_list (prog_list p ++ [Inst nm a]) p.

(** The instruction methods generated by [__getattr__] that the macros use. *)
Definition regwi (rp reg imm : Z) : program -> program :=
  append_instruction "regwi" [AInt rp; AInt reg; AInt imm; AComment].

Definition bitwi (rp rd ra : Z) (op : string) (imm : Z) : program -> program :=
  append_instruction "bitwi" [AInt rp; AInt rd; AInt ra; AStr op; AInt imm].

Definition mathi (rp rd ra : Z) (op : string) (imm : Z) : program -> program :=
  append_instruction "mathi" [AInt rp; AInt rd; AInt ra; AStr op; AInt imm].

Definition synci (t : Z) : program -> program :=
  append_instruction "synci" [AInt t].

Definition set (ch rp r_freq r_phase r_addr r_gain r_mode r_t : Z) : program -> program :=
  append_instruction "set"
    [AInt ch; AInt rp; AInt r_freq; AInt r_phase; AInt r_addr; AInt r_gain;
     AInt r_mode; AInt r_t; AComment].

Definition ch_page (ch : Z) : Z := (ch - 1) `div` 2.

Definition sreg (ch : Z) (nm : string) : result Z :=
  regs ← list_get special_registers (ch - 1);
  dict_get regs nm.

Definition safe_regwi (rp reg imm : Z) (p : program) : program :=
  if imm <? 2 ^ 30 then regwi rp reg imm p
  else
    let p := regwi rp reg (Z.shiftr imm 1) p in
    let p := bitwi rp reg reg "<<" 2 p in
    if negb (imm `mod` 4 =? 0) then mathi rp reg reg "+" (imm `mod` 4) p
    else p.

Definition convert_immediate (val : Z) : result Z :=
  if 2 ^ 31 <? val then Raise RuntimeError
  else if val <? 0 then Ok (2 ^ 31 + val)
  else Ok val.

Definition get_mode_code (phrst stdysel mode outsel length : option Z) : result Z :=
  let phrst := default 0 phrst in
  let stdysel := default 1 stdysel in
  let mode := default 0 mode in
  let outsel := default 0 outsel in
  let mc := phrst * 16 + stdysel * 8 + mode * 4 + outsel in
  match length with
  | Some len => Ok (Z.lor (Z.shiftl mc 16) len)
  | None => Raise TypeError
  end.

(** [max([self.dac_ts[ch] for ch in range(1,9)])] *)
Definition max_dac_ts (p : program) : result Z :=
  ts ← mapM (list_get (dac_ts p)) [1; 2; 3; 4; 5; 6; 7; 8];
  py_max ts.

(** [align]: the argument [chs] is not read by the body. *)
Definition align (chs : list Z) (p : program) : result program :=
  max_t ← max_dac_ts p;
  ts ← foldl (fun acc ch => ts ← acc; list_set ts ch max_t)
             (Ok (dac_ts p)) [1; 2; 3; 4; 5; 6; 7; 8];
  Ok (set_dac_ts ts p).

Definition sync_all (t : Z) (p : program) : result program :=
  max_t ← max_dac_ts p;
  if 0 <? max_t + t then
    let p := synci (max_t + t) p in
    Ok (set_dac_ts (replicate (length (dac_ts p)) 0) p)
  else Ok p.

(** [channels[ch]] *)
Definition chan (p : program) (ch : Z) : result channel :=
  match channels p !! ch with
  | Some c => Ok c
  | None => Raise KeyError
  end.

(** [QickProgram.add_pulse].  The second [flat_top] branch of the source
    follows a branch that already takes that style and is never reached. *)
Definition add_pulse (ch : Z) (nm : string) (sty : string)
    (idata qdata : option (list Z)) (length : option Z) (p : program) : result program :=
  let qdata' := match qdata, idata with
                | None, Some i => Some (replicate (List.length i) 0)
                | _, _ => qdata
                end in
  let idata' := match idata, qdata' with
                | None, Some q => Some (replicate (List.length q) 0)
                | _, _ => idata
                end in
  let bad := match idata' with
             | Some i => negb (Z.of_nat (List.length i) `mod` 16 =? 0)
             | None => false
             end in
  if bad then Raise RuntimeError
  else if String.eqb sty "arb" || String.eqb sty "flat_top" then
    c ← chan p ch;
    i ← from_option Ok (Raise TypeError) idata';
    let n := Z.of_nat (List.length i) in
    let pi := Pinfo idata' qdata' (ch_addr c) (Some (n `div` 16)) sty None in
    Ok (set_channels
          (<[ch := Channel (ch_addr c + n) (<[nm := pi]> (pulses c)) (last_pulse c)]>
             (channels p)) p)
  else if String.eqb sty "const" then
    c ← chan p ch;
    let pi := Pinfo None None 0 length sty None in
    Ok (set_channels
          (<[ch := Channel (ch_addr c) (<[nm := pi]> (pulses c)) (last_pulse c)]>
             (channels p)) p)
  else Ok p.


(** [channels[ch]['pulses'][name]] *)
Definition get_pinfo (p : program) (ch : Z) (nm : string) : result pinfo :=
  c ← chan p ch; dict_get (pulses c) nm.

(** [channels[ch]['pulses'][channels[ch]['last_pulse']]]; the key [None]
    of a channel that has played no pulse is never in the library. *)
Definition last_pinfo_name (p : program) (ch : Z) : result string :=
  c ← chan p ch;
  match last_pulse c with
  | Some nm => _ ← dict_get (pulses c) nm; Ok nm
  | None => Raise KeyError
  end.

(** [channels[ch]['last_pulse'] = name] *)
Definition set_last_pulse (ch : Z) (nm : string) (p : program) : result program :=
  c ← chan p ch;
  Ok (set_channels (<[ch := Channel (ch_addr c) (pulses c) (Some nm)]> (channels p)) p).

(** [pinfo['gain'] = gain] on the library entry [nm] of channel [ch]. *)
Definition set_pinfo_gain (ch : Z) (nm : string) (g : Z) (p : program) : result program :=
  c ← chan p ch;
  pi ← dict_get (pulses c) nm;
  let pi' := Pinfo (idata pi) (qdata pi) (pi_addr pi) (pi_length pi) (style pi) (Some g) in
  Ok (set_channels
        (<[ch := Channel (ch_addr c) (<[nm := pi']> (pulses c)) (last_pulse c)]> (channels p)) p).

(** [len(pinfo["idata"])//16//2] *)
Definition ramp_length_of (pi : pinfo) : result Z :=
  match idata pi with
  | Some d => Ok ((Z.of_nat (length d) `div` 16) `div` 2)
  | None => Raise KeyError
  end.

Definition opt_do (o : option Z) (f : Z -> program -> program) (p : program) : program :=
  match o with
  | Some v => f v p
  | None => p
  end.

(** The six special registers of a channel, in the order in which
    [set_pulse_registers] returns them after the page. *)
Record pulse_regs : Type := PulseRegs {
  rp : Z; r_freq : Z; r_phase : Z; r_addr : Z; r_gain : Z; r_mode : Z; r_t : Z
}.

Definition set_pulse_registers (ch : Z)
    (freq phase addr gain phrst stdysel mode outsel length : option Z)
    (t : option tval) (p : program) : result (pulse_regs * program) :=
  let rp := ch_page ch in
  r_freq ← sreg ch "freq";
  r_phase ← sreg ch "phase";
  r_addr ← sreg ch "addr";
  r_gain ← sreg ch "gain";
  r_mode ← sreg ch "mode";
  r_t ← sreg ch "t";
  let p := opt_do freq (safe_regwi rp r_freq) p in
  let p := opt_do phase (safe_regwi rp r_phase) p in
  let p := opt_do gain (regwi rp r_gain) p in
  let p := match t with
           | Some (TInt tv) => regwi rp r_t tv p
           | _ => p
           end in
  let p := opt_do addr (regwi rp r_addr) p in
  p ← (if not_none length || not_none stdysel || not_none phrst
          || not_none mode || not_none outsel
       then mc ← get_mode_code phrst stdysel mode outsel length;
            Ok (regwi rp r_mode mc p)
       else Ok p);
  Ok (PulseRegs rp r_freq r_phase r_addr r_gain r_mode r_t, p).

Definition play_set (ch : Z) (r : pulse_regs) : program -> program :=
  set ch (rp r) (r_freq r) (r_phase r) (r_addr r) (r_gain r) (r_mode r) (r_t r).

Definition const_pulse (ch : Z) (nm : option string)
    (freq phase gain phrst stdysel mode outsel length : option Z)
    (t : option tval) (play : bool) (p : program) : result program :=
  '(length, p) ←
     match nm with
     | Some n =>
         pi ← get_pinfo p ch n;
         p ← set_last_pulse ch n p;
         Ok (pi_length pi, p)
     | None => _ ← last_pinfo_name p ch; Ok (length, p)
     end;
  let outsel := if not_none length then Some 1 else None in
  '(r, p) ← set_pulse_registers ch freq phase None gain phrst stdysel mode outsel length t p;
  if play then
    p ← match t with
        | Some tv =>
            '(tv, p) ←
              match tv with
              | TAuto =>
                  t0 ← list_get (dac_ts p) ch;
                  len ← from_option Ok (Raise TypeError) length;
                  ts ← list_set (dac_ts p) ch (t0 + len);
                  Ok (t0, set_dac_ts ts p)
              | TInt tv => Ok (tv, p)
              end;
            Ok (regwi (rp r) (r_t r) tv p)
        | None => Ok p
        end;
    Ok (play_set ch r p)
  else Ok p.

Definition flat_top_pulse (ch : Z) (nm : option string)
    (freq phase gain phrst stdysel mode outsel length : option Z)
    (t : option tval) (play : bool) (p : program) : result program :=
  '(length, addr, stdysel, p) ←
     match nm with
     | Some n =>
         pi ← get_pinfo p ch n;
         p ← set_last_pulse ch n p;
         rl ← ramp_length_of pi;
         Ok (Some rl, Some (pi_addr pi `div` 16), Some 1, p)
     | None => Ok (length, None, stdysel, p)
     end;
  p ← match gain with
      | Some g =>
          match nm with
          | Some n => set_pinfo_gain ch n g p
          | None => Raise UnboundLocalError
          end
      | None => Ok p
      end;
  '(r, p) ← set_pulse_registers ch freq phase addr gain phrst stdysel mode outsel length t p;
  if play then
    match t with
    | Some tv =>
        t0 ← match tv with
             | TAuto => list_get (dac_ts p) ch
             | TInt tv => Ok tv
             end;
        n ← match nm with
            | Some n => Ok n
            | None => last_pinfo_name p ch
            end;
        pi ← get_pinfo p ch n;
        ramp_length ← ramp_length_of pi;
        g ← from_option Ok (Raise KeyError) (pi_gain pi);
        '(_, p) ← set_pulse_registers ch None phase (Some (pi_addr pi)) (Some g)
                    None None None (Some 0) (Some ramp_length) (Some (TInt t0)) p;
        let p := play_set ch r p in
        '(_, p) ← set_pulse_registers ch None phase (Some (pi_addr pi)) (Some (g `div` 2))
                    None None None (Some 1) (pi_length pi) (Some (TInt t0)) p;
        let p := play_set ch r p in
        len ← from_option Ok (Raise TypeError) (pi_length pi);
        '(_, p) ← set_pulse_registers ch None phase (Some (pi_addr pi + ramp_length)) (Some g)
                    None None None (Some 0) (Some ramp_length)
                    (Some (TInt (t0 + ramp_length + len))) p;
        let p := play_set ch r p in
        ts ← list_set (dac_ts p) ch (t0 + len + 2 * ramp_length);
        Ok (set_dac_ts ts p)
    | None =>
        match nm with
        | Some _ => Raise TypeError
        | None => Raise UnboundLocalError
        end
    end
  else Ok p.

(** *** The instruction table and the binary encoder *)

(** An entry of [instructions]: the format class, the opcode and the
    pairs of an argument index and a bit offset. *)
Record idef : Type := Idef { ty : string; bin : Z; fmt : list (nat * Z) }.

Definition instructions : gmap string idef := list_to_map
  [("pushi", Idef "I" 16 [(0%nat, 53); (1%nat, 41); (2%nat, 36); (3%nat, 0)]);
   ("popi", Idef "I" 17 [(0%nat, 53); (1%nat, 41)]);
   ("mathi", Idef "I" 18 [(0%nat, 53); (1%nat, 41); (2%nat, 36); (3%nat, 46); (4%nat, 0)]);
   ("seti", Idef "I" 19 [(1%nat, 53); (0%nat, 50); (2%nat, 36); (3%nat, 0)]);
   ("synci", Idef "I" 20 [(0%nat, 0)]);
   ("waiti", Idef "I" 21 [(0%nat, 50); (1%nat, 0)]);
   ("bitwi", Idef "I" 22 [(0%nat, 53); (3%nat, 46); (1%nat, 41); (2%nat, 36); (4%nat, 0)]);
   ("memri", Idef "I" 23 [(0%nat, 53); (1%nat, 41); (2%nat, 0)]);
   ("memwi", Idef "I" 24 [(0%nat, 53); (1%nat, 31); (2%nat, 0)]);
   ("regwi", Idef "I" 25 [(0%nat, 53); (1%nat, 41); (2%nat, 0)]);
   ("setbi", Idef "I" 26 [(0%nat, 53); (1%nat, 41); (2%nat, 0)]);
   ("loopnz", Idef "J1" 48 [(0%nat, 53); (1%nat, 41); (1%nat, 36); (2%nat, 0)]);
   ("end", Idef "J1" 63 []);
   ("condj", Idef "J2" 49 [(0%nat, 53); (2%nat, 46); (1%nat, 36); (3%nat, 31); (4%nat, 0)]);
   ("math", Idef "R" 80 [(0%nat, 53); (3%nat, 46); (1%nat, 41); (2%nat, 36); (4%nat, 31)]);
   ("set", Idef "R" 81 [(1%nat, 53); (0%nat, 50); (2%nat, 36); (7%nat, 31); (3%nat, 26);
                        (4%nat, 21); (5%nat, 16); (6%nat, 11)]);
   ("sync", Idef "R" 82 [(0%nat, 53); (1%nat, 31)]);
   ("read", Idef "R" 83 [(1%nat, 53); (0%nat, 50); (2%nat, 46); (3%nat, 41)]);
   ("wait", Idef "R" 84 [(0%nat, 53); (1%nat, 31)]);
   ("bitw", Idef "R" 85 [(0%nat, 53); (1%nat, 41); (2%nat, 36); (3%nat, 46); (4%nat, 31)]);
   ("memr", Idef "R" 86 [(0%nat, 53); (1%nat, 41); (2%nat, 36)]);
   ("memw", Idef "R" 87 [(0%nat, 53); (2%nat, 36); (1%nat, 31)]);
   ("setb", Idef "R" 88 [(0%nat, 53); (2%nat, 36); (1%nat, 31)])].

Definition op_codes : gmap string Z := list_to_map
  [(">", 0); (">=", 1); ("<", 2); ("<=", 3); ("==", 4); ("!=", 5);
   ("+", 8); ("-", 9); ("*", 10);
   ("&", 0); ("|", 1); ("^", 2); ("~", 3); ("<<", 4); (">>", 5);
   ("upper", 10); ("lower", 5)].

(** [label]: the name is bound to the number of instructions so far. *)
Definition label (nm : string) (p : program) : program :=
  Program (prog_list p) (<[nm := Z.of_nat (List.length (prog_list p))]> (labels p))
    (dac_ts p) (channels p).

(** An argument used as an integer operand. *)
Definition arg_int (a : arg) : result Z :=
  match a with
  | AInt z => Ok z
  | _ => Raise TypeError
  end.

(** [d[a]] for a dictionary with string keys indexed by an argument; an
    integer is no key of it, and neither is the comment ([None], or text
    taken not to name an entry). *)
Definition arg_lookup (d : gmap string Z) (a : arg) : result Z :=
  match a with
  | AStr s => dict_get d s
  | _ => Raise KeyError
  end.

(** [args[i] = f(args[i])] *)
Definition update_arg (i : nat) (f : arg -> result Z) (l : list arg) : result (list arg) :=
  match l !! i with
  | Some a => v ← f a; Ok (<[i := AInt v]> l)
  | None => Raise IndexError
  end.

(** [name[:4] == s] for a four-letter [s]. *)
Definition prefix4 (nm s : string) : bool := String.eqb (String.substring 0 4 nm) s.

(** [mcode |= (args[field[0]] << field[1])] over the format. *)
Definition pack_fields (a : list arg) (f : list (nat * Z)) (mcode : Z) : result Z :=
  foldl (fun acc fld =>
           m ← acc;
           x ← from_option Ok (Raise IndexError) (a !! fld.1);
           v ← arg_int x;
           Ok (Z.lor m (Z.shiftl v fld.2)))
        (Ok mcode) f.

(** [compile_instruction], for the label table [lbls]. *)
Definition compile_instruction (lbls : gmap string Z) (i : inst) : result Z :=
  let a := args i in
  d ← dict_get instructions (name i);
  a ← (if String.eqb (ty d) "I"
       then update_arg (List.length (fmt d) - 1) (fun x => v ← arg_int x; convert_immediate v) a
       else Ok a);
  a ← (if String.eqb (name i) "loopnz"
       then match a with
            | [] => Raise IndexError
            | _ => update_arg (List.length a - 1) (arg_lookup lbls) a
            end
       else Ok a);
  a ← (if String.eqb (name i) "condj"
       then a ← update_arg 4 (arg_lookup lbls) a;
            x ← from_option Ok (Raise IndexError) (args i !! 2%nat);
            update_arg 2 (fun _ => arg_lookup op_codes x) a
       else Ok a);
  a ← (if prefix4 (name i) "math"
       then x ← from_option Ok (Raise IndexError) (args i !! 3%nat);
            update_arg 3 (fun _ => arg_lookup op_codes x) a
       else Ok a);
  a ← (if prefix4 (name i) "bitw"
       then x ← from_option Ok (Raise IndexError) (args i !! 3%nat);
            update_arg 3 (fun _ => arg_lookup op_codes x) a
       else Ok a);
  a ← (if prefix4 (name i) "read"
       then x ← from_option Ok (Raise IndexError) (args i !! 2%nat);
            update_arg 2 (fun _ => arg_lookup op_codes x) a
       else Ok a);
  m ← pack_fields a (fmt d) (Z.shiftl (bin d) 56);
  Ok (if String.eqb (name i) "loopnz" then Z.lor m (Z.shiftl 8 46) else m).

(** [compile] *)
Definition compile (p : program) : result (list Z) :=
  mapM (compile_instruction (labels p)) (prog_list p).

(** [deg2reg] at an integer number of degrees (integer floor division). *)
Definition deg2reg (deg : Z) : Z := (deg * 2 ^ 32) `div` 360.

(** [reg2deg] as an exact rational. *)
Definition reg2deg (reg : Z) : Q := (inject_Z (reg * 360) / inject_Z (2 ^ 32))%Q.

(** [arb_pulse] *)
Definition arb_pulse (ch : Z) (nm : option string)
    (freq phase gain phrst stdysel mode outsel length : option Z)
    (t : option tval) (play : bool) (p : program) : result program :=
  '(addr, length, p) ←
     match nm with
     | Some n =>
         pi ← get_pinfo p ch n;
         p ← set_last_pulse ch n p;
         Ok (Some (pi_addr pi `div` 16), pi_length pi, p)
     | None => Ok (None, length, p)
     end;
  '(r, p) ← set_pulse_registers ch freq phase addr gain phrst stdysel mode outsel length None p;
  if play then
    p ← match t with
        | Some tv =>
            t0 ← match tv with
                 | TAuto => list_get (dac_ts p) ch
                 | TInt tv => Ok tv
                 end;
            n ← match nm with
                | Some n => Ok n
                | None => last_pinfo_name p ch
                end;
            pi ← get_pinfo p ch n;
            len ← from_option Ok (Raise TypeError) (pi_length pi);
            ts ← list_set (dac_ts p) ch (t0 + len);
            Ok (safe_regwi (rp r) (r_t r) t0 (set_dac_ts ts p))
        | None => Ok p
        end;
    Ok (play_set ch r p)
  else Ok p.

(** [pulse]: the macro of the style stored for the pulse. *)
Definition pulse (ch : Z) (nm : option string)
    (freq phase gain phrst stdysel mode outsel length : option Z)
    (t : option tval) (play : bool) (p : program) : result program :=
  n ← match nm with
      | Some n => Ok n
      | None => last_pinfo_name p ch
      end;
  pi ← get_pinfo p ch n;
  if String.eqb (style pi) "const"
  then const_pulse ch nm freq phase gain phrst stdysel mode outsel length t play p
  else if String.eqb (style pi) "arb"
  then arb_pulse ch nm freq phase gain phrst stdysel mode outsel length t play p
  else if String.eqb (style pi) "flat_top"
  then flat_top_pulse ch nm freq phase gain phrst stdysel mode outsel length t play p
  else Raise KeyError.

End QickAsm.


(** ** The tProc register machine *)

Module TProc.
Import QickAsm.

(** Modelled from the spec: the tProc is hardware and no simulator is part
    of the sources.  The three register instructions that [safe_regwi]
    emits are run as the spec names them (write the immediate, shift left,
    add), on integer registers addressed by page and number; [set] plays
    the wave that the six named registers hold at that moment. *)
Definition regfile : Type := Z -> Z -> Z.

Definition rf_set (rf : regfile) (pg r v : Z) : regfile :=
  fun pg' r' => if (pg' =? pg) && (r' =? r) then v else rf pg' r'.

Record play : Type := Play {
  pl_ch : Z; pl_freq : Z; pl_phase : Z; pl_addr : Z; pl_gain : Z; pl_mode : Z; pl_t : Z
}.

Record machine : Type := Machine { regs : regfile; played : list play }.

Definition step (i : inst) (m : machine) : option machine :=
  let rf := regs m in
  if String.eqb (name i) "regwi" then
    match args i with
    | [AInt pg; AInt r; AInt imm; _] => Some (Machine (rf_set rf pg r imm) (played m))
    | _ => None
    end
  else if String.eqb (name i) "bitwi" then
    match args i with
    | [AInt pg; AInt rd; AInt ra; AStr op; AInt imm] =>
        if String.eqb op "<<"
        then Some (Machine (rf_set rf pg rd (Z.shiftl (rf pg ra) imm)) (played m))
        else None
    | _ => None
    end
  else if String.eqb (name i) "mathi" then
    match args i with
    | [AInt pg; AInt rd; AInt ra; AStr op; AInt imm] =>
        if String.eqb op "+"
        then Some (Machine (rf_set rf pg rd (rf pg ra + imm)) (played m))
        else None
    | _ => None
    end
  else if String.eqb (name i) "set" then
    match args i with
    | [AInt ch; AInt pg; AInt rfreq; AInt rphase; AInt raddr; AInt rgain;
       AInt rmode; AInt rt; _] =>
        Some (Machine rf
                (played m ++
                 [Play ch (rf pg rfreq) (rf pg rphase) (rf pg raddr) (rf pg rgain)
                       (rf pg rmode) (rf pg rt)]))
    | _ => None
    end
  else None.

Fixpoint run (l : list inst) (m : machine) : option machine :=
  match l with
  | [] => Some m
  | i :: r => match step i m with
              | Some m' => run r m'
              | None => None
              end
  end.

(** The instructions appended to [p] to reach [p']. *)
Definition emitted (p p' : program) : list inst :=
  drop (length (prog_list p)) (prog_list p').

(** The output selector and the length packed in a mode register. *)
Definition mode_outsel (mc : Z) : Z := Z.land (Z.shiftr mc 16) 3.
Definition mode_length (mc : Z) : Z := Z.land mc (2 ^ 16 - 1).

End TProc.

(** ** [asm_v2.py]: the second-generation program builder *)

Module AsmV2.

(** *** [Wave] *)

Record Wave : Type := MkWave {
  freq : Z; phase : Z; env : Z; gain : Z; length : Z; conf : Z
}.

Definition widths : list nat := [4; 4; 3; 4; 4; 2]%nat.

(** The iteration order of the named tuple. *)
Definition fields (w : Wave) : list Z :=
  [freq w; phase w; env w; gain w; length w; conf w].

(** The [w] low bytes of [v], least significant first (two's complement
    for a negative [v]). *)
Fixpoint le_bytes (w : nat) (v : Z) : list Z :=
  match w with
  | O => []
  | S w' => v `mod` 256 :: le_bytes w' (v `div` 256)
  end.

(** [signed_fits w v]: [v] is representable as a signed integer of [w] bytes. *)
Definition signed_fits (w : nat) (v : Z) : bool :=
  (- 2 ^ (8 * Z.of_nat w - 1) <=? v) && (v <? 2 ^ (8 * Z.of_nat w - 1)).

(** [int(v).to_bytes(length=w, byteorder='little', signed=True)] *)
Definition to_bytes (v : Z) (w : nat) : result (list Z) :=
  if signed_fits w v then Ok (le_bytes w v) else Raise OverflowError.

(** [b''.join([... for i, w in zip(self, self.widths)])] *)
Definition rawbytes (w : Wave) : result (list Z) :=
  bs ← mapM (fun '(v, n) => to_bytes v n) (zip (fields w) widths);
  Ok (concat bs).

(** [rawbytes[:11]+bytes(1)+rawbytes[11:]]: the record before the DMA padding. *)
Definition insert_gap (raw : list Z) : list Z :=
  take 11 raw ++ replicate 1 0 ++ drop 11 raw.

(** [rawbytes[:11]+bytes(1)+rawbytes[11:]+bytes(10)] *)
Definition paddedbytes (w : Wave) : result (list Z) :=
  raw ← rawbytes w;
  Ok (insert_gap raw ++ replicate 10 0).

(** One little-endian signed 32-bit word. *)
Definition int32_of_bytes (b0 b1 b2 b3 : Z) : Z :=
  let u := b0 + 256 * b1 + 65536 * b2 + 16777216 * b3 in
  if u <? 2 ^ 31 then u else u - 2 ^ 32.

(** [np.frombuffer(_, dtype=np.int32)] on a little-endian host. *)
Fixpoint frombuffer_int32 (fuel : nat) (bs : list Z) : result (list Z) :=
  match bs with
  | [] => Ok []
  | b0 :: b1 :: b2 :: b3 :: r =>
      match fuel with
      | O => Raise ValueError
      | S n => ws ← frombuffer_int32 n r; Ok (int32_of_bytes b0 b1 b2 b3 :: ws)
      end
  | _ => Raise ValueError
  end.

(** [Wave.compile] *)
Definition compile (w : Wave) : result (list Z) :=
  bs ← paddedbytes w;
  frombuffer_int32 (List.length bs) bs.

(** *** Configuration ([soccfg]) *)

Record gencfg : Type := GenCfg {
  gen_type : string;
  tproc_ch : Z;
  samps_per_clk : Z;
  maxv : Z;
  maxv_scale : Q;
  gen_f_fabric : Q
}.

Record rocfg : Type := RoCfg {
  trigger_type : string;
  trigger_port : Z;
  trigger_bit : Z;
  ro_f_fabric : Q
}.

(** An entry of [output_pins]: [(porttype, portnum, pinnum, name)]. *)
Record pincfg : Type := PinCfg {
  porttype : string; portnum : Z; pinnum : Z; pinname : string
}.

Record soccfg : Type := SocCfg {
  gens : list gencfg;
  readouts : list rocfg;
  dreg_qty : Z;
  output_pins : list pincfg;
  f_time : Q
}.

(** Methods that [QickProgramV2] and the generator managers call on the
    base class [AbsQickProgram], which is not part of the sources; they
    are unit conversions and are taken as parameters. *)
Record base : Type := Base {
  freq2reg : Z -> Q -> Z -> Z;
  deg2reg : Z -> Q -> Z;
  us2cycles : option Z -> option Z -> Q -> Z
}.

(** *** Pulse parameters *)

(** A value of the keyword dictionary given to [add_pulse]. *)
Inductive pval : Type :=
  | PStr (s : string)
  | PInt (z : Z)
  | PFloat (q : Q).

(** A stored envelope: [{"data": data, "addr": addr}], with [data] of
    shape [(length, 2)]. *)
Record envelope : Type := Envelope { data : list (Z * Z); env_addr : Z }.

(** A compiled pulse (a dictionary whose keys depend on the style). *)
Record pulse : Type := Pulse {
  waves : list Wave;
  p_lenreg : option Z;
  p_length : option Z;
  wavenames : list string
}.

Definition PARAMS_REQUIRED : gmap string (list string) := list_to_map
  [("const", ["style"; "freq"; "phase"; "gain"; "length"]);
   ("arb", ["style"; "freq"; "phase"; "gain"; "envelope"]);
   ("flat_top", ["style"; "freq"; "phase"; "gain"; "length"; "envelope"])].

Definition PARAMS_OPTIONAL : gmap string (list string) := list_to_map
  [("const", ["phrst"; "stdysel"; "mode"]);
   ("arb", ["phrst"; "stdysel"; "mode"; "outsel"]);
   ("flat_top", ["phrst"; "stdysel"])].

(** A parameter read as a string key; another dynamic type is not a key of
    the tables indexed with it. *)
Definition as_key (v : pval) : result string :=
  match v with
  | PStr s => Ok s
  | _ => Raise KeyError
  end.

(** A parameter read as a number. *)
Definition as_num (v : pval) : result Q :=
  match v with
  | PInt z => Ok (inject_Z z)
  | PFloat q => Ok q
  | PStr _ => Raise TypeError
  end.

(** A parameter read as an integer flag. *)
Definition as_int (v : pval) : result Z :=
  match v with
  | PInt z => Ok z
  | _ => Raise TypeError
  end.

(** [AbsGenManager.check_params] *)
Definition check_params (params : gmap string pval) : result unit :=
  sv ← dict_get params "style";
  style ← as_key sv;
  req ← dict_get PARAMS_REQUIRED style;
  opt ← dict_get PARAMS_OPTIONAL style;
  let required : gset string := list_to_set req in
  let allowed : gset string := required ∪ list_to_set opt in
  let defined : gset string := dom params in
  if negb (bool_decide (required ∖ defined = ∅)) then Raise RuntimeError
  else if negb (bool_decide (defined ∖ allowed = ∅)) then Raise RuntimeError
  else Ok tt.

(** [AbsGenManager.cfg2reg] *)
Definition cfg2reg (outsel mode stdysel phrst : option pval) : result Z :=
  let outsel := default (PStr "product") outsel in
  let mode := default (PStr "oneshot") mode in
  let stdysel := default (PStr "zero") stdysel in
  let phrst := default (PInt 0) phrst in
  ok ← as_key outsel;
  outsel_reg ← dict_get (list_to_map [("product", 0); ("dds", 1); ("input", 2); ("zero", 3)]
                          : gmap string Z) ok;
  mk ← as_key mode;
  mode_reg ← dict_get (list_to_map [("oneshot", 0); ("periodic", 1)] : gmap string Z) mk;
  sk ← as_key stdysel;
  stdysel_reg ← dict_get (list_to_map [("last", 0); ("zero", 1)] : gmap string Z) sk;
  ph ← as_int phrst;
  Ok (ph * 16 + stdysel_reg * 8 + mode_reg * 4 + outsel_reg).

(** The keyword arguments collected in [wavepars]; a required positional
    argument of [params2wave] that was never set is [None]. *)
Record wavepars : Type := WavePars {
  wp_freqreg : option Z;
  wp_phasereg : option Z;
  wp_gainreg : option Z;
  wp_lenreg : option Z;
  wp_env : option Z;
  wp_mode : option pval;
  wp_outsel : option pval;
  wp_stdysel : option pval;
  wp_phrst : option pval
}.

(** [FullSpeedGenManager.params2wave], called with the keyword dictionary
    [wavepars]: a missing required argument is a [TypeError]. *)
Definition params2wave (wp : wavepars) : result Wave :=
  freqreg ← from_option Ok (Raise TypeError) (wp_freqreg wp);
  phasereg ← from_option Ok (Raise TypeError) (wp_phasereg wp);
  gainreg ← from_option Ok (Raise TypeError) (wp_gainreg wp);
  lenreg ← from_option Ok (Raise TypeError) (wp_lenreg wp);
  let env := default 0 (wp_env wp) in
  if (2 ^ 16 <=? lenreg) || (lenreg <? 3) then Raise RuntimeError
  else
    confreg ← cfg2reg (wp_outsel wp) (wp_mode wp) (wp_stdysel wp) (wp_phrst wp);
    Ok (MkWave freqreg phasereg env gainreg lenreg confreg).

(** [style == s] for the value of the [style] parameter. *)
Definition style_is (sv : pval) (s : string) : bool :=
  match sv with
  | PStr s' => String.eqb s' s
  | _ => false
  end.

(** [FullSpeedGenManager.params2pulse] for the manager of generator [ch].
    The [flat_top] branch of the source sits in a string literal after the
    [return]: no branch is taken for that style. *)
Definition params2pulse (B : base) (ch : Z) (cfg : gencfg)
    (envelopes : gmap string envelope) (params : gmap string pval) : result pulse :=
  fv ← dict_get params "freq";
  f ← as_num fv;
  let freqreg := freq2reg B ch f 0 in
  dv ← dict_get params "phase";
  deg ← as_num dv;
  let phasereg := deg2reg B ch deg in
  gv ← dict_get params "gain";
  g ← as_num gv;
  let gainreg := py_int (g * inject_Z (maxv cfg) * maxv_scale cfg) in
  envinfo ← match params !! "envelope" with
            | Some ev =>
                ek ← as_key ev;
                pinfo ← dict_get envelopes ek;
                if samps_per_clk cfg =? 0 then Raise ZeroDivisionError
                else Ok (Some (Z.of_nat (List.length (data pinfo)) `div` samps_per_clk cfg,
                               env_addr pinfo `div` samps_per_clk cfg))
            | None => Ok None
            end;
  sv ← dict_get params "style";
  let wp := WavePars (Some freqreg) (Some phasereg) (Some gainreg) None None None None
                     (params !! "stdysel") (params !! "phrst") in
  if style_is sv "const" then
    let wp := WavePars (wp_freqreg wp) (wp_phasereg wp) (wp_gainreg wp) (wp_lenreg wp)
                       (wp_env wp) (params !! "mode") (Some (PStr "dds"))
                       (wp_stdysel wp) (wp_phrst wp) in
    w ← params2wave wp;
    lv ← dict_get params "length";
    us ← as_num lv;
    Ok (Pulse [w] (Some (us2cycles B (Some ch) None us)) None [])
  else if style_is sv "arb" then
    '(env_length, env_addr) ← from_option Ok (Raise UnboundLocalError) envinfo;
    let wp := WavePars (wp_freqreg wp) (wp_phasereg wp) (wp_gainreg wp) (Some env_length)
                       (Some env_addr) (params !! "mode") (params !! "outsel")
                       (wp_stdysel wp) (wp_phrst wp) in
    w ← params2wave wp;
    Ok (Pulse [w] None (Some env_length) [])
  else Ok (Pulse [] None None []).

(** *** [QickProgramV2] *)

(** A value of an instruction dictionary: the fields given by the macros
    are strings, [P_ADDR] and [LINE] are integers. *)
Inductive val : Type :=
  | VStr (s : string)
  | VInt (z : Z).

Abbreviation inst := (gmap string val).

(** Modelled from the spec: the class [QickRegister] is imported from a
    module that is not part of the sources.  A register is the record of
    its constructor arguments: page, address, type, associated channels,
    initial value and owning name. *)
Record QickRegister : Type := MkRegister {
  page : Z;
  addr : Z;
  reg_type : option string;
  reg_gen_ch : option Z;
  reg_ro_ch : option Z;
  init_val : option Q;
  reg_name : string
}.

(** The state of a [QickProgramV2] object.  [envelopes], [ro_chs], [gen_ts]
    and [ro_ts] are attributes of the absent base class: the envelope
    library per generator, the declared readout lengths and (modelled from
    the spec's "each channel tracks a single integer timestamp") the
    timestamp tables of the generators and of the readouts. *)
Record program : Type := Program {
  cfg : soccfg;
  prog_list : list inst;
  labels : gmap string string;
  p_addr : Z;
  line : Z;
  user_reg_dict : gmap string QickRegister;
  user_regs : list Z;
  loop_list : list string;
  loop_stack : list string;
  wave_table : list (string * Wave);
  wave2idx : gmap string Z;
  pulses : gmap string pulse;
  envelopes : list (gmap string envelope);
  ro_chs : gmap Z Z;
  gen_ts : list Z;
  ro_ts : list Z
}.

Definition set_code (l : list inst) (a ln : Z) (p : program) : program :=
  Program (cfg p) l (labels p) a ln (user_reg_dict p) (user_regs p) (loop_list p)
    (loop_stack p) (wave_table p) (wave2idx p) (pulses p) (envelopes p) (ro_chs p)
    (gen_ts p) (ro_ts p).

Definition set_labels (l : gmap string string) (p : program) : program :=
  Program (cfg p) (prog_list p) l (p_addr p) (line p) (user_reg_dict p) (user_regs p)
    (loop_list p) (loop_stack p) (wave_table p) (wave2idx p) (pulses p) (envelopes p)
    (ro_chs p) (gen_ts p) (ro_ts p).

Definition set_regs (d : gmap string QickRegister) (r : list Z) (p : program) : program :=
  Program (cfg p) (prog_list p) (labels p) (p_addr p) (line p) d r (loop_list p)
    (loop_stack p) (wave_table p) (wave2idx p) (pulses p) (envelopes p) (ro_chs p)
    (gen_ts p) (ro_ts p).

Definition set_loops (ll ls : list string) (p : program) : program :=
  Program (cfg p) (prog_list p) (labels p) (p_addr p) (line p) (user_reg_dict p)
    (user_regs p) ll ls (wave_table p) (wave2idx p) (pulses p) (envelopes p) (ro_chs p)
    (gen_ts p) (ro_ts p).

Definition set_waves (w : list (string * Wave)) (i : gmap string Z) (p : program) : program :=
  Program (cfg p) (prog_list p) (labels p) (p_addr p) (line p) (user_reg_dict p)
    (user_regs p) (loop_list p) (loop_stack p) w i (pulses p) (envelopes p) (ro_chs p)
    (gen_ts p) (ro_ts p).

Definition set_pulses (d : gmap string pulse) (p : program) : program :=
  Program (cfg p) (prog_list p) (labels p) (p_addr p) (line p) (user_reg_dict p)
    (user_regs p) (loop_list p) (loop_stack p) (wave_table p) (wave2idx p) d (envelopes p)
    (ro_chs p) (gen_ts p) (ro_ts p).

Definition set_ts (g r : list Z) (p : program) : program :=
  Program (cfg p) (prog_list p) (labels p) (p_addr p) (line p) (user_reg_dict p)
    (user_regs p) (loop_list p) (loop_stack p) (wave_table p) (wave2idx p) (pulses p)
    (envelopes p) (ro_chs p) g r.

Definition gentypes : list string :=
  ["axis_signal_gen_v4"; "axis_signal_gen_v5"; "axis_signal_gen_v6"].

(** [QickProgramV2.__init__]: every generator type must have a manager
    class; a fresh program has no envelopes, no declared readouts and
    zero timestamps. *)
Definition init (c : soccfg) : result program :=
  if forallb (fun g => bool_decide (gen_type g ∈ gentypes)) (gens c) then
    Ok (Program c [] {["s15" := "s15"]} 1 1 ∅ [] [] [] [] ∅ ∅
          (replicate (List.length (gens c)) ∅) ∅
          (replicate (List.length (gens c)) 0) (replicate (List.length (readouts c)) 0))
  else Raise KeyError.

Definition mk_inst (l : list (string * string)) : inst :=
  list_to_map (prod_map id VStr <$> l).

Definition add_instruction (i : inst) (addr_inc : Z) (p : program) : program :=
  let i := <["LINE" := VInt (line p)]> (<["P_ADDR" := VInt (p_addr p)]> i) in
  set_code (prog_list p ++ [i]) (p_addr p + addr_inc) (line p + 1) p.

(** [end] *)
Definition end_ (p : program) : program :=
  add_instruction
    (mk_inst [("CMD", "JUMP"); ("ADDR", "&" +:+ py_str (p_addr p)); ("UF", "0")]) 1 p.

Definition wait (time : Z) (p : program) : program :=
  add_instruction
    (mk_inst [("CMD", "WAIT"); ("ADDR", "&" +:+ py_str (p_addr p + 1));
              ("TIME", py_str time)]) 2 p.

Definition add_label (label : string) (p : program) : program :=
  set_labels (<[label := "&" +:+ py_str (Z.of_nat (List.length (prog_list p)) + 1)]> (labels p)) p.

(** [while addr in self._user_regs: addr += 1]; the loop leaves after at
    most [len(_user_regs)] increments. *)
Fixpoint scan_free (fuel : nat) (regs : list Z) (a : Z) : Z :=
  match fuel with
  | O => a
  | S n => if bool_decide (a ∈ regs) then scan_free n regs (a + 1) else a
  end.

Definition new_reg (a : option Z) (nm : option string) (iv : option Q)
    (rt : option string) (gen_ch ro_ch : option Z) (p : program)
    : result (QickRegister * program) :=
  a ← match a with
      | None =>
          let a := scan_free (List.length (user_regs p)) (user_regs p) 0 in
          if dreg_qty (cfg p) <=? a then Raise RuntimeError else Ok a
      | Some a =>
          if (a <? 0) || (dreg_qty (cfg p) <=? a) then Raise ValueError
          else if bool_decide (a ∈ user_regs p) then Raise ValueError
          else Ok a
      end;
  let regs := user_regs p ++ [a] in
  let nm := default ("reg_page" +:+ py_str a) nm in
  if bool_decide (is_Some (user_reg_dict p !! nm)) then Raise NameError
  else
    let reg := MkRegister 0 a rt gen_ch ro_ch iv nm in
    Ok (reg, set_regs (<[nm := reg]> (user_reg_dict p)) regs p).

Definition open_loop (n : Z) (nm : option string) (a : option Z) (p : program)
    : result program :=
  let nm := default ("loop_" +:+ py_str (Z.of_nat (List.length (loop_list p)))) nm in
  '(reg, p) ← new_reg a (Some nm) None None None None p;
  let p := set_loops (loop_list p ++ [nm]) (loop_stack p ++ [nm]) p in
  let p := add_instruction
             (mk_inst [("CMD", "REG_WR"); ("DST", "r" +:+ py_str (addr reg)); ("SRC", "imm");
                       ("LIT", py_str n); ("UF", "0")]) 1 p in
  Ok (add_label (upper nm) p).

(** The two instructions of [close_loop] for the loop [nm] counted in [reg]. *)
Definition dec_inst (reg : QickRegister) : inst :=
  mk_inst [("CMD", "REG_WR"); ("DST", "r" +:+ py_str (addr reg)); ("SRC", "op");
           ("OP", "r" +:+ py_str (addr reg) +:+ "-#1"); ("UF", "1")].

Definition jump_inst (nm : string) : inst :=
  mk_inst [("CMD", "JUMP"); ("LABEL", upper nm); ("IF", "NZ"); ("UF", "0")].

Definition close_loop (p : program) : result program :=
  nm ← from_option Ok (Raise IndexError) (last (loop_stack p));
  let p := set_loops (loop_list p) (removelast (loop_stack p)) p in
  reg ← dict_get (user_reg_dict p) nm;
  let p := add_instruction (dec_inst reg) 1 p in
  Ok (add_instruction (jump_inst nm) 1 p).

(** [OrderedDict.__setitem__]: a known key keeps its position. *)
Fixpoint od_insert {V : Type} (k : string) (v : V) (l : list (string * V))
    : list (string * V) :=
  match l with
  | [] => [(k, v)]
  | (k', v') :: r => if String.eqb k' k then (k', v) :: r else (k', v') :: od_insert k v r
  end.

Definition add_wave (nm : string) (w : Wave) (p : program) : program :=
  let ws := od_insert nm w (wave_table p) in
  set_waves ws (<[nm := Z.of_nat (List.length ws) - 1]> (wave2idx p)) p.

(** [AbsRegisterManager.add_pulse] of the manager of generator [ch], with
    the loop over [enumerate(pulse['waves'])] starting at index [i]. *)
Fixpoint register_waves (nm : string) (i : Z) (ws : list Wave) (p : program)
    : list string * program :=
  match ws with
  | [] => ([], p)
  | w :: r =>
      let wavename := nm +:+ "_wave" +:+ py_str i in
      let '(names, p) := register_waves nm (i + 1) r (add_wave wavename w p) in
      (wavename :: names, p)
  end.

Definition mgr_add_pulse (B : base) (ch : Z) (gcfg : gencfg) (envs : gmap string envelope)
    (nm : string) (kwargs : gmap string pval) (p : program) : result program :=
  _ ← check_params kwargs;
  pl ← params2pulse B ch gcfg envs kwargs;
  let '(names, p) := register_waves nm 0 (waves pl) p in
  Ok (set_pulses (<[nm := Pulse (waves pl) (p_lenreg pl) (p_length pl) names]> (pulses p)) p).

(** [QickProgramV2.add_pulse]: [self._gen_mgrs[ch].add_pulse(name, kwargs)]. *)
Definition add_pulse (B : base) (ch : Z) (nm : string) (kwargs : gmap string pval)
    (p : program) : result program :=
  match py_index (Z.of_nat (List.length (gens (cfg p)))) ch with
  | Some n =>
      gcfg ← list_get (gens (cfg p)) (Z.of_nat n);
      envs ← list_get (envelopes p) (Z.of_nat n);
      mgr_add_pulse B (Z.of_nat n) gcfg envs nm kwargs p
  | None => Raise IndexError
  end.

(** *** Timestamps *)

(** Modelled from the spec: the timestamp accessors of the absent base
    class.  "Each channel tracks a single integer timestamp": one table for
    the generators and one for the readouts, read and written by channel. *)
Definition get_timestamp_gen (ch : Z) (p : program) : result Z := list_get (gen_ts p) ch.
Definition get_timestamp_ro (ch : Z) (p : program) : result Z := list_get (ro_ts p) ch.

Definition set_timestamp_gen (v ch : Z) (p : program) : result program :=
  ts ← list_set (gen_ts p) ch v; Ok (set_ts ts (ro_ts p) p).

Definition set_timestamp_ro (v ch : Z) (p : program) : result program :=
  ts ← list_set (ro_ts p) ch v; Ok (set_ts (gen_ts p) ts p).

(** Modelled from the spec: [get_max_timestamp(gens, ros)], "the maximum
    timestamp across all channels" of the selected kinds. *)
Definition get_max_timestamp (use_gens use_ros : bool) (p : program) : result Z :=
  py_max ((if use_gens then gen_ts p else []) ++ (if use_ros then ro_ts p else [])).

(** Modelled from the spec: [reset_timestamps()], "resets all channel
    timestamps to zero". *)
Definition reset_timestamps (p : program) : program :=
  set_ts (replicate (List.length (gen_ts p)) 0) (replicate (List.length (ro_ts p)) 0) p.

(** Modelled from the spec: [align(channels)] of the absent base class,
    "sets every given channel's timestamp to the maximum timestamp among
    them", on generator channels. *)
Definition align (chs : list Z) (p : program) : result program :=
  ts ← mapM (fun ch => get_timestamp_gen ch p) chs;
  max_t ← py_max ts;
  foldl (fun acc ch => p ← acc; set_timestamp_gen max_t ch p) (Ok p) chs.

(** *** Scheduling macros *)

(** The time argument of [pulse]: ['auto'] or an integer. *)
Inductive tval : Type :=
  | TAuto
  | TInt (t : Z).

(** [a / b] on floats *)
Definition py_div (a b : Q) : result Q :=
  if Qeq_bool b 0 then Raise ZeroDivisionError else Ok (a / b)%Q.

(** [QickProgramV2.pulse].  The floats of [pulse_length *= f_time/f_fabric]
    and [int(ts + pulse_length)] are read as exact rationals: this is the
    arithmetic of doubles where the clock ratio is a whole number and the
    values stay within [2^53]; elsewhere a double may round the product
    below the rational value. *)
Definition pulse_ (ch : Z) (nm : string) (t : tval) (p : program) : result program :=
  pl ← dict_get (pulses p) nm;
  len ← from_option Ok (Raise KeyError) (p_length pl);
  gcfg ← list_get (gens (cfg p)) ch;
  ratio ← py_div (f_time (cfg p)) (gen_f_fabric gcfg);
  let pulse_length := (inject_Z len * ratio)%Q in
  ts ← get_timestamp_gen ch p;
  '(t, p) ←
    match t with
    | TAuto =>
        p ← set_timestamp_gen (py_int (inject_Z ts + pulse_length)) ch p;
        Ok (ts, p)
    | TInt t =>
        if t <? ts then
          p ← set_timestamp_gen (py_int (inject_Z ts + pulse_length)) ch p;
          Ok (t, p)
        else
          p ← set_timestamp_gen (py_int (inject_Z t + pulse_length)) ch p;
          Ok (t, p)
    end;
  let p := add_instruction
             (mk_inst [("CMD", "REG_WR"); ("DST", "s14"); ("SRC", "imm");
                       ("LIT", py_str t); ("UF", "0")]) 1 p in
  foldl (fun acc wavename =>
           p ← acc;
           idx ← dict_get (wave2idx p) wavename;
           Ok (add_instruction
                 (mk_inst [("CMD", "WPORT_WR"); ("DST", py_str ch); ("SRC", "wmem");
                           ("ADDR", "&" +:+ py_str idx); ("UF", "0")]) 1 p))
        (Ok p) (wavenames pl).

(** [outdict[port] |= (1 << bit)] on a [defaultdict(int)], in insertion order. *)
Fixpoint od_or (port bits : Z) (l : list (Z * Z)) : list (Z * Z) :=
  match l with
  | [] => [(port, Z.lor 0 bits)]
  | (k, v) :: r => if k =? port then (k, Z.lor v bits) :: r else (k, v) :: od_or port bits r
  end.

(** [1 << n] *)
Definition py_bit (n : Z) : result Z :=
  if n <? 0 then Raise ValueError else Ok (Z.shiftl 1 n).

(** The loop of [trigger] over the readouts.  The warning printed for a
    trigger time before the readout's timestamp formats the undefined name
    [tireg]: evaluating it raises [NameError].  The floats of the readout
    length are read as exact rationals, as in [pulse_]. *)
Definition trigger_ro (treg : Z) (acc : result (list (Z * Z) * gset Z * program)) (ro : Z)
    : result (list (Z * Z) * gset Z * program) :=
  '(outdict, trigset, p) ← acc;
  rc ← list_get (readouts (cfg p)) ro;
  '(outdict, trigset) ←
    (if String.eqb (trigger_type rc) "dport"
     then b ← py_bit (trigger_bit rc); Ok (od_or (trigger_port rc) b outdict, trigset)
     else Ok (outdict, {[trigger_port rc]} ∪ trigset));
  ts ← get_timestamp_ro ro p;
  if treg <? ts then Raise NameError
  else
    len ← from_option Ok (Raise KeyError) (ro_chs p !! ro);
    ratio ← py_div (f_time (cfg p)) (ro_f_fabric rc);
    let ro_length := (inject_Z len * ratio)%Q in
    p ← set_timestamp_ro (py_int (inject_Z treg + ro_length)) ro p;
    Ok (outdict, trigset, p).

Definition trigger_pin (output_pins : list pincfg)
    (acc : result (list (Z * Z) * gset Z)) (pin : Z) : result (list (Z * Z) * gset Z) :=
  '(outdict, trigset) ← acc;
  pc ← list_get output_pins pin;
  if String.eqb (porttype pc) "dport"
  then b ← py_bit (pinnum pc); Ok (od_or (portnum pc) b outdict, trigset)
  else Ok (outdict, {[portnum pc]} ∪ trigset).

Definition dport_wr (outport : Z) (d : string) : inst :=
  mk_inst [("CMD", "DPORT_WR"); ("DST", py_str outport); ("SRC", "imm"); ("DATA", d);
           ("UF", "0")].

Definition s14_wr (t : Z) : inst :=
  mk_inst [("CMD", "REG_WR"); ("DST", "s14"); ("SRC", "imm"); ("LIT", py_str t); ("UF", "0")].

(** [QickProgramV2.trigger]; the ports of [trigset] are visited in the
    order of [elements] (the iteration order of a Python set of integers
    is an implementation detail of the interpreter). *)
Definition trigger (B : base) (ros pins : list Z) (t : Q) (width : Z) (p : program)
    : result program :=
  let treg := us2cycles B None None t in
  '(outdict, trigset, p) ← foldl (trigger_ro treg) (Ok ([], ∅, p)) ros;
  '(outdict, trigset) ← foldl (trigger_pin (output_pins (cfg p))) (Ok (outdict, trigset)) pins;
  let p :=
    match outdict with
    | [] => p
    | _ =>
        let p := add_instruction (s14_wr treg) 1 p in
        let p := foldl (fun p '(outport, out) =>
                          add_instruction (dport_wr outport (py_str out)) 1 p) p outdict in
        let p := add_instruction (s14_wr (treg + width)) 1 p in
        foldl (fun p '(outport, out) => add_instruction (dport_wr outport "0") 1 p) p outdict
    end in
  Ok (foldl (fun p outport =>
               let p := add_instruction
                          (mk_inst [("CMD", "TRIG"); ("SRC", "set"); ("DST", py_str outport);
                                    ("TIME", py_str treg)]) 1 p in
               add_instruction
                 (mk_inst [("CMD", "TRIG"); ("SRC", "clr"); ("DST", py_str outport);
                           ("TIME", py_str (treg + width))]) 1 p)
            p (elements trigset)).

(** [QickProgramV2.sync_all] *)
Definition sync_all (B : base) (t : Q) (p : program) : result program :=
  let treg := us2cycles B None None t in
  max_t ← get_max_timestamp true true p;
  if 0 <? max_t + treg then
    let p := add_instruction
               (mk_inst [("CMD", "TIME"); ("DST", "inc_ref"); ("LIT", py_str (max_t + treg))])
               1 p in
    Ok (reset_timestamps p)
  else Ok p.

(** [QickProgramV2.compile_waves]: one row of eight words per wave, in
    insertion order; no row for an empty table. *)
Definition compile_waves (p : program) : result (list (list Z)) :=
  mapM (fun '(_, w) => compile w) (wave_table p).

(** *** Envelopes *)

(** What [add_envelope] changes of a generator manager: the envelope
    library [self.envelopes] (the program's library for that generator)
    and the next free address [self.addr]. *)
Record genmgr : Type := GenMgr { mgr_envelopes : gmap string envelope; mgr_addr : Z }.

(** [AbsGenManager.__init__] for the library [envs]. *)
Definition new_genmgr (envs : gmap string envelope) : genmgr := GenMgr envs 0.

(** A value stored into an array of [np.int16]. *)
Definition int16 (v : Z) : Z := (v + 2 ^ 15) `mod` 2 ^ 16 - 2 ^ 15.

(** One column of the envelope for an array of integer samples: the
    range check [np.max(np.abs(d)) > maxv] (the maximum of an empty array
    is a [ValueError]) and the copy [data[:,i] = np.round(d)]; the column
    stays zero for [None]. *)
Definition env_column (mx : Z) (len : nat) (d : option (list Z)) : result (list Z) :=
  match d with
  | None => Ok (replicate len 0)
  | Some d =>
      m ← py_max (Z.abs <$> d);
      if mx <? m then Raise ValueError else Ok (int16 <$> d)
  end.

(** [AbsGenManager.add_envelope] *)
Definition add_envelope (gcfg : gencfg) (nm : string) (idata qdata : option (list Z))
    (m : genmgr) : result genmgr :=
  match omap (fmap (M := option) (@List.length Z)) [idata; qdata] with
  | [] => Raise RuntimeError
  | l0 :: r =>
      if match r with l1 :: _ => negb (Nat.eqb l0 l1) | [] => false end
      then Raise RuntimeError
      else if samps_per_clk gcfg =? 0 then Raise ZeroDivisionError
      else if negb (Z.of_nat l0 `mod` samps_per_clk gcfg =? 0) then Raise RuntimeError
      else
        ci ← env_column (maxv gcfg) l0 idata;
        cq ← env_column (maxv gcfg) l0 qdata;
        Ok (GenMgr (<[nm := Envelope (zip ci cq) (mgr_addr m)]> (mgr_envelopes m))
                   (mgr_addr m + Z.of_nat l0))
  end.

End AsmV2.

(** ** [qick.py]: support functions of the driver *)

Module Qick.

(** [x.astype(np.int16)] on an integer. *)
Definition int16 (v : Z) : Z := (v + 2 ^ 15) `mod` 2 ^ 16 - 2 ^ 15.

(** [format_buffer], on the elements of the buffer array: the I values
    from the low 16 bits, the Q values from the bits above. *)
Definition format_buffer (buff : list Z) : list Z * list Z :=
  ((fun d => int16 (Z.land d 65535)) <$> buff, (fun d => int16 (Z.shiftr d 16)) <$> buff).

End Qick.

(** * Vocabulary of the statements *)

(** ** For [qick_asm.py] *)

Module QickAsmSpec.
Import QickAsm TProc.

(** [safe_regwi] as a list of appended instructions. *)
Definition safe_regwi_code (rp reg imm : Z) : list inst :=
  if imm <? 2 ^ 30 then [Inst "regwi" [AInt rp; AInt reg; AInt imm; AComment]]
  else
    [Inst "regwi" [AInt rp; AInt reg; AInt (Z.shiftr imm 1); AComment];
     Inst "bitwi" [AInt rp; AInt reg; AInt reg; AStr "<<"; AInt 2]]
    ++ (if imm `mod` 4 =? 0 then []
        else [Inst "mathi" [AInt rp; AInt reg; AInt reg; AStr "+"; AInt (imm `mod` 4)]]).

Definition machine0 : machine := Machine (fun _ _ => 0) [].

(** The register [reg] of page [pg] after running [l] from [machine0]. *)
Definition reg_after (l : list inst) (pg reg : Z) : option Z :=
  (fun m => regs m pg reg) <$> run l machine0.

(** Appending a block of instructions. *)
Definition emit (l : list inst) (p : program) : program :=
  set_prog_list (prog_list p ++ l) p.

Definition opt_code (o : option Z) (f : Z -> list inst) : list inst :=
  match o with
  | Some v => f v
  | None => []
  end.

Definition regwi_code (rp reg imm : Z) : list inst :=
  [Inst "regwi" [AInt rp; AInt reg; AInt imm; AComment]].

Definition set_code (ch : Z) (r : pulse_regs) : list inst :=
  [Inst "set" [AInt ch; AInt (rp r); AInt (r_freq r); AInt (r_phase r); AInt (r_addr r);
               AInt (r_gain r); AInt (r_mode r); AInt (r_t r); AComment]].

(** The instructions of one call of [set_pulse_registers], given the mode
    code [mc] when one is written. *)
Definition spr_code (r : pulse_regs) (freq phase addr gain : option Z)
    (t : option tval) (mc : option Z) : list inst :=
  opt_code freq (safe_regwi_code (rp r) (r_freq r)) ++
  opt_code phase (safe_regwi_code (rp r) (r_phase r)) ++
  opt_code gain (regwi_code (rp r) (r_gain r)) ++
  match t with
  | Some (TInt tv) => regwi_code (rp r) (r_t r) tv
  | _ => []
  end ++
  opt_code addr (regwi_code (rp r) (r_addr r)) ++
  opt_code mc (regwi_code (rp r) (r_mode r)).

(** The special registers of a channel. *)
Definition regs_of (ch : Z) : pulse_regs :=
  if Z.odd ch then PulseRegs (ch_page ch) 16 17 18 19 20 21
  else PulseRegs (ch_page ch) 23 24 25 26 27 28.

(** The value that [safe_regwi] leaves in its register. *)
Definition safe_value (imm : Z) : Z :=
  if imm <? 2 ^ 30 then imm else Z.shiftl (Z.shiftr imm 1) 2 + imm `mod` 4.

Definition opt_value (o : option Z) (old : Z) : Z :=
  match o with
  | Some imm => safe_value imm
  | None => old
  end.

(** The three plays of a flat-top pulse on channel [ch], played from [p]
    into [p'] at time [start] with gain [g], ramp length [R], the stored
    flat length [L] and the stored address [a], and the new timestamp. *)
Definition flat_top_plays (ch a g R L start : Z) (p p' : program) : Prop :=
  exists mc_ramp mc_flat,
    get_mode_code None None None (Some 0) (Some R) = Ok mc_ramp /\
    get_mode_code None None None (Some 1) (Some L) = Ok mc_flat /\
    (forall m, exists m' fr ph,
        run (emitted p p') m = Some m' /\
        played m' = played m ++
          [Play ch fr ph a g mc_ramp start;
           Play ch fr ph a (g `div` 2) mc_flat start;
           Play ch fr ph (a + R) g mc_ramp (start + R + L)]) /\
    dac_ts p' = <[Z.to_nat ch := start + L + 2 * R]> (dac_ts p).

(** A program with a 64-sample ramp registered on channel 1 through
    [add_pulse]; the requested length 10 is not stored (the library keeps
    [len(idata)//16]). *)
Definition ramp_program : result program :=
  add_pulse 1 "ramp" "flat_top" (Some (replicate 64 0)) None (Some 10) init.

(** The gains of the plays that [l] produces from [machine0]. *)
Definition gains_played (l : list inst) : option (list Z) :=
  (fun m => pl_gain <$> played m) <$> run l machine0.

Definition ramp_state : program :=
  match ramp_program with
  | Ok p => p
  | Raise _ => init
  end.

(** The address, the gain and the time of the plays that [l] produces from
    [machine0]. *)
Definition plays_at (l : list inst) : option (list (Z * Z * Z)) :=
  (fun m => (fun x => (pl_addr x, pl_gain x, pl_t x)) <$> played m) <$> run l machine0.

(** [ramp_program] with a second 64-sample ramp registered after the
    first one, hence at the sample address 64, the fifth memory word. *)
Definition second_ramp_program : result program :=
  p ← ramp_program;
  add_pulse 1 "ramp2" "flat_top" (Some (replicate 64 0)) None (Some 10) p.

(** The [width] bits of the word [m] from bit [off] upwards. *)
Definition bits (m off width : Z) : Z := Z.land (Z.shiftr m off) (Z.ones width).

(** A program with the constant pulse [flat] of 10 cycles registered on
    channel 1. *)
Definition const_state : program :=
  match add_pulse 1 "flat" "const" None None (Some 10) init with
  | Ok p => p
  | Raise _ => init
  end.

End QickAsmSpec.

(** ** For [asm_v2.py] *)

Module AsmV2Spec.
Import AsmV2.

(** Every field of the wave fits the signed width it is written with. *)
Definition wave_fits (w : Wave) : bool :=
  forallb (fun '(v, n) => signed_fits n v) (zip (fields w) widths).





Definition example_wave : Wave := MkWave 100 50 3 1000 200 5.

(** Stamping of an instruction by [add_instruction]. *)
Definition stamp (a ln : Z) (i : inst) : inst :=
  <["LINE" := VInt ln]> (<["P_ADDR" := VInt a]> i).

Definition cfg0 : soccfg := SocCfg [] [] 32 [] 1%Q.

(** The string has ASCII characters only; on such strings [upper] is
    Python's [str.upper]. *)
Definition ascii_only (s : string) : bool :=
  forallb (fun c => Nat.ltb (nat_of_ascii c) 128) (list_ascii_of_string s).

(** The name that [open_loop] gives the loop. *)
Definition loop_name (nm : option string) (p : program) : string :=
  default ("loop_" +:+ py_str (Z.of_nat (List.length (loop_list p)))) nm.

(** [close_loop] succeeds on [p] with the decrement-and-branch pair of the
    loop [nm] counted in [reg]. *)
Definition closes_loop (p : program) (nm : string) (reg : QickRegister) : Prop :=
  exists p',
    close_loop p = Ok p' /\
    prog_list p' = prog_list p ++
      [stamp (p_addr p) (line p) (dec_inst reg);
       stamp (p_addr p + 1) (line p + 1) (jump_inst nm)] /\
    loop_stack p' = removelast (loop_stack p) /\
    dec_inst reg !! "DST" = Some (VStr ("r" +:+ py_str (addr reg))) /\
    dec_inst reg !! "OP" = Some (VStr ("r" +:+ py_str (addr reg) +:+ "-#1")) /\
    dec_inst reg !! "UF" = Some (VStr "1") /\
    jump_inst nm !! "CMD" = Some (VStr "JUMP") /\
    jump_inst nm !! "IF" = Some (VStr "NZ") /\
    jump_inst nm !! "LABEL" = Some (VStr (upper nm)).

Definition empty_program : program :=
  Program cfg0 [] ∅ 1 1 ∅ [] [] [] [] ∅ ∅ [] ∅ [] [].

(** A fresh program for [cfg0]. *)
Definition fresh_program : program :=
  match init cfg0 with
  | Ok p => p
  | Raise _ => empty_program
  end.

(** A fresh program in which [open_loop(100)] has just been called. *)
Definition loop_state : program :=
  match init cfg0 ≫= open_loop 100 None None with
  | Ok p => p
  | Raise _ => empty_program
  end.

(** The length field of a wave is a legal pulse length. *)
Definition wave_ok (w : Wave) : Prop := 3 <= length w < 2 ^ 16.

Definition table_ok (p : program) : Prop := Forall (fun e => wave_ok e.2) (wave_table p).

(** A board with one full-speed generator, 16 samples per clock, and
    integer-valued unit conversions. *)
Definition cfg1 : soccfg :=
  SocCfg [GenCfg "axis_signal_gen_v6" 0 16 32766 1%Q 430%Q] [] 32 [] 430%Q.

Definition base1 : base :=
  Base (fun _ f _ => py_int f) (fun _ d => py_int d) (fun _ _ us => py_int us).

(** A fresh program for [cfg1] in whose envelope library the 64-sample
    envelope ["ramp"] has been stored. *)
Definition pulse_state : program :=
  Program cfg1 [] {["s15" := "s15"]} 1 1 ∅ [] [] [] [] ∅ ∅
    [{["ramp" := Envelope (replicate 64 (0, 0)) 0]}] ∅ [0] [].

Definition arb_kwargs : gmap string pval :=
  list_to_map [("style", PStr "arb"); ("freq", PFloat 100%Q); ("phase", PInt 0);
               ("gain", PFloat 1%Q); ("envelope", PStr "ramp")].

Definition arb_state : program :=
  match add_pulse base1 0 "pi" arb_kwargs pulse_state with
  | Ok p => p
  | Raise _ => pulse_state
  end.

(** Pointwise order of two timestamp tables. *)
Definition ts_le (l l' : list Z) : Prop := Forall2 Z.le l l'.

(** The scheduling operations of the claim on timestamps. *)
Inductive sched_op : Type :=
  | OpPulse (ch : Z) (nm : string) (t : tval)
  | OpTrigger (ros pins : list Z) (t : Q) (width : Z)
  | OpAlign (chs : list Z).

Definition run_op (B : base) (op : sched_op) (p : program) : result program :=
  match op with
  | OpPulse ch nm t => pulse_ ch nm t p
  | OpTrigger ros pins t width => trigger B ros pins t width p
  | OpAlign chs => align chs p
  end.

(** The clock frequencies, the pulse lengths and the readout lengths of
    the program are not negative. *)
Definition nonneg_durations (p : program) : bool :=
  Qle_bool 0 (f_time (cfg p)) &&
  forallb (fun g => Qle_bool 0 (gen_f_fabric g)) (gens (cfg p)) &&
  forallb (fun r => Qle_bool 0 (ro_f_fabric r)) (readouts (cfg p)) &&
  forallb (fun e => match p_length e.2 with Some len => 0 <=? len | None => true end)
          (map_to_list (pulses p)) &&
  forallb (fun e => 0 <=? e.2) (map_to_list (ro_chs p)).

Definition nonneg_spec (p : program) : Prop :=
  (0 <= f_time (cfg p))%Q /\
  Forall (fun g => (0 <= gen_f_fabric g)%Q) (gens (cfg p)) /\
  Forall (fun r => (0 <= ro_f_fabric r)%Q) (readouts (cfg p)) /\
  (forall nm pl len, pulses p !! nm = Some pl -> p_length pl = Some len -> 0 <= len) /\
  (forall ro len, ro_chs p !! ro = Some len -> 0 <= len).

(** [p'] differs from [p] in code, and in timestamps that did not decrease. *)
Definition advances (p p' : program) : Prop :=
  cfg p' = cfg p /\ pulses p' = pulses p /\ ro_chs p' = ro_chs p /\
  ts_le (gen_ts p) (gen_ts p') /\ ts_le (ro_ts p) (ro_ts p').

(** What scheduling reads and writes besides the code. *)
Definition view (p : program) : soccfg * gmap string pulse * gmap Z Z * list Z * list Z :=
  (cfg p, pulses p, ro_chs p, gen_ts p, ro_ts p).

(** Calls of [pulse] with automatic timing, in call order: each is a
    generator channel and a pulse name. *)
Definition auto_pulses (calls : list (Z * string)) (p : program) : result program :=
  foldl (fun acc c => q ← acc; pulse_ c.1 c.2 TAuto q) (Ok p) calls.

(** The duration of the pulse [nm] on generator [ch] in tProc cycles, the
    [pulse_length] of [pulse]: [pulse['length'] * f_time / f_fabric]. *)
Definition pulse_duration (p : program) (ch : Z) (nm : string) : result Q :=
  pl ← dict_get (pulses p) nm;
  len ← from_option Ok (Raise KeyError) (p_length pl);
  gcfg ← list_get (gens (cfg p)) ch;
  ratio ← py_div (f_time (cfg p)) (gen_f_fabric gcfg);
  Ok (inject_Z len * ratio)%Q.

(** The duration truncated to whole cycles. *)
Definition pulse_ticks (p : program) (ch : Z) (nm : string) : Z :=
  match pulse_duration p ch nm with
  | Ok d => py_int d
  | Raise _ => 0
  end.

(** The call [c] addresses the entry [n] of the generator timestamps. *)
Definition on_channel (p : program) (n : nat) (c : Z * string) : bool :=
  bool_decide (py_index (Z.of_nat (List.length (gen_ts p))) c.1 = Some n).

Definition total (l : list Z) : Z := foldr Z.add 0 l.

(** The truncated durations of the calls on the entry [n], summed. *)
Definition ticks_on (p : program) (n : nat) (calls : list (Z * string)) : Z :=
  total ((fun c => pulse_ticks p c.1 c.2) <$> List.filter (on_channel p n) calls).



(** A board with one readout of 100 cycles, triggered through a data port. *)
Definition ro_state : program :=
  Program (SocCfg [] [RoCfg "dport" 0 3 430%Q] 32 [] 430%Q)
    [] {["s15" := "s15"]} 1 1 ∅ [] [] [] [] ∅ ∅ [] {[0 := 100]} [] [0].

(** A board with two generators, the second on a fabric clock of half the
    tProc clock, and the pulse ["pi"] of four fabric cycles. *)
Definition two_gen_state : program :=
  let c := SocCfg [GenCfg "axis_signal_gen_v6" 0 16 32766 1%Q 430%Q;
                   GenCfg "axis_signal_gen_v6" 1 16 32766 1%Q 215%Q] [] 32 [] 430%Q in
  let p := Program c [] {["s15" := "s15"]} 1 1 ∅ [] [] [] [] ∅ ∅
             [{["ramp" := Envelope (replicate 64 (0, 0)) 0]}; ∅] ∅ [0; 0] [] in
  match add_pulse base1 0 "pi" arb_kwargs p with
  | Ok q => q
  | Raise _ => p
  end.

Definition interleaved_calls : list (Z * string) := [(0, "pi"); (1, "pi"); (0, "pi")].

Definition interleaved_state : program :=
  match auto_pulses interleaved_calls two_gen_state with
  | Ok q => q
  | Raise _ => two_gen_state
  end.






(** Sign extension of the low [n] bits of [v]. *)
Definition sext (n v : Z) : Z := (v + 2 ^ (n - 1)) `mod` 2 ^ n - 2 ^ (n - 1).

(** The eight words that a wave compiles to. *)
Definition wave_words (w : Wave) : list Z :=
  [freq w; phase w; env w `mod` 2 ^ 24; gain w; length w; conf w `mod` 2 ^ 16; 0; 0].

(** Reading a wave back from a row of the wave memory. *)
Definition wave_of_words (ws : list Z) : option Wave :=
  match ws with
  | [f; p; e; g; l; c; _; _] => Some (MkWave f p (sext 24 e) g l (sext 16 c))
  | _ => None
  end.

(** The names of the generator settings, in the order of their codes. *)
Definition outsel_names : list string := ["product"; "dds"; "input"; "zero"].
Definition mode_names : list string := ["oneshot"; "periodic"].
Definition stdysel_names : list string := ["last"; "zero"].

(** The listing is numbered: the [LINE] of every instruction is its
    position in the list counted from 1, and the line counter is the next
    one. *)
Definition numbered (p : program) : Prop :=
  line p = Z.of_nat (List.length (prog_list p)) + 1 /\
  forall (i : nat) (x : inst), prog_list p !! i = Some x -> x !! "LINE" = Some (VInt (Z.of_nat i + 1)).

(** The envelope memory of a manager is laid out in whole clock ticks of
    [spc] samples below the next free address. *)
Definition aligned (spc : Z) (m : genmgr) : Prop :=
  0 <= mgr_addr m /\ mgr_addr m `mod` spc = 0 /\
  forall nm e, mgr_envelopes m !! nm = Some e ->
    0 <= env_addr e /\ env_addr e `mod` spc = 0 /\
    Z.of_nat (List.length (data e)) `mod` spc = 0 /\
    env_addr e + Z.of_nat (List.length (data e)) <= mgr_addr m.

(** The address range of an envelope. *)
Definition env_range (e : envelope) : Z * Z :=
  (env_addr e, env_addr e + Z.of_nat (List.length (data e))).

(** The generator of [cfg1], and its manager after a 64-sample envelope
    ["ramp"] with the I samples 100 has been added to an empty library. *)
Definition gen1 : gencfg := GenCfg "axis_signal_gen_v6" 0 16 32766 1%Q 430%Q.

Definition ramp_mgr : genmgr :=
  match add_envelope gen1 "ramp" (Some (replicate 64 100)) None (new_genmgr ∅) with
  | Ok m => m
  | Raise _ => new_genmgr ∅
  end.

End AsmV2Spec.

(** * The result monad *)

Lemma result_bind_Ok {A B : Type} (m : result A) (k : A -> result B) (b : B) :
  m ≫= k = Ok b -> exists a, m = Ok a /\ k a = Ok b.
Proof. destruct m as [a|e]; simpl; [eauto | discriminate]. Qed.

Lemma bind_ok_l {A B : Type} (a : A) (k : A -> result B) : Ok a ≫= k = k a.
Proof. reflexivity. Qed.

(** Inversion of a successful bind, and one step of a bind whose first
    computation is a value. *)
Ltac inv_bind H :=
  let x := fresh "x" in
  let E := fresh "E" in
  apply result_bind_Ok in H; destruct H as (x & E & H).

Ltac ok_step := rewrite bind_ok_l; cbv beta iota.

(** * Properties of [qick_asm.py] *)

Section QickAsmFacts.
Import QickAsm TProc QickAsmSpec.

(** ** Instructions appended by the generated methods *)
Lemma prog_list_append nm a p :
  prog_list (append_instruction nm a p) = prog_list p ++ [Inst nm a].
Proof. reflexivity. Qed.

Lemma emitted_app p p' l :
  prog_list p' = prog_list p ++ l -> emitted p p' = l.
Proof. intros H. unfold emitted. rewrite H. apply drop_app_length. Qed.

Lemma safe_regwi_prog_list rp reg imm p :
  prog_list (safe_regwi rp reg imm p) = prog_list p ++ safe_regwi_code rp reg imm.
Proof.
  unfold safe_regwi, safe_regwi_code.
  destruct (imm <? 2 ^ 30); [reflexivity |].
  destruct (imm `mod` 4 =? 0); simpl; rewrite <- ?app_assoc; reflexivity.
Qed.

Lemma safe_regwi_frame rp reg imm p :
  labels (safe_regwi rp reg imm p) = labels p /\
  dac_ts (safe_regwi rp reg imm p) = dac_ts p /\
  channels (safe_regwi rp reg imm p) = channels p.
Proof.
  unfold safe_regwi.
  destruct (imm <? 2 ^ 30); [auto |].
  destruct (imm `mod` 4 =? 0); auto.
Qed.

(** The number of instructions of [safe_regwi]: one below [2^30], otherwise
    two when [imm] is a multiple of four and three when it is not. *)
Lemma safe_regwi_count rp reg imm p :
  List.length (emitted p (safe_regwi rp reg imm p)) =
  if imm <? 2 ^ 30 then 1%nat else if imm `mod` 4 =? 0 then 2%nat else 3%nat.
Proof.
  rewrite (emitted_app _ _ _ (safe_regwi_prog_list rp reg imm p)).
  unfold safe_regwi_code.
  destruct (imm <? 2 ^ 30); [reflexivity |].
  destruct (imm `mod` 4 =? 0); reflexivity.
Qed.

Lemma rf_set_eq rf pg r v : rf_set rf pg r v pg r = v.
Proof. unfold rf_set. rewrite !Z.eqb_refl. reflexivity. Qed.

Lemma rf_set_ne rf pg r v pg' r' :
  (pg', r') <> (pg, r) -> rf_set rf pg r v pg' r' = rf pg' r'.
Proof.
  intros H. unfold rf_set.
  destruct (pg' =? pg) eqn:E1; [| reflexivity].
  destruct (r' =? r) eqn:E2; [| reflexivity].
  apply Z.eqb_eq in E1, E2. congruence.
Qed.

(** Running the code of [safe_regwi]: only the target register changes and
    nothing is played.  Below [2^30] the register receives [imm]; from
    [2^30] on it receives [((imm >> 1) << 2) + imm % 4]. *)
Lemma safe_regwi_run rp reg imm m :
  exists m',
    run (safe_regwi_code rp reg imm) m = Some m' /\
    played m' = played m /\
    (forall pg r, (pg, r) <> (rp, reg) -> regs m' pg r = regs m pg r) /\
    regs m' rp reg =
      if imm <? 2 ^ 30 then imm else Z.shiftl (Z.shiftr imm 1) 2 + imm `mod` 4.
Proof.
  unfold safe_regwi_code.
  destruct (imm <? 2 ^ 30) eqn:Hs.
  - eexists. split; [reflexivity |]. simpl.
    split; [reflexivity |]. split; [| apply rf_set_eq].
    intros pg r Hne. apply rf_set_ne, Hne.
  - destruct (imm `mod` 4 =? 0) eqn:Hm.
    + eexists. split; [reflexivity |]. simpl.
      split; [reflexivity |]. split.
      * intros pg r Hne. rewrite !rf_set_ne by exact Hne. reflexivity.
      * rewrite !rf_set_eq. apply Z.eqb_eq in Hm. lia.
    + eexists. split; [reflexivity |]. simpl.
      split; [reflexivity |]. split.
      * intros pg r Hne. rewrite !rf_set_ne by exact Hne. reflexivity.
      * rewrite !rf_set_eq. reflexivity.
Qed.

(** From [2^30] on, the value left in the register is never [imm]: the
    first write keeps [imm >> 1] where the two-bit shift needs [imm >> 2]. *)
Lemma safe_regwi_large_value imm :
  2 ^ 30 <= imm -> Z.shiftl (Z.shiftr imm 1) 2 + imm `mod` 4 <> imm.
Proof.
  intros H.
  rewrite Z.shiftl_mul_pow2, Z.shiftr_div_pow2 by lia.
  change (2 ^ 1) with 2. change (2 ^ 2) with 4.
  pose proof (Z.mod_pos_bound imm 4 ltac:(lia)).
  pose proof (Z.div_mod imm 2 ltac:(lia)).
  pose proof (Z.mod_pos_bound imm 2 ltac:(lia)).
  lia.
Qed.

(** C1, the defect: for the immediate [2^30], [safe_regwi] emits the write
    of [2^29] and the shift by two; simulated, the register holds [2^31],
    not [2^30].  (The instruction counts of the claim hold, see
    [safe_regwi_count]; the reconstruction does not.) *)
Theorem C1_safe_regwi_reconstruction_defect :
  emitted init (safe_regwi 0 16 (2 ^ 30) init) =
    [Inst "regwi" [AInt 0; AInt 16; AInt (2 ^ 29); AComment];
     Inst "bitwi" [AInt 0; AInt 16; AInt 16; AStr "<<"; AInt 2]] /\
  reg_after (emitted init (safe_regwi 0 16 (2 ^ 30) init)) 0 16 = Some (2 ^ 31) /\
  2 ^ 31 <> 2 ^ 30.
Proof.
  split; [reflexivity |]. split; [reflexivity |]. discriminate.
Qed.

(** ** [convert_immediate] *)
(** C2, as stated, fails at [2^31]: its magnitude reaches [2^31], yet the
    value is returned, since the guard is [val > 2**31]. *)
Lemma C2_convert_immediate_counterexample :
  2 ^ 31 <= Z.abs (2 ^ 31) /\ convert_immediate (2 ^ 31) = Ok (2 ^ 31).
Proof. split; [vm_compute; discriminate | reflexivity]. Qed.

(** C2, amended: [convert_immediate v] returns [v] for [0 <= v <= 2^31],
    returns [2^31 + v] for [-2^31 <= v < 0], and raises for [v > 2^31]. *)
Theorem C2_convert_immediate_amended (v : Z) :
  (0 <= v <= 2 ^ 31 -> convert_immediate v = Ok v) /\
  (- 2 ^ 31 <= v < 0 -> convert_immediate v = Ok (2 ^ 31 + v)) /\
  (2 ^ 31 < v -> convert_immediate v = Raise RuntimeError).
Proof.
  unfold convert_immediate.
  repeat split; intros H.
  - destruct (Z.ltb_spec (2 ^ 31) v); [lia |].
    destruct (Z.ltb_spec v 0); [lia | reflexivity].
  - destruct (Z.ltb_spec (2 ^ 31) v); [lia |].
    destruct (Z.ltb_spec v 0); [reflexivity | lia].
  - destruct (Z.ltb_spec (2 ^ 31) v); [reflexivity | lia].
Qed.

Lemma C2_convert_immediate_witness :
  convert_immediate 5 = Ok 5 /\
  convert_immediate (-5) = Ok (2 ^ 31 + -5) /\
  convert_immediate (2 ^ 31 + 1) = Raise RuntimeError.
Proof.
  split; [| split].
  - apply (proj1 (C2_convert_immediate_amended 5)). lia.
  - apply (proj1 (proj2 (C2_convert_immediate_amended (-5)))). lia.
  - apply (proj2 (proj2 (C2_convert_immediate_amended (2 ^ 31 + 1)))). lia.
Defined.

(** Below [-2^31] no check applies: the sum is returned, and is negative. *)
Lemma convert_immediate_below_range (v : Z) :
  v < - 2 ^ 31 -> convert_immediate v = Ok (2 ^ 31 + v) /\ 2 ^ 31 + v < 0.
Proof.
  intros H. unfold convert_immediate.
  destruct (Z.ltb_spec (2 ^ 31) v); [lia |].
  destruct (Z.ltb_spec v 0); [split; [reflexivity | lia] | lia].
Qed.

(** ** [align] *)
(** [align] never reads [chs]. *)
Lemma align_ignores_chs chs chs' p : align chs p = align chs' p.
Proof. reflexivity. Qed.

(** On the nine-entry timestamp list, [align] writes the maximum over the
    channels 1 to 8 into every one of them, whatever [chs] is. *)
Lemma align_all_channels chs p t0 t1 t2 t3 t4 t5 t6 t7 t8 :
  dac_ts p = [t0; t1; t2; t3; t4; t5; t6; t7; t8] ->
  align chs p =
    Ok (set_dac_ts
          (t0 :: replicate 8 (fold_left Z.max [t2; t3; t4; t5; t6; t7; t8] t1)) p).
Proof.
  intros H. unfold align, max_dac_ts. rewrite H. reflexivity.
Qed.

(** On the nine-entry list no channel is lowered by [align]. *)
Lemma align_never_lowers chs p p' :
  List.length (dac_ts p) = 9%nat ->
  align chs p = Ok p' ->
  Forall2 Z.le (dac_ts p) (dac_ts p').
Proof.
  intros Hlen H.
  destruct (dac_ts p) as [|t0 [|t1 [|t2 [|t3 [|t4 [|t5 [|t6 [|t7 [|t8 [|? ?]]]]]]]]]] eqn:E;
    try discriminate.
  rewrite (align_all_channels chs p _ _ _ _ _ _ _ _ _ E) in H. injection H as <-.
  simpl. repeat constructor; lia.
Qed.

(** C4, the defect: with the timestamps 5, 3 and 1 on the channels 1, 2
    and 3, [align(chs)] moves every channel from 1 to 8 to 5, whatever
    [chs] is; for [chs = [2, 3]] the claim puts the channels 2 and 3 at
    their own maximum 3 and leaves the channels outside [chs] unchanged. *)
Theorem C4_align_ignores_channel_list (chs : list Z) :
  dac_ts <$> align chs (set_dac_ts [0; 5; 3; 1; 0; 0; 0; 0; 0] init) =
  Ok [0; 5; 5; 5; 5; 5; 5; 5; 5].
Proof.
  rewrite (align_all_channels chs _ 0 5 3 1 0 0 0 0 0) by reflexivity.
  reflexivity.
Qed.

Lemma emit_emit l1 l2 p : emit l2 (emit l1 p) = emit (l1 ++ l2) p.
Proof. unfold emit, set_prog_list. simpl. rewrite app_assoc. reflexivity. Qed.

Lemma emit_nil p : emit [] p = p.
Proof. destruct p. unfold emit, set_prog_list. simpl. rewrite app_nil_r. reflexivity. Qed.

Lemma safe_regwi_emit rp reg imm p :
  safe_regwi rp reg imm p = emit (safe_regwi_code rp reg imm) p.
Proof.
  unfold safe_regwi, safe_regwi_code.
  destruct (imm <? 2 ^ 30); [reflexivity |].
  destruct (imm `mod` 4 =? 0); simpl.
  - unfold bitwi, regwi, append_instruction. apply (emit_emit [_] [_]).
  - unfold mathi, bitwi, regwi, append_instruction.
    change (emit [?c] (emit [?b] (emit [?a] p))) with (emit [c] (emit [b] (emit [a] p))).
    etransitivity; [apply (f_equal (emit _)), (emit_emit [_] [_]) |].
    apply (emit_emit [_; _] [_]).
Qed.

Lemma sreg_regs_of ch :
  1 <= ch <= 7 ->
  sreg ch "freq" = Ok (r_freq (regs_of ch)) /\
  sreg ch "phase" = Ok (r_phase (regs_of ch)) /\
  sreg ch "addr" = Ok (r_addr (regs_of ch)) /\
  sreg ch "gain" = Ok (r_gain (regs_of ch)) /\
  sreg ch "mode" = Ok (r_mode (regs_of ch)) /\
  sreg ch "t" = Ok (r_t (regs_of ch)).
Proof.
  intros H.
  assert (ch = 1 \/ ch = 2 \/ ch = 3 \/ ch = 4 \/ ch = 5 \/ ch = 6 \/ ch = 7) as Hc by lia.
  repeat destruct Hc as [-> | Hc]; try subst ch; repeat split; reflexivity.
Qed.

Lemma regs_of_eta ch :
  PulseRegs (rp (regs_of ch)) (r_freq (regs_of ch)) (r_phase (regs_of ch))
    (r_addr (regs_of ch)) (r_gain (regs_of ch)) (r_mode (regs_of ch)) (r_t (regs_of ch))
  = regs_of ch.
Proof. unfold regs_of. destruct (Z.odd ch); reflexivity. Qed.

Lemma opt_do_emit o f c p :
  (forall v q, f v q = emit (c v) q) -> opt_do o f p = emit (opt_code o c) p.
Proof.
  intros Hf. destruct o; simpl; [apply Hf | symmetry; apply emit_nil].
Qed.

Lemma set_pulse_registers_ok ch freq phase addr gain phrst stdysel mode outsel length t mc p :
  1 <= ch <= 7 ->
  (if not_none length || not_none stdysel || not_none phrst || not_none mode
      || not_none outsel
   then Some <$> get_mode_code phrst stdysel mode outsel length else Ok None) = Ok mc ->
  set_pulse_registers ch freq phase addr gain phrst stdysel mode outsel length t p =
  Ok (regs_of ch, emit (spr_code (regs_of ch) freq phase addr gain t mc) p).
Proof.
  intros Hch Hmc.
  destruct (sreg_regs_of ch Hch) as (E1 & E2 & E3 & E4 & E5 & E6).
  unfold set_pulse_registers. rewrite E1, E2, E3, E4, E5, E6. simpl.
  assert (rp (regs_of ch) = ch_page ch) as Hrp by (unfold regs_of; destruct (Z.odd ch); reflexivity).
  rewrite <- Hrp.
  rewrite (opt_do_emit freq _ (safe_regwi_code (rp (regs_of ch)) (r_freq (regs_of ch))))
    by (intros; apply safe_regwi_emit).
  rewrite (opt_do_emit phase _ (safe_regwi_code (rp (regs_of ch)) (r_phase (regs_of ch))))
    by (intros; apply safe_regwi_emit).
  rewrite (opt_do_emit gain _ (regwi_code (rp (regs_of ch)) (r_gain (regs_of ch))))
    by reflexivity.
  rewrite emit_emit.
  set (tc := match t with Some (TInt tv) => regwi_code (rp (regs_of ch)) (r_t (regs_of ch)) tv | _ => [] end).
  assert (forall q, match t with Some (TInt tv) => regwi (rp (regs_of ch)) (r_t (regs_of ch)) tv q | _ => q end
                    = emit tc q) as Ht.
  { intros q. subst tc. destruct t as [[|tv]|]; try (symmetry; apply emit_nil). reflexivity. }
  rewrite emit_emit, Ht, emit_emit.
  rewrite (opt_do_emit addr _ (regwi_code (rp (regs_of ch)) (r_addr (regs_of ch))))
    by reflexivity.
  rewrite emit_emit.
  destruct (not_none length || not_none stdysel || not_none phrst || not_none mode
            || not_none outsel).
  - destruct (get_mode_code phrst stdysel mode outsel length) as [mcv|e]; simpl in Hmc;
      [| discriminate].
    injection Hmc as <-. simpl.
    change (regwi ?a ?b ?c ?q) with (emit (regwi_code a b c) q).
    rewrite emit_emit, regs_of_eta. unfold spr_code. rewrite <- !app_assoc. reflexivity.
  - injection Hmc as <-. simpl. rewrite regs_of_eta. unfold spr_code. simpl.
    rewrite <- !app_assoc, app_nil_r. reflexivity.
Qed.

(** ** Running the code of the pulse macros *)
Lemma run_app l1 l2 m : run (l1 ++ l2) m = run l1 m ≫= run l2.
Proof.
  revert m. induction l1 as [|i l1 IH]; intros m; simpl; [reflexivity |].
  destruct (step i m); [apply IH | reflexivity].
Qed.

Lemma opt_safe_regwi_run o pg reg m :
  exists m',
    run (opt_code o (safe_regwi_code pg reg)) m = Some m' /\
    played m' = played m /\
    (forall pg' r, (pg', r) <> (pg, reg) -> regs m' pg' r = regs m pg' r) /\
    regs m' pg reg = opt_value o (regs m pg reg).
Proof.
  destruct o as [imm|]; simpl.
  - apply safe_regwi_run.
  - exists m. auto.
Qed.

(** Any call of [set_pulse_registers] runs to completion and plays nothing. *)
Lemma spr_code_plays_nothing ch freq phase addr gain t mc m :
  exists m',
    run (spr_code (regs_of ch) freq phase addr gain t mc) m = Some m' /\
    played m' = played m.
Proof.
  unfold spr_code.
  destruct (opt_safe_regwi_run freq (rp (regs_of ch)) (r_freq (regs_of ch)) m)
    as (m1 & R1 & P1 & _).
  destruct (opt_safe_regwi_run phase (rp (regs_of ch)) (r_phase (regs_of ch)) m1)
    as (m2 & R2 & P2 & _).
  rewrite run_app, R1. simpl. rewrite run_app, R2. simpl.
  destruct gain, t as [[|tv]|], addr, mc; simpl; eexists; (split; [reflexivity |]);
    simpl; congruence.
Qed.

(** A call that sets address, gain, time and mode but no frequency: what
    the six registers hold afterwards. *)
Lemma spr_code_play_regs ch phase a g tv mc m :
  let r := regs_of ch in
  exists m',
    run (spr_code r None phase (Some a) (Some g) (Some (TInt tv)) (Some mc)) m = Some m' /\
    played m' = played m /\
    regs m' (rp r) (r_freq r) = regs m (rp r) (r_freq r) /\
    regs m' (rp r) (r_phase r) = opt_value phase (regs m (rp r) (r_phase r)) /\
    regs m' (rp r) (r_addr r) = a /\
    regs m' (rp r) (r_gain r) = g /\
    regs m' (rp r) (r_mode r) = mc /\
    regs m' (rp r) (r_t r) = tv.
Proof.
  intros r. unfold spr_code. simpl opt_code. simpl app.
  destruct (opt_safe_regwi_run phase (rp r) (r_phase r) m) as (m1 & R1 & P1 & F1 & V1).
  rewrite run_app, R1. simpl.
  eexists. split; [reflexivity |]. simpl.
  split; [exact P1 |].
  subst r. unfold regs_of in *.
  destruct (Z.odd ch); simpl in *; unfold rf_set; rewrite ?Z.eqb_refl; simpl;
    (split; [apply F1; intros [=] |]); (split; [exact V1 |]); auto.
Qed.

Lemma set_code_run ch r m :
  run (set_code ch r) m =
  Some (Machine (regs m)
          (played m ++
           [Play ch (regs m (rp r) (r_freq r)) (regs m (rp r) (r_phase r))
                 (regs m (rp r) (r_addr r)) (regs m (rp r) (r_gain r))
                 (regs m (rp r) (r_mode r)) (regs m (rp r) (r_t r))])).
Proof. reflexivity. Qed.

(** ** [flat_top_pulse] *)
Lemma py_index_ok (len i : Z) : 0 <= i < len -> py_index len i = Some (Z.to_nat i).
Proof.
  intros H. unfold py_index.
  destruct (Z.leb_spec 0 i); [| lia]. destruct (Z.ltb_spec i len); [| lia]. reflexivity.
Qed.

Lemma list_get_ok {A : Type} (l : list A) (i : Z) (v : A) :
  0 <= i -> l !! Z.to_nat i = Some v -> list_get l i = Ok v.
Proof.
  intros Hi Hl. unfold list_get.
  rewrite py_index_ok, Hl; [reflexivity |].
  apply lookup_lt_Some in Hl. lia.
Qed.

Lemma list_set_ok {A : Type} (l : list A) (i : Z) (v x : A) :
  0 <= i -> l !! Z.to_nat i = Some x -> list_set l i v = Ok (<[Z.to_nat i := v]> l).
Proof.
  intros Hi Hl. unfold list_set.
  rewrite py_index_ok; [reflexivity |].
  apply lookup_lt_Some in Hl. lia.
Qed.

Lemma get_pinfo_ok p ch nm c pi :
  channels p !! ch = Some c -> pulses c !! nm = Some pi -> get_pinfo p ch nm = Ok pi.
Proof. intros Hc Hpi. unfold get_pinfo, chan, dict_get. rewrite Hc. simpl. rewrite Hpi. reflexivity. Qed.

Lemma set_last_pulse_ok p ch nm c :
  channels p !! ch = Some c ->
  set_last_pulse ch nm p =
  Ok (set_channels (<[ch := Channel (ch_addr c) (pulses c) (Some nm)]> (channels p)) p).
Proof. intros Hc. unfold set_last_pulse, chan. rewrite Hc. reflexivity. Qed.

Lemma set_pinfo_gain_ok p ch nm c pi g :
  channels p !! ch = Some c -> pulses c !! nm = Some pi ->
  set_pinfo_gain ch nm g p =
  Ok (set_channels
        (<[ch := Channel (ch_addr c)
                   (<[nm := Pinfo (idata pi) (qdata pi) (pi_addr pi) (pi_length pi)
                              (style pi) (Some g)]> (pulses c))
                   (last_pulse c)]> (channels p)) p).
Proof.
  intros Hc Hpi. unfold set_pinfo_gain, chan, dict_get. rewrite Hc. simpl. rewrite Hpi.
  reflexivity.
Qed.

Lemma ramp_length_of_ok pi d :
  idata pi = Some d ->
  ramp_length_of pi = Ok ((Z.of_nat (List.length d) `div` 16) `div` 2).
Proof. intros H. unfold ramp_length_of. rewrite H. reflexivity. Qed.

Lemma play_set_emit ch r q : play_set ch r q = emit (set_code ch r) q.
Proof. reflexivity. Qed.

Lemma emitted_emit l p q :
  prog_list q = prog_list p -> emitted p (emit l q) = l.
Proof. intros H. unfold emitted, emit. simpl. rewrite H. apply drop_app_length. Qed.

(** For a ramp of [2R] clock ticks registered on channel [ch] with the
    stored length [L] and the stored address [a], [flat_top_pulse] with the
    requested gain [g] succeeds and plays exactly three waves: the ramp-up
    at [a] with output selector 0 (product), [R] ticks and gain [g]; the
    flat segment with output selector 1 (dds), [L] ticks and gain
    [g // 2]; the ramp-down at [a + R], with selector 0 and gain [g], at
    time [start + R + L].  The channel timestamp becomes [start + L + 2R],
    where [start] is the old timestamp under ['auto']. *)
Lemma flat_top_three_plays ch nm c pi d R L g ts0 tv
    freq phase phrst stdysel mode outsel length p :
  1 <= ch <= 7 ->
  channels p !! ch = Some c ->
  pulses c !! nm = Some pi ->
  idata pi = Some d ->
  Z.of_nat (List.length d) `div` 16 = 2 * R ->
  pi_length pi = Some L ->
  dac_ts p !! Z.to_nat ch = Some ts0 ->
  exists p',
    flat_top_pulse ch (Some nm) freq phase (Some g) phrst stdysel mode outsel length
      (Some tv) true p = Ok p' /\
    flat_top_plays ch (pi_addr pi) g R L
      (match tv with TAuto => ts0 | TInt t => t end) p p'.
Proof.
  intros Hch Hc Hpi Hd HR HL Hts.
  set (start := match tv with TAuto => ts0 | TInt t => t end).
  assert (Hrl : (Z.of_nat (List.length d) `div` 16) `div` 2 = R).
  { rewrite HR. rewrite Z.mul_comm. apply Z.div_mul. lia. }
  unfold flat_top_pulse.
  rewrite (get_pinfo_ok p ch nm c pi Hc Hpi). ok_step.
  rewrite (set_last_pulse_ok p ch nm c Hc). ok_step.
  rewrite (ramp_length_of_ok pi d Hd). repeat ok_step.
  rewrite Hrl.
  set (p1 := set_channels _ p).
  assert (Hc1 : channels p1 !! ch = Some (Channel (ch_addr c) (pulses c) (Some nm))).
  { subst p1. simpl. apply lookup_insert_eq. }
  rewrite (set_pinfo_gain_ok p1 ch nm _ pi g Hc1 Hpi). ok_step. simpl last_pulse. simpl ch_addr. simpl pulses.
  set (pi' := Pinfo _ _ _ _ _ (Some g)).
  set (p2 := set_channels _ p1).
  assert (Hc2 : channels p2 !! ch =
                Some (Channel (ch_addr c) (<[nm := pi']> (pulses c)) (Some nm))).
  { subst p2. simpl. apply lookup_insert_eq. }
  erewrite (set_pulse_registers_ok ch freq phase _ _ phrst (Some 1) mode outsel (Some R))
    by (first [exact Hch | simpl; reflexivity]).
  ok_step.
  set (code0 := spr_code _ freq phase _ _ _ _).
  assert (Hstart : match tv with
                   | TAuto => list_get (dac_ts (emit code0 p2)) ch
                   | TInt tv0 => Ok tv0
                   end = Ok start).
  { subst start. destruct tv; [| reflexivity]. apply list_get_ok; [lia | exact Hts]. }
  rewrite Hstart. repeat ok_step.
  rewrite (get_pinfo_ok (emit code0 p2) ch nm _ pi' Hc2) by apply lookup_insert_eq.
  ok_step.
  rewrite (ramp_length_of_ok pi' d Hd), Hrl. ok_step.
  simpl pi_gain. simpl from_option. ok_step. simpl pi_addr. simpl pi_length.
  erewrite (set_pulse_registers_ok ch None phase _ _ None None None (Some 0) (Some R))
    by (first [exact Hch | simpl; reflexivity]).
  ok_step.
  rewrite HL.
  erewrite (set_pulse_registers_ok ch None phase _ _ None None None (Some 1) (Some L))
    by (first [exact Hch | simpl; reflexivity]).
  ok_step. simpl from_option. ok_step.
  erewrite (set_pulse_registers_ok ch None phase _ _ None None None (Some 0) (Some R))
    by (first [exact Hch | simpl; reflexivity]).
  ok_step.
  rewrite !play_set_emit, !emit_emit.
  set (code := code0 ++ _).
  erewrite (list_set_ok (dac_ts (emit code p2)) ch _ ts0) by (first [lia | exact Hts]).
  ok_step.
  eexists. split; [reflexivity |].
  exists (Z.lor (Z.shiftl (0 * 16 + 1 * 8 + 0 * 4 + 0) 16) R),
         (Z.lor (Z.shiftl (0 * 16 + 1 * 8 + 0 * 4 + 1) 16) L).
  split; [reflexivity |]. split; [reflexivity |]. split; [| reflexivity].
  intros m.
  unfold emitted. simpl prog_list. rewrite drop_app_length.
  subst code code0. rewrite <- ?app_assoc.
  set (r := regs_of ch).
  destruct (spr_code_plays_nothing ch freq phase (Some (pi_addr pi `div` 16)) (Some g)
              (Some tv)
              (Some (Z.lor (Z.shiftl (default 0 phrst * 16 + 1 * 8 + default 0 mode * 4
                                      + default 0 outsel) 16) R)) m)
    as (m0 & R0 & P0).
  fold r in R0. rewrite run_app, R0. simpl mbind.
  destruct (spr_code_play_regs ch phase (pi_addr pi) g start
              (Z.lor (Z.shiftl (0 * 16 + 1 * 8 + 0 * 4 + 0) 16) R) m0)
    as (m1 & R1 & P1 & F1 & H1 & A1 & G1 & M1 & T1).
  fold r in R1, F1, H1, A1, G1, M1, T1.
  rewrite run_app, R1. simpl mbind.
  set (m1' := Machine (regs m1) _).
  destruct (spr_code_play_regs ch phase (pi_addr pi) (g `div` 2) start
              (Z.lor (Z.shiftl (0 * 16 + 1 * 8 + 0 * 4 + 1) 16) L) m1')
    as (m2 & R2 & P2 & F2 & H2 & A2 & G2 & M2 & T2).
  fold r in R2, F2, H2, A2, G2, M2, T2.
  rewrite run_app, R2. simpl mbind.
  set (m2' := Machine (regs m2) _).
  destruct (spr_code_play_regs ch phase (pi_addr pi + R) g (start + R + L)
              (Z.lor (Z.shiftl (0 * 16 + 1 * 8 + 0 * 4 + 0) 16) R) m2')
    as (m3 & R3 & P3 & F3 & H3 & A3 & G3 & M3 & T3).
  fold r in R3, F3, H3, A3, G3, M3, T3.
  rewrite run_app, R3. simpl mbind.
  eexists. exists (regs m0 (rp r) (r_freq r)),
                  (opt_value phase (regs m0 (rp r) (r_phase r))).
  split; [reflexivity |]. simpl played.
  rewrite P3. subst m2'. simpl played. rewrite P2. subst m1'. simpl played.
  rewrite P1, P0, <- !app_assoc. simpl app.
  rewrite A3, G3, M3, T3, F3, H3. simpl regs.
  rewrite A2, G2, M2, T2, F2, H2. simpl regs.
  rewrite A1, G1, M1, T1, F1, H1.
  destruct phase; reflexivity.
Qed.

(** The output selector and the length can be read back from the mode
    code of a play, for a length that fits its sixteen bits. *)
Lemma get_mode_code_fields outsel len mc :
  0 <= outsel <= 3 -> 0 <= len < 2 ^ 16 ->
  get_mode_code None None None (Some outsel) (Some len) = Ok mc ->
  mode_outsel mc = outsel /\ mode_length mc = len.
Proof.
  intros Ho Hl H. unfold get_mode_code in H. simpl in H. injection H as <-.
  unfold mode_outsel, mode_length.
  replace (0 * 16 + 1 * 8 + 0 * 4 + outsel) with (8 + outsel) by lia.
  split.
  - rewrite Z.shiftr_lor, Z.shiftr_shiftl_l, Z.sub_diag, Z.shiftl_0_r by lia.
    rewrite (Z.shiftr_div_pow2 len 16), (Z.div_small len (2 ^ 16)), Z.lor_0_r by lia.
    assert (outsel = 0 \/ outsel = 1 \/ outsel = 2 \/ outsel = 3) as Hc by lia.
    destruct Hc as [-> | [-> | [-> | ->]]]; reflexivity.
  - change (2 ^ 16 - 1) with (Z.ones 16).
    rewrite Z.land_lor_distr_l, !Z.land_ones by lia.
    rewrite Z.shiftl_mul_pow2, Z.mod_mul, Z.lor_0_l by lia.
    apply Z.mod_small. lia.
Qed.

Lemma ramp_program_entry :
  (p ← ramp_program; get_pinfo p 1 "ramp") =
  Ok (Pinfo (Some (replicate 64 0)) (Some (replicate 64 0)) 0 (Some 4) "flat_top" None).
Proof. reflexivity. Qed.

(** With the requested gain 3 the flat segment is played with gain 1, the
    floor of one half of 3. *)
Example flat_top_odd_gain :
  (p ← ramp_program;
   p' ← flat_top_pulse 1 (Some "ramp") None None (Some 3) None None None None None
          (Some TAuto) true p;
   Ok (gains_played (emitted p p'))) = Ok (Some [3; 1; 3]) /\
  2 * 1 <> 3.
Proof. split; [reflexivity | discriminate]. Qed.

Example flat_top_three_plays_example :
  exists p',
    flat_top_pulse 1 (Some "ramp") None None (Some 1000) None None None None None
      (Some TAuto) true ramp_state = Ok p' /\
    flat_top_plays 1 0 1000 2 4 0 ramp_state p'.
Proof.
  apply (flat_top_three_plays 1 "ramp"
           (Channel 64
              {["ramp" := Pinfo (Some (replicate 64 0)) (Some (replicate 64 0)) 0 (Some 4)
                            "flat_top" None]} None)
           (Pinfo (Some (replicate 64 0)) (Some (replicate 64 0)) 0 (Some 4) "flat_top" None)
           (replicate 64 0) 2 4 1000 0 TAuto);
    first [lia | reflexivity].
Qed.

(** C8, the defect.  A ramp of 64 samples ([R = 2] clock ticks per half)
    is registered with [add_pulse(1, 'ramp', 'flat_top', idata, length=10)]
    and played from time 0 with gain 1000.  The flat length 10 is not
    stored: the library holds [len(idata)//16 = 4], so the ramp-down is
    scheduled at 6 and the timestamp becomes 8, where the flat duration 10
    gives [0 + 2 + 10 = 12] and [10 + 2*2 = 14].  And the plays address the
    envelope in samples while the first register write (as [arb_pulse])
    uses memory words: for the second ramp, stored at sample 64, that is at
    word 4, the three plays are at 64, 64 and 66, not at the two halves 4
    and 6 of the envelope. *)
Theorem C8_flat_top_defect :
  (p ← ramp_program;
   pi ← get_pinfo p 1 "ramp";
   p' ← flat_top_pulse 1 (Some "ramp") None None (Some 1000) None None None None None
          (Some TAuto) true p;
   Ok (pi_length pi, plays_at (emitted p p'), dac_ts p' !! 1%nat))
  = Ok (Some 4, Some [(0, 1000, 0); (0, 500, 0); (2, 1000, 6)], Some 8) /\
  (p ← second_ramp_program;
   pi ← get_pinfo p 1 "ramp2";
   p' ← flat_top_pulse 1 (Some "ramp2") None None (Some 1000) None None None None None
          (Some TAuto) true p;
   Ok (pi_addr pi `div` 16, plays_at (emitted p p')))
  = Ok (4, Some [(64, 1000, 0); (64, 500, 0); (66, 1000, 6)]).
Proof.
  split; [vm_compute; reflexivity |].
  vm_compute. reflexivity.
Qed.

(** ** [const_pulse] *)
(** With automatic timing, [const_pulse] advances the channel timestamp by
    the integer length stored for the pulse, and no other timestamp. *)
Lemma const_pulse_auto_timestamp ch nm c pi len ts0
    freq phase gain phrst stdysel mode outsel length p :
  1 <= ch <= 7 ->
  channels p !! ch = Some c ->
  pulses c !! nm = Some pi ->
  pi_length pi = Some len ->
  dac_ts p !! Z.to_nat ch = Some ts0 ->
  exists p',
    const_pulse ch (Some nm) freq phase gain phrst stdysel mode outsel length
      (Some TAuto) true p = Ok p' /\
    dac_ts p' = <[Z.to_nat ch := ts0 + len]> (dac_ts p).
Proof.
  intros Hch Hc Hpi Hlen Hts.
  unfold const_pulse.
  rewrite (get_pinfo_ok p ch nm c pi Hc Hpi). ok_step.
  rewrite (set_last_pulse_ok p ch nm c Hc). repeat ok_step.
  rewrite Hlen. simpl not_none. cbv iota.
  erewrite (set_pulse_registers_ok ch freq phase None gain phrst stdysel mode (Some 1)
              (Some len)) by (first [exact Hch | simpl; reflexivity]).
  ok_step.
  rewrite (list_get_ok _ ch ts0) by (first [lia | exact Hts]). ok_step.
  simpl from_option. ok_step.
  erewrite (list_set_ok _ ch _ ts0) by (first [lia | exact Hts]).
  repeat ok_step.
  eexists. split; reflexivity.
Qed.

End QickAsmFacts.

(** * Properties of [asm_v2.py] *)

Section AsmV2Facts.
Import AsmV2 AsmV2Spec.




Lemma to_bytes_fits v n : signed_fits n v = true -> to_bytes v n = Ok (le_bytes n v).
Proof. intros H. unfold to_bytes. rewrite H. reflexivity. Qed.






(** The bytes of the example wave, and the eight words it compiles to. *)
Example example_wave_bytes :
  paddedbytes example_wave =
  Ok [100; 0; 0; 0;  50; 0; 0; 0;  3; 0; 0;  0;  232; 3; 0; 0;  200; 0; 0; 0;  5; 0;
      0; 0; 0; 0; 0; 0; 0; 0; 0; 0] /\
  compile example_wave = Ok [100; 50; 3; 1000; 200; 5; 0; 0].
Proof. split; reflexivity. Qed.

(** A field outside its signed width is refused by [to_bytes]. *)
Example wave_field_overflow :
  rawbytes (MkWave (2 ^ 31) 0 0 0 0 0) = Raise OverflowError.
Proof. reflexivity. Qed.

Lemma add_instruction_spec i inc p :
  prog_list (add_instruction i inc p) = prog_list p ++ [stamp (p_addr p) (line p) i] /\
  p_addr (add_instruction i inc p) = p_addr p + inc /\
  line (add_instruction i inc p) = line p + 1 /\
  labels (add_instruction i inc p) = labels p.
Proof. repeat split. Qed.

Lemma stamp_P_ADDR a ln i : stamp a ln i !! "P_ADDR" = Some (VInt a).
Proof.
  unfold stamp. rewrite lookup_insert_ne by discriminate. apply lookup_insert_eq.
Qed.

(** [add_label] binds the name to the instruction count plus one. *)
Lemma add_label_binds label p :
  labels (add_label label p) !! label =
  Some ("&" +:+ py_str (Z.of_nat (List.length (prog_list p)) + 1)).
Proof. unfold add_label. simpl. apply lookup_insert_eq. Qed.

(** The label is the address of the next instruction exactly when the
    program address still equals the instruction count plus one. *)
Lemma add_label_next_address label p :
  labels (add_label label p) !! label = Some ("&" +:+ py_str (p_addr p)) <->
  p_addr p = Z.of_nat (List.length (prog_list p)) + 1.
Proof.
  rewrite add_label_binds. split.
  - intros H. injection H as H. unfold py_str in H.
    apply pretty_Z_inj in H. lia.
  - intros ->. reflexivity.
Qed.

(** [wait] consumes two address slots for its single list entry. *)
Lemma wait_address time p :
  p_addr (wait time p) = p_addr p + 2 /\
  List.length (prog_list (wait time p)) = S (List.length (prog_list p)).
Proof.
  split; [reflexivity |]. unfold wait. simpl. rewrite length_app. simpl. lia.
Qed.

(** C5, the defect: in a fresh program, after [wait(10)] the label placed
    by [add_label] is ["&2"], while the next instruction appended receives
    the program address 3. *)
Theorem C5_label_after_wait_defect :
  (p ← init cfg0;
   let p := add_label "L" (wait 10 p) in
   let p' := end_ p in
   Ok (labels p !! "L", last (prog_list p') ≫= (.!! "P_ADDR"))) =
  Ok (Some "&2", Some (VInt 3)).
Proof. vm_compute. reflexivity. Qed.

(** ** Register allocation *)
Lemma filter_above_lt (a : Z) (regs : list Z) :
  a ∈ regs ->
  (List.length (filter (fun x => (a + 1 <= x)%Z) regs) <
   List.length (filter (fun x => (a <= x)%Z) regs))%nat.
Proof.
  induction regs as [|x r IH]; intros Hin.
  - inversion Hin.
  - assert (Hle : (List.length (filter (fun y => (a + 1 <= y)%Z) r) <=
                   List.length (filter (fun y => (a <= y)%Z) r))%nat).
    { clear. induction r as [|y r IH]; [reflexivity |].
      rewrite !filter_cons. repeat case_decide; simpl; lia. }
    rewrite !filter_cons.
    destruct (decide (x = a)) as [-> | Hne].
    + rewrite decide_False by lia. rewrite decide_True by lia. simpl. lia.
    + apply elem_of_cons in Hin as [Heq | Hin]; [congruence |].
      specialize (IH Hin). repeat case_decide; simpl; lia.
Qed.

(** The scan for a free register stops on an unused address: the fuel
    [len(_user_regs)] is enough for the source's [while] loop. *)
Lemma scan_free_unused fuel regs a :
  (List.length (filter (fun x => (a <= x)%Z) regs) <= fuel)%nat ->
  scan_free fuel regs a ∉ regs.
Proof.
  revert a. induction fuel as [|n IH]; intros a Hlen; simpl.
  - intros Hin.
    assert (a ∈ filter (fun x => (a <= x)%Z) regs) as Hf by (apply list_elem_of_filter; split; [lia | exact Hin]).
    destruct (filter (fun x => (a <= x)%Z) regs); [inversion Hf | simpl in Hlen; lia].
  - case_bool_decide as Hin; [| exact Hin].
    apply IH. pose proof (filter_above_lt a regs Hin). lia.
Qed.

Lemma scan_free_first regs : scan_free (List.length regs) regs 0 ∉ regs.
Proof. apply scan_free_unused, length_filter. Qed.

(** What a successful [new_reg] with a given name changes. *)
Lemma new_reg_named a nm iv rt g r p reg p0 :
  new_reg a (Some nm) iv rt g r p = Ok (reg, p0) ->
  user_reg_dict p0 = <[nm := reg]> (user_reg_dict p) /\
  prog_list p0 = prog_list p /\ labels p0 = labels p /\
  p_addr p0 = p_addr p /\ line p0 = line p /\
  loop_list p0 = loop_list p /\ loop_stack p0 = loop_stack p /\
  gen_ts p0 = gen_ts p /\ ro_ts p0 = ro_ts p /\
  addr reg ∉ user_regs p.
Proof.
  unfold new_reg. intros H.
  destruct a as [a|].
  - destruct ((a <? 0) || (dreg_qty (cfg p) <=? a)); [discriminate |].
    case_bool_decide as Hin; [discriminate |]. simpl in H.
    case_bool_decide; [discriminate |].
    injection H as <- <-. simpl. repeat split; exact Hin.
  - destruct (dreg_qty (cfg p) <=? scan_free (List.length (user_regs p)) (user_regs p) 0);
      [discriminate |].
    simpl in H. case_bool_decide; [discriminate |].
    injection H as <- <-. simpl. repeat split; apply scan_free_first.
Qed.

(** [open_loop] writes the counter, pushes the loop name, records its
    register and places the label of the upper-cased name on the
    instruction that follows. *)
Lemma open_loop_spec n nm a p p1 :
  open_loop n nm a p = Ok p1 ->
  exists reg,
    last (loop_stack p1) = Some (loop_name nm p) /\
    user_reg_dict p1 !! loop_name nm p = Some reg /\
    prog_list p1 = prog_list p ++
      [stamp (p_addr p) (line p)
         (mk_inst [("CMD", "REG_WR"); ("DST", "r" +:+ py_str (addr reg)); ("SRC", "imm");
                   ("LIT", py_str n); ("UF", "0")])] /\
    labels p1 !! upper (loop_name nm p) =
      Some ("&" +:+ py_str (Z.of_nat (List.length (prog_list p1)) + 1)).
Proof.
  unfold open_loop. fold (loop_name nm p). intros H.
  destruct (new_reg a (Some (loop_name nm p)) None None None None p) as [[reg p0]|e] eqn:Hn;
    [| discriminate].
  simpl in H. injection H as <-.
  apply new_reg_named in Hn as (Hd & Hl & Hlab & Ha & Hln & Hll & Hls & _).
  exists reg. simpl.
  rewrite Hls, Hd, Hl, Ha, Hln.
  split; [apply last_snoc |].
  split; [apply lookup_insert_eq |].
  split; [reflexivity |].
  apply lookup_insert_eq.
Qed.

Lemma new_reg_labels a nm iv rt g r p reg p0 :
  new_reg a nm iv rt g r p = Ok (reg, p0) -> labels p0 = labels p.
Proof.
  unfold new_reg. intros H. inv_bind H.
  destruct (bool_decide _); [discriminate |]. injection H as _ <-. reflexivity.
Qed.

(** Opening a loop whose upper-cased name is not [L] leaves the label [L]
    as it was. *)
Lemma open_loop_other_label n nm a p p1 L :
  open_loop n nm a p = Ok p1 -> upper (loop_name nm p) <> L ->
  labels p1 !! L = labels p !! L.
Proof.
  unfold open_loop. intros H Hne. inv_bind H. destruct x as [reg p0].
  injection H as <-. apply new_reg_labels in E.
  unfold add_label. cbn [set_labels labels]. rewrite lookup_insert_ne by exact Hne.
  cbn [add_instruction set_code set_loops labels]. rewrite E. reflexivity.
Qed.

Lemma close_loop_labels p p' : close_loop p = Ok p' -> labels p' = labels p.
Proof.
  unfold close_loop. intros H. inv_bind H. inv_bind H. injection H as <-. reflexivity.
Qed.

(** C9, as stated, fails in two ways.  On an empty loop stack
    [close_loop] raises the [IndexError] of [list.pop]; the code defines
    and raises no validation error.  And the label of the jump need not be
    the one placed by the matching [open_loop]: with the loops [a] and
    [A], whose names have the same upper-case form, the inner [open_loop]
    places the label [A] again (at [&3], after [&2]), and the jump that
    closes the outer loop [a] names that label. *)
Lemma C9_close_loop_counterexample :
  close_loop empty_program = Raise IndexError /\
  (p ← init cfg0;
   p1 ← open_loop 2 (Some "a") None p;
   p2 ← open_loop 3 (Some "A") None p1;
   p3 ← close_loop p2;
   p4 ← close_loop p3;
   Ok (labels p1 !! "A", labels p4 !! "A", last (prog_list p4) ≫= (.!! "LABEL")))
  = Ok (Some "&2", Some "&3", Some (VStr "A")).
Proof. split; [reflexivity |]. vm_compute. reflexivity. Qed.

(** C9, amended: when the loop [nm] (an ASCII name), counted in [reg], is
    on top of the loop stack, [close_loop] pops it and appends exactly two
    instructions: the decrement [r-#1] of the counter with the
    update-flags marker [UF] set to 1, then the jump on non-zero to the
    label [upper nm].  On an empty loop stack [close_loop] raises
    [IndexError].  [open_loop] leaves its loop on top of the stack, records
    its counter register and binds the label [upper nm] to the line after
    its own instruction; that binding is kept by [close_loop] and by every
    [open_loop] of a loop whose upper-cased name is another one, and in
    every later state where the loop is on top of the stack and the
    binding stands, the jump of [close_loop] names the label as the
    matching [open_loop] has bound it. *)
Theorem C9_close_loop_amended (p : program) :
  (forall nm reg,
     ascii_only nm = true ->
     last (loop_stack p) = Some nm ->
     user_reg_dict p !! nm = Some reg ->
     closes_loop p nm reg) /\
  (loop_stack p = [] -> close_loop p = Raise IndexError) /\
  (forall p', close_loop p = Ok p' -> labels p' = labels p) /\
  (forall n nm a p1,
     ascii_only (loop_name nm p) = true ->
     open_loop n nm a p = Ok p1 ->
     (exists reg,
        last (loop_stack p1) = Some (loop_name nm p) /\
        user_reg_dict p1 !! loop_name nm p = Some reg /\
        labels p1 !! upper (loop_name nm p) =
          Some ("&" +:+ py_str (Z.of_nat (List.length (prog_list p1)) + 1))) /\
     (forall L, upper (loop_name nm p) <> L -> labels p1 !! L = labels p !! L) /\
     (forall q reg,
        last (loop_stack q) = Some (loop_name nm p) ->
        user_reg_dict q !! loop_name nm p = Some reg ->
        labels q !! upper (loop_name nm p) = labels p1 !! upper (loop_name nm p) ->
        exists q',
          close_loop q = Ok q' /\
          last (prog_list q') ≫= (.!! "LABEL") = Some (VStr (upper (loop_name nm p))) /\
          labels q' !! upper (loop_name nm p) =
            Some ("&" +:+ py_str (Z.of_nat (List.length (prog_list p1)) + 1)))).
Proof.
  split; [| split; [| split]].
  - intros nm reg _ Hlast Hreg.
    unfold closes_loop, close_loop. rewrite Hlast. simpl.
    unfold dict_get. rewrite Hreg. simpl.
    eexists. split; [reflexivity |]. simpl.
    split; [rewrite <- app_assoc; reflexivity |].
    split; [reflexivity |].
    repeat split; vm_compute; reflexivity.
  - intros Hnil. unfold close_loop. rewrite Hnil. reflexivity.
  - intros p' H. apply close_loop_labels. exact H.
  - intros n nm a p1 _ H.
    destruct (open_loop_spec n nm a p p1 H) as (reg & Hlast & Hreg & _ & Hlab).
    split; [exists reg; auto |].
    split; [intros L HL; apply (open_loop_other_label n nm a p p1 L H HL) |].
    intros q reg' Hq Hr Hl.
    unfold close_loop. rewrite Hq. simpl. unfold dict_get.
    change (user_reg_dict (set_loops (loop_list q) (removelast (loop_stack q)) q))
      with (user_reg_dict q).
    rewrite Hr. simpl.
    eexists. split; [reflexivity |]. split.
    + cbn [add_instruction set_code prog_list]. rewrite last_snoc. cbn [mbind option_bind].
      rewrite !lookup_insert_ne by discriminate. vm_compute. reflexivity.
    + cbn [add_instruction set_code set_loops labels]. rewrite Hl. exact Hlab.
Qed.

(** Opening a loop and closing it at once: the pair of [close_loop] jumps
    to the label that [open_loop] has just placed. *)
Lemma open_close_loop n nm a p p1 :
  open_loop n nm a p = Ok p1 ->
  exists reg p2,
    close_loop p1 = Ok p2 /\
    prog_list p2 = prog_list p1 ++
      [stamp (p_addr p1) (line p1) (dec_inst reg);
       stamp (p_addr p1 + 1) (line p1 + 1) (jump_inst (loop_name nm p))] /\
    jump_inst (loop_name nm p) !! "LABEL" = Some (VStr (upper (loop_name nm p))) /\
    is_Some (labels p2 !! upper (loop_name nm p)).
Proof.
  intros H. destruct (open_loop_spec n nm a p p1 H) as (reg & Hlast & Hreg & Hpl & Hlab).
  exists reg.
  unfold close_loop. rewrite Hlast. simpl. unfold dict_get. rewrite Hreg. simpl.
  eexists. split; [reflexivity |]. simpl.
  split; [rewrite <- app_assoc; reflexivity |].
  split; [vm_compute; reflexivity |].
  rewrite Hlab. eauto.
Qed.

Lemma C9_close_loop_witness :
  closes_loop loop_state "loop_0" (MkRegister 0 0 None None None None "loop_0") /\
  close_loop empty_program = Raise IndexError /\
  (exists reg,
     last (loop_stack loop_state) = Some (loop_name None fresh_program) /\
     user_reg_dict loop_state !! loop_name None fresh_program = Some reg /\
     labels loop_state !! upper (loop_name None fresh_program) =
       Some ("&" +:+ py_str (Z.of_nat (List.length (prog_list loop_state)) + 1))).
Proof.
  split; [| split].
  - apply (proj1 (C9_close_loop_amended loop_state)); reflexivity.
  - apply (proj1 (proj2 (C9_close_loop_amended empty_program))); reflexivity.
  - apply (proj1 (proj2 (proj2 (proj2 (C9_close_loop_amended fresh_program)))
                    100 None None loop_state eq_refl eq_refl)).
Defined.

(** [open_loop(100)] then [close_loop()] in a fresh program: the label
    [LOOP_0] is bound to address 2, and the decrement and the jump are the
    instructions at addresses 2 and 3. *)
Example open_close_fresh :
  (p ← init cfg0; p ← open_loop 100 None None p; p ← close_loop p;
   Ok (labels p !! "LOOP_0", (fun i => (i !! "CMD", i !! "P_ADDR", i !! "LABEL")) <$> prog_list p))
  = Ok (Some "&2",
        [(Some (VStr "REG_WR"), Some (VInt 1), None);
         (Some (VStr "REG_WR"), Some (VInt 2), None);
         (Some (VStr "JUMP"), Some (VInt 3), Some (VStr "LOOP_0"))]).
Proof. vm_compute. reflexivity. Qed.

(** ** The wave table *)
Lemma params2wave_range wp w : params2wave wp = Ok w -> wave_ok w.
Proof.
  unfold params2wave. intros H.
  inv_bind H. inv_bind H. inv_bind H. inv_bind H.
  destruct (Z.leb_spec (2 ^ 16) x2); [discriminate |].
  destruct (Z.ltb_spec x2 3); [discriminate |]. simpl in H.
  inv_bind H. injection H as <-. unfold wave_ok. simpl. lia.
Qed.

(** [params2wave] refuses a length register below 3 or from [2^16] on. *)
Lemma params2wave_rejects wp l :
  wp_lenreg wp = Some l -> l < 3 \/ 2 ^ 16 <= l -> is_ok (params2wave wp) = false.
Proof.
  intros Hl Hr. unfold params2wave. rewrite Hl.
  destruct (wp_freqreg wp); [| reflexivity].
  destruct (wp_phasereg wp); [| reflexivity].
  destruct (wp_gainreg wp); [| reflexivity]. simpl.
  destruct (Z.leb_spec (2 ^ 16) l); [reflexivity |].
  destruct (Z.ltb_spec l 3); [reflexivity | lia].
Qed.

Lemma params2pulse_waves B ch gcfg envs params pl :
  params2pulse B ch gcfg envs params = Ok pl -> Forall wave_ok (waves pl).
Proof.
  unfold params2pulse. intros H.
  do 8 inv_bind H.
  destruct (style_is x6 "const").
  - inv_bind H. apply params2wave_range in E7.
    do 2 inv_bind H. injection H as <-. simpl. auto.
  - destruct (style_is x6 "arb").
    + inv_bind H. destruct x7 as [el ea]. inv_bind H.
      apply params2wave_range in E8. injection H as <-. simpl. auto.
    + injection H as <-. constructor.
Qed.

Lemma od_insert_Forall {V : Type} (P : V -> Prop) k v (l : list (string * V)) :
  P v -> Forall (fun e => P e.2) l -> Forall (fun e => P e.2) (od_insert k v l).
Proof.
  intros Hv Hl. induction Hl as [|[k' v'] r Hx Hr IH]; simpl.
  - constructor; [exact Hv | constructor].
  - destruct (String.eqb k' k); constructor; auto.
Qed.

Lemma add_wave_ok nm w p : wave_ok w -> table_ok p -> table_ok (add_wave nm w p).
Proof. intros Hw Hp. unfold table_ok, add_wave. simpl. apply od_insert_Forall; assumption. Qed.

Lemma register_waves_ok nm i ws p :
  Forall wave_ok ws -> table_ok p -> table_ok (register_waves nm i ws p).2.
Proof.
  intros Hws. revert i p. induction Hws as [|w r Hw Hr IH]; intros i p Hp; simpl.
  - exact Hp.
  - specialize (IH (i + 1) (add_wave (nm +:+ "_wave" +:+ py_str i) w p)
                   (add_wave_ok _ _ _ Hw Hp)).
    destruct (register_waves nm (i + 1) r _) as [names q]. exact IH.
Qed.

Lemma mgr_add_pulse_table_ok B n gcfg envs nm kwargs p p' :
  table_ok p -> mgr_add_pulse B n gcfg envs nm kwargs p = Ok p' -> table_ok p'.
Proof.
  intros Hp H. unfold mgr_add_pulse in H.
  inv_bind H. inv_bind H.
  apply params2pulse_waves in E0.
  pose proof (register_waves_ok nm 0 (waves x0) p E0 Hp) as Hr.
  destruct (register_waves nm 0 (waves x0) p) as [names q].
  injection H as <-. exact Hr.
Qed.

(** [add_pulse] hands the call to the manager of the generator [ch]. *)
Lemma add_pulse_manager B ch nm kwargs p p' :
  add_pulse B ch nm kwargs p = Ok p' ->
  exists n gcfg envs, mgr_add_pulse B n gcfg envs nm kwargs p = Ok p'.
Proof.
  unfold add_pulse. intros H.
  destruct (py_index _ ch) as [n|]; [| discriminate].
  inv_bind H. inv_bind H. eauto.
Qed.

(** C10: a successful [add_pulse] keeps the invariant that every wave of
    the wave table has [3 <= length < 2^16], because [params2wave] fails
    for every length register below 3 or from [2^16] on. *)
Theorem C10_wave_table_lengths (B : base) (ch : Z) (nm : string)
    (kwargs : gmap string pval) (p p' : program) :
  table_ok p ->
  add_pulse B ch nm kwargs p = Ok p' ->
  table_ok p' /\
  (forall wp l, wp_lenreg wp = Some l -> l < 3 \/ 2 ^ 16 <= l ->
                is_ok (params2wave wp) = false).
Proof.
  intros Hp H. split.
  - destruct (add_pulse_manager B ch nm kwargs p p' H) as (n & gcfg & envs & Hm).
    exact (mgr_add_pulse_table_ok B n gcfg envs nm kwargs p p' Hp Hm).
  - intros wp l Hl Hr. exact (params2wave_rejects wp l Hl Hr).
Qed.

(** A fresh program has an empty wave table. *)
Lemma init_table_ok c p : init c = Ok p -> table_ok p.
Proof.
  unfold init. destruct (forallb _ _); [| discriminate].
  intros [= <-]. constructor.
Qed.

(** Every program built from a fresh one by [add_pulse] calls satisfies the
    invariant. *)
Lemma add_pulses_table_ok B (calls : list (Z * string * gmap string pval)) p p' :
  table_ok p ->
  foldl (fun acc '(ch, nm, kw) => q ← acc; add_pulse B ch nm kw q) (Ok p) calls = Ok p' ->
  table_ok p'.
Proof.
  revert p. induction calls as [|[[ch nm] kw] r IH]; intros p Hp H; simpl in H.
  - injection H as <-. exact Hp.
  - destruct (add_pulse B ch nm kw p) as [q|e] eqn:E.
    + apply (IH q); [| exact H].
      destruct (add_pulse_manager B ch nm kw p q E) as (n & gcfg & envs & Hm).
      exact (mgr_add_pulse_table_ok B n gcfg envs nm kw p q Hp Hm).
    + exfalso. clear -H. induction r as [|[[c n] k] r IH]; simpl in H; [discriminate | auto].
Qed.

Example arb_state_table :
  add_pulse base1 0 "pi" arb_kwargs pulse_state = Ok arb_state /\
  wave_table arb_state = [("pi_wave0", MkWave 100 0 0 32766 4 8)] /\
  (p_length <$> pulses arb_state !! "pi") = Some (Some 4).
Proof. vm_compute. auto. Qed.

Lemma C10_wave_table_witness :
  table_ok arb_state /\
  (forall wp l, wp_lenreg wp = Some l -> l < 3 \/ 2 ^ 16 <= l ->
                is_ok (params2wave wp) = false).
Proof.
  apply (C10_wave_table_lengths base1 0 "pi" arb_kwargs pulse_state arb_state).
  - constructor.
  - vm_compute. reflexivity.
Defined.

(** A constant pulse cannot be compiled: [params2pulse] calls
    [params2wave] without the length register. *)
Example const_pulse_type_error :
  add_pulse base1 0 "c"
    (list_to_map [("style", PStr "const"); ("freq", PFloat 100%Q); ("phase", PInt 0);
                  ("gain", PFloat 1%Q); ("length", PFloat 1%Q)]) pulse_state
  = Raise TypeError.
Proof. vm_compute. reflexivity. Qed.

(** For the style [flat_top] no branch of [params2pulse] is taken: the
    pulse is registered without any wave. *)
Example flat_top_no_waves :
  (fun p => (wave_table p, waves <$> pulses p !! "ft")) <$>
  add_pulse base1 0 "ft"
    (list_to_map [("style", PStr "flat_top"); ("freq", PFloat 100%Q); ("phase", PInt 0);
                  ("gain", PFloat 1%Q); ("length", PFloat 1%Q); ("envelope", PStr "ramp")])
    pulse_state
  = Ok ([], Some []).
Proof. vm_compute. reflexivity. Qed.

End AsmV2Facts.

(** * Timestamps of [QickProgramV2] *)

Section AsmV2Timing.
Import AsmV2 AsmV2Spec.

(** ** Truncation of durations *)
Lemma Qnum_nonneg (q : Q) : (0 <= q)%Q -> 0 <= Qnum q.
Proof. unfold Qle. simpl. lia. Qed.

Lemma py_int_inject_add (z : Z) (q : Q) :
  py_int (inject_Z z + q) = Z.quot (z * Z.pos (Qden q) + Qnum q) (Z.pos (Qden q)).
Proof.
  unfold py_int, Qplus, inject_Z. simpl.
  rewrite Z.mul_1_r. reflexivity.
Qed.

(** Adding a non-negative duration to an integer time and truncating never
    gives less than the integer. *)
Lemma py_int_ge (z : Z) (q : Q) : (0 <= q)%Q -> z <= py_int (inject_Z z + q).
Proof.
  intros Hq. apply Qnum_nonneg in Hq. rewrite py_int_inject_add.
  set (d := Z.pos (Qden q)). assert (0 < d) by (subst d; lia).
  destruct (Z_le_gt_dec 0 (z * d + Qnum q)) as [Hp | Hn].
  - rewrite Z.quot_div_nonneg by lia.
    apply Z.div_le_lower_bound; lia.
  - replace (z * d + Qnum q) with (- (- (z * d + Qnum q))) by lia.
    rewrite Z.quot_opp_l by lia.
    rewrite Z.quot_div_nonneg by lia.
    assert ((- (z * d + Qnum q)) `div` d <= - z); [| lia].
    apply Z.div_le_upper_bound; lia.
Qed.



Lemma py_div_nonneg (a b r : Q) :
  (0 <= a)%Q -> (0 <= b)%Q -> py_div a b = Ok r -> (0 <= r)%Q.
Proof.
  intros Ha Hb. unfold py_div. destruct (Qeq_bool b 0); [discriminate |].
  intros [= <-]. unfold Qdiv. apply Qmult_le_0_compat; [exact Ha |].
  apply Qinv_le_0_compat, Hb.
Qed.

Lemma duration_nonneg (len : Z) (r : Q) :
  0 <= len -> (0 <= r)%Q -> (0 <= inject_Z len * r)%Q.
Proof.
  intros Hl Hr. apply Qmult_le_0_compat; [| exact Hr].
  unfold Qle. simpl. lia.
Qed.

(** ** Lists indexed the Python way *)
Lemma list_get_lookup {A : Type} (l : list A) (i : Z) (v : A) :
  list_get l i = Ok v ->
  exists n, py_index (Z.of_nat (List.length l)) i = Some n /\ l !! n = Some v.
Proof.
  unfold list_get. destruct (py_index _ i) as [n|]; [| discriminate].
  destruct (l !! n) as [a|] eqn:E; [| discriminate].
  intros [= <-]. eauto.
Qed.

Lemma list_set_insert {A : Type} (l l' : list A) (i : Z) (v : A) :
  list_set l i v = Ok l' ->
  exists n, py_index (Z.of_nat (List.length l)) i = Some n /\ l' = <[n := v]> l.
Proof.
  unfold list_set. destruct (py_index _ i) as [n|]; [| discriminate].
  intros [= <-]. eauto.
Qed.

Lemma list_get_elem {A : Type} (l : list A) (i : Z) (v : A) :
  list_get l i = Ok v -> v ∈ l.
Proof.
  intros H. apply list_get_lookup in H as (n & _ & H).
  apply list_elem_of_lookup. eauto.
Qed.

Lemma ts_le_refl l : ts_le l l.
Proof. unfold ts_le. induction l; constructor; [lia | assumption]. Qed.

Lemma ts_le_trans l1 l2 l3 : ts_le l1 l2 -> ts_le l2 l3 -> ts_le l1 l3.
Proof.
  unfold ts_le. intros H12. revert l3.
  induction H12 as [|a b l1 l2 Hab H12 IH]; intros l3 H23; inversion H23; subst;
    constructor; [lia | auto].
Qed.

Lemma ts_le_insert l n old v :
  l !! n = Some old -> old <= v -> ts_le l (<[n := v]> l).
Proof.
  unfold ts_le. revert n. induction l as [|a l IH]; intros n Hl Hv.
  - discriminate.
  - destruct n as [|n]; simpl in *.
    + injection Hl as ->. constructor; [exact Hv | apply ts_le_refl].
    + constructor; [lia | eapply IH; eassumption].
Qed.

Lemma ts_le_lookup l l' n a :
  ts_le l l' -> l !! n = Some a -> exists b, l' !! n = Some b /\ a <= b.
Proof.
  unfold ts_le. intros H. revert n.
  induction H as [|x y l l' Hxy H IH]; intros n Hn; [discriminate |].
  destruct n as [|n]; simpl in *.
  - injection Hn as ->. eauto.
  - apply IH, Hn.
Qed.

(** ** Scheduling operations *)
Lemma advances_refl p : advances p p.
Proof. repeat split; apply ts_le_refl. Qed.

Lemma advances_trans p1 p2 p3 : advances p1 p2 -> advances p2 p3 -> advances p1 p3.
Proof.
  intros (A1 & A2 & A3 & A4 & A5) (B1 & B2 & B3 & B4 & B5).
  repeat split; try congruence; eapply ts_le_trans; eassumption.
Qed.

Lemma nonneg_spec_advances p p' :
  advances p p' -> nonneg_spec p -> nonneg_spec p'.
Proof.
  intros (A1 & A2 & A3 & _) H. unfold nonneg_spec. rewrite A1, A2, A3. exact H.
Qed.

Lemma nonneg_durations_advances p p' :
  advances p p' -> nonneg_durations p' = nonneg_durations p.
Proof.
  intros (A1 & A2 & A3 & _). unfold nonneg_durations. rewrite A1, A2, A3. reflexivity.
Qed.

Lemma forallb_elem {A : Type} (f : A -> bool) (l : list A) (x : A) :
  forallb f l = true -> x ∈ l -> f x = true.
Proof.
  intros H Hx. rewrite forallb_forall in H. apply H, list_elem_of_In, Hx.
Qed.

Lemma nonneg_durations_spec p : nonneg_durations p = true -> nonneg_spec p.
Proof.
  unfold nonneg_durations. intros H.
  repeat (apply andb_prop in H; destruct H as [H ?]).
  repeat split.
  - apply Qle_bool_iff, H.
  - apply Forall_forall. intros g Hg. apply Qle_bool_iff.
    apply (forallb_elem _ _ g) in H3; [exact H3 | exact Hg].
  - apply Forall_forall. intros r Hr. apply Qle_bool_iff.
    apply (forallb_elem _ _ r) in H2; [exact H2 | exact Hr].
  - intros nm pl len Hpl Hlen.
    apply elem_of_map_to_list in Hpl.
    apply (forallb_elem _ _ _ H1) in Hpl. simpl in Hpl. rewrite Hlen in Hpl. lia.
  - intros ro len Hro.
    apply elem_of_map_to_list in Hro.
    apply (forallb_elem _ _ _ H0) in Hro. simpl in Hro. lia.
Qed.

Lemma set_timestamp_gen_advances v ch ts p p' :
  get_timestamp_gen ch p = Ok ts -> ts <= v ->
  set_timestamp_gen v ch p = Ok p' -> advances p p'.
Proof.
  unfold get_timestamp_gen, set_timestamp_gen. intros Hg Hv Hs.
  apply list_get_lookup in Hg as (n & Hn & Hl).
  inv_bind Hs. apply list_set_insert in E as (n' & Hn' & ->).
  injection Hs as <-. rewrite Hn in Hn'. injection Hn' as <-.
  repeat split; simpl; [eapply ts_le_insert; eassumption | apply ts_le_refl].
Qed.

Lemma set_timestamp_ro_advances v ch ts p p' :
  get_timestamp_ro ch p = Ok ts -> ts <= v ->
  set_timestamp_ro v ch p = Ok p' -> advances p p'.
Proof.
  unfold get_timestamp_ro, set_timestamp_ro. intros Hg Hv Hs.
  apply list_get_lookup in Hg as (n & Hn & Hl).
  inv_bind Hs. apply list_set_insert in E as (n' & Hn' & ->).
  injection Hs as <-. rewrite Hn in Hn'. injection Hn' as <-.
  repeat split; simpl; [apply ts_le_refl | eapply ts_le_insert; eassumption].
Qed.

Lemma add_instruction_view i inc p : view (add_instruction i inc p) = view p.
Proof. reflexivity. Qed.

Lemma foldl_view {X : Type} (f : program -> X -> program) (l : list X) p :
  (forall q x, view (f q x) = view q) -> view (foldl f p l) = view p.
Proof.
  intros Hf. revert p. induction l as [|x l IH]; intros p; simpl; [reflexivity |].
  rewrite IH. apply Hf.
Qed.

Lemma advances_of_view p p' : view p' = view p -> advances p p'.
Proof.
  unfold view. intros [= H1 H2 H3 H4 H5].
  repeat split; try assumption; [rewrite H4 | rewrite H5]; apply ts_le_refl.
Qed.

(** The instructions that [pulse] appends leave the timestamps alone. *)
Lemma pulse_waves_view ch (l : list string) p p' :
  foldl (fun acc wavename =>
           q ← acc;
           idx ← dict_get (wave2idx q) wavename;
           Ok (add_instruction
                 (mk_inst [("CMD", "WPORT_WR"); ("DST", py_str ch); ("SRC", "wmem");
                           ("ADDR", "&" +:+ py_str idx); ("UF", "0")]) 1 q))
        (Ok p) l = Ok p' ->
  view p' = view p.
Proof.
  revert p. induction l as [|w l IH]; intros p H; simpl in H.
  - injection H as <-. reflexivity.
  - destruct (dict_get (wave2idx p) w) as [idx|e]; simpl in H.
    + apply IH in H. rewrite H. apply add_instruction_view.
    + exfalso. clear -H. induction l as [|w' l IH]; simpl in H; [discriminate | auto].
Qed.

(** [pulse] with automatic or explicit time never lowers a timestamp. *)
Lemma pulse_advances ch nm t p p' :
  nonneg_spec p -> pulse_ ch nm t p = Ok p' -> advances p p'.
Proof.
  intros (Hft & Hgens & _ & Hlen & _) H. unfold pulse_ in H.
  inv_bind H. rename x into pl. inv_bind H. rename x into len.
  inv_bind H. rename x into gcfg. inv_bind H. rename x into ratio.
  inv_bind H. rename x into ts. inv_bind H. destruct x as [t0 p1].
  assert (Hdur : (0 <= inject_Z len * ratio)%Q).
  { apply duration_nonneg.
    - unfold dict_get in E. destruct (pulses p !! nm) as [pl'|] eqn:Hp; [| discriminate].
      injection E as ->. destruct (p_length pl) as [l|] eqn:Hl; [| discriminate].
      injection E0 as ->. eapply Hlen; eassumption.
    - eapply py_div_nonneg; [exact Hft | | exact E2].
      apply list_get_elem in E1. rewrite Forall_forall in Hgens. apply Hgens, E1. }
  assert (Hp1 : advances p p1).
  { destruct t as [|t].
    - inv_bind E4. injection E4 as _ <-.
      eapply set_timestamp_gen_advances; [exact E3 | | exact E5].
      apply py_int_ge, Hdur.
    - destruct (Z.ltb_spec t ts).
      + inv_bind E4. injection E4 as _ <-.
        eapply set_timestamp_gen_advances; [exact E3 | | exact E5].
        apply py_int_ge, Hdur.
      + inv_bind E4. injection E4 as _ <-.
        eapply set_timestamp_gen_advances; [exact E3 | | exact E5].
        pose proof (py_int_ge t _ Hdur). lia. }
  apply pulse_waves_view in H. rewrite add_instruction_view in H.
  eapply advances_trans; [exact Hp1 |]. apply advances_of_view, H.
Qed.

Lemma foldl_trigger_ro_raise treg e ros :
  foldl (trigger_ro treg) (Raise e) ros = Raise e.
Proof. induction ros as [|ro ros IH]; simpl; [reflexivity | exact IH]. Qed.

(** One readout of [trigger]: the readout's timestamp moves to the end of
    the readout window, which starts no earlier than the old timestamp
    (an earlier trigger time raises before the timestamp is written). *)
Lemma trigger_ro_advances treg o t p ro o' t' p' :
  nonneg_spec p ->
  trigger_ro treg (Ok (o, t, p)) ro = Ok (o', t', p') -> advances p p'.
Proof.
  intros (Hft & _ & Hros & _ & Hlen) H. unfold trigger_ro in H. simpl in H.
  inv_bind H. rename x into rc.
  inv_bind H. destruct x as [o1 t1].
  inv_bind H. rename x into ts.
  destruct (Z.ltb_spec treg ts); [discriminate |].
  inv_bind H. rename x into len. inv_bind H. rename x into ratio.
  inv_bind H. injection H as _ _ <-.
  eapply set_timestamp_ro_advances; [exact E1 | | exact E4].
  assert (Hdur : (0 <= inject_Z len * ratio)%Q).
  { apply duration_nonneg.
    - destruct (ro_chs p !! ro) as [l|] eqn:Hl; [| discriminate].
      injection E2 as ->. eapply Hlen, Hl.
    - eapply py_div_nonneg; [exact Hft | | exact E3].
      apply list_get_elem in E. rewrite Forall_forall in Hros. apply Hros, E. }
  pose proof (py_int_ge treg _ Hdur). lia.
Qed.

Lemma trigger_ros_advances treg ros o t p o' t' p' :
  nonneg_spec p ->
  foldl (trigger_ro treg) (Ok (o, t, p)) ros = Ok (o', t', p') -> advances p p'.
Proof.
  revert o t p. induction ros as [|ro ros IH]; intros o t p Hp H; cbn [foldl] in H.
  - injection H as _ _ <-. apply advances_refl.
  - destruct (trigger_ro treg (Ok (o, t, p)) ro) as [[[o1 t1] p1]|e] eqn:E.
    + pose proof (trigger_ro_advances _ _ _ _ _ _ _ _ Hp E) as H1.
      eapply advances_trans; [exact H1 |].
      eapply IH; [| exact H]. eapply nonneg_spec_advances; eassumption.
    + rewrite foldl_trigger_ro_raise in H. discriminate.
Qed.

(** [trigger] never lowers a timestamp. *)
Lemma trigger_advances B ros pins t width p p' :
  nonneg_spec p -> trigger B ros pins t width p = Ok p' -> advances p p'.
Proof.
  intros Hp H. unfold trigger in H.
  inv_bind H. destruct x as [[o1 t1] p1].
  inv_bind H. destruct x as [o2 t2].
  injection H as <-.
  apply trigger_ros_advances in E; [| exact Hp].
  eapply advances_trans; [exact E |].
  apply advances_of_view.
  rewrite foldl_view by (intros; reflexivity).
  destruct o2 as [|e o2]; [reflexivity |].
  rewrite foldl_view by (intros q [a b]; reflexivity).
  rewrite add_instruction_view.
  rewrite foldl_view by (intros q [a b]; reflexivity).
  apply add_instruction_view.
Qed.

(** ** [align], as the spec describes it *)
Lemma fold_left_max_ge (l : list Z) (a : Z) :
  a <= fold_left Z.max l a /\ forall v, v ∈ l -> v <= fold_left Z.max l a.
Proof.
  revert a. induction l as [|x l IH]; intros a; simpl.
  - split; [lia | intros v Hv; inversion Hv].
  - destruct (IH (Z.max a x)) as [H1 H2]. split; [lia |].
    intros v Hv. apply elem_of_cons in Hv as [-> | Hv]; [lia | auto].
Qed.

Lemma py_max_ge l m v : py_max l = Ok m -> v ∈ l -> v <= m.
Proof.
  destruct l as [|x l]; [discriminate |]. simpl. intros [= <-] Hv.
  destruct (fold_left_max_ge l x) as [H1 H2].
  apply elem_of_cons in Hv as [-> | Hv]; auto.
Qed.

Lemma mapM_get_timestamps chs p ts :
  mapM (fun ch => get_timestamp_gen ch p) chs = Ok ts ->
  forall ch, ch ∈ chs -> exists v, get_timestamp_gen ch p = Ok v /\ v ∈ ts.
Proof.
  revert ts. induction chs as [|c chs IH]; intros ts H ch Hin.
  - inversion Hin.
  - simpl in H. inv_bind H. inv_bind H. injection H as <-.
    apply elem_of_cons in Hin as [-> | Hin].
    + exists x. split; [exact E | left].
    + destruct (IH _ E0 ch Hin) as (v & Hv & Hm). exists v. split; [exact Hv | right; exact Hm].
Qed.

Lemma align_fold_raise max_t e chs :
  foldl (fun acc ch => q ← acc; set_timestamp_gen max_t ch q) (Raise e) chs = Raise e.
Proof. induction chs as [|c chs IH]; simpl; [reflexivity | exact IH]. Qed.

(** Writing [max_t] into the channels of [chs], all of which are at most
    [max_t], lowers nothing. *)
Lemma align_fold_advances max_t chs p p' :
  (forall ch, ch ∈ chs -> exists v, get_timestamp_gen ch p = Ok v /\ v <= max_t) ->
  foldl (fun acc ch => q ← acc; set_timestamp_gen max_t ch q) (Ok p) chs = Ok p' ->
  advances p p'.
Proof.
  revert p. induction chs as [|c chs IH]; intros p Hle H; simpl in H.
  - injection H as <-. apply advances_refl.
  - destruct (set_timestamp_gen max_t c p) as [p1|e] eqn:E.
    + destruct (Hle c ltac:(left)) as (v & Hv & Hvm).
      pose proof (set_timestamp_gen_advances _ _ _ _ _ Hv Hvm E) as H1.
      eapply advances_trans; [exact H1 |].
      apply IH; [| exact H].
      intros ch Hch. destruct (Hle ch ltac:(right; exact Hch)) as (w & Hw & Hwm).
      unfold set_timestamp_gen in E. inv_bind E. injection E as <-.
      apply list_set_insert in E0 as (n & Hn & ->).
      unfold get_timestamp_gen in *. simpl.
      apply list_get_lookup in Hw as (k & Hk & Hl).
      unfold list_get. rewrite length_insert, Hk.
      destruct (decide (n = k)) as [-> | Hne].
      * rewrite list_lookup_insert_eq by (eapply lookup_lt_Some; eassumption).
        exists max_t. split; [reflexivity | lia].
      * rewrite list_lookup_insert_ne by exact Hne. rewrite Hl. eauto.
    + rewrite align_fold_raise in H. discriminate.
Qed.

Lemma align_advances chs p p' : align chs p = Ok p' -> advances p p'.
Proof.
  unfold align. intros H. inv_bind H. rename x into ts. inv_bind H. rename x into m.
  apply align_fold_advances in H; [exact H |].
  intros ch Hch. destruct (mapM_get_timestamps _ _ _ E ch Hch) as (v & Hv & Hm).
  exists v. split; [exact Hv | eapply py_max_ge; eassumption].
Qed.

(** ** [sync_all] *)

(** [sync_all] either leaves the timestamps as they are (no positive
    advance) or resets every one of them to zero. *)
Lemma sync_all_resets B t p q :
  sync_all B t p = Ok q ->
  (gen_ts q = gen_ts p /\ ro_ts q = ro_ts p) \/
  (gen_ts q = replicate (List.length (gen_ts p)) 0 /\
   ro_ts q = replicate (List.length (ro_ts p)) 0).
Proof.
  unfold sync_all. intros H. inv_bind H.
  destruct (0 <? x + us2cycles B None None t).
  - injection H as <-. right. split; reflexivity.
  - injection H as <-. left. split; reflexivity.
Qed.

(** C6: while the clock frequencies and the stored lengths are not
    negative, no scheduling operation ([pulse] with automatic or explicit
    time, [trigger], [align]) lowers the timestamp of any generator or
    readout; [sync_all] leaves the timestamps unchanged or sets all of them
    to zero. *)
Theorem C6_timestamps_never_decrease (B : base) (p : program) :
  nonneg_durations p = true ->
  (forall op p', run_op B op p = Ok p' ->
     ts_le (gen_ts p) (gen_ts p') /\ ts_le (ro_ts p) (ro_ts p')) /\
  (forall t q, sync_all B t p = Ok q ->
     (gen_ts q = gen_ts p /\ ro_ts q = ro_ts p) \/
     (gen_ts q = replicate (List.length (gen_ts p)) 0 /\
      ro_ts q = replicate (List.length (ro_ts p)) 0)).
Proof.
  intros Hn. apply nonneg_durations_spec in Hn. split.
  - intros op p' H.
    assert (advances p p') as (_ & _ & _ & Hg & Hr); [| split; assumption].
    destruct op as [ch nm t | ros pins t width | chs]; simpl in H.
    + eapply pulse_advances; eassumption.
    + eapply trigger_advances; eassumption.
    + eapply align_advances; eassumption.
  - intros t q H. eapply sync_all_resets, H.
Qed.

Lemma C6_timestamps_witness :
  (forall op p', run_op base1 op arb_state = Ok p' ->
     ts_le (gen_ts arb_state) (gen_ts p') /\ ts_le (ro_ts arb_state) (ro_ts p')) /\
  (forall t q, sync_all base1 t arb_state = Ok q ->
     (gen_ts q = gen_ts arb_state /\ ro_ts q = ro_ts arb_state) \/
     (gen_ts q = replicate (List.length (gen_ts arb_state)) 0 /\
      ro_ts q = replicate (List.length (ro_ts arb_state)) 0)).
Proof. apply (C6_timestamps_never_decrease base1 arb_state). vm_compute. reflexivity. Defined.

(** The pulse ["pi"] of [arb_state] scheduled twice, automatically and then
    at the explicit time 1 that conflicts with the first pulse: the
    generator timestamp goes from 0 to 4 and to 8. *)
Example pulse_twice :
  (p ← pulse_ 0 "pi" TAuto arb_state; q ← pulse_ 0 "pi" (TInt 1) p;
   Ok (gen_ts arb_state, gen_ts p, gen_ts q)) = Ok ([0], [4], [8]).
Proof. vm_compute. reflexivity. Qed.

(** Over a sequence of operations the timestamps only grow. *)
Lemma run_ops_advances B (ops : list sched_op) p p' :
  nonneg_durations p = true ->
  foldl (fun acc op => q ← acc; run_op B op q) (Ok p) ops = Ok p' ->
  ts_le (gen_ts p) (gen_ts p') /\ ts_le (ro_ts p) (ro_ts p').
Proof.
  intros Hn H. apply nonneg_durations_spec in Hn.
  assert (advances p p') as (_ & _ & _ & Hg & Hr); [| split; assumption].
  revert p Hn H. induction ops as [|op ops IH]; intros p Hn H; cbn [foldl] in H.
  - injection H as <-. apply advances_refl.
  - rewrite bind_ok_l in H. destruct (run_op B op p) as [p1|e] eqn:E.
    + assert (advances p p1) as H1.
      { destruct op as [ch nm t | ros pins t width | chs]; simpl in E.
        - eapply pulse_advances; eassumption.
        - eapply trigger_advances; eassumption.
        - eapply align_advances; eassumption. }
      eapply advances_trans; [exact H1 |].
      apply IH; [eapply nonneg_spec_advances; eassumption | exact H].
    + exfalso. clear -H.
      induction ops as [|o ops IH]; simpl in H; [discriminate | auto].
Qed.

(** A first trigger moves the readout timestamp to the end of its window;
    a second trigger at a time inside that window raises the [NameError]
    of the warning that names [tireg]. *)
Example trigger_conflict_raises :
  (ro_ts <$> trigger base1 [0] [] 0%Q 10 ro_state) = Ok [100] /\
  (p ← trigger base1 [0] [] 0%Q 10 ro_state; trigger base1 [0] [] 0%Q 10 p)
  = Raise NameError.
Proof. split; vm_compute; reflexivity. Qed.

(** ** Pulses with automatic timing *)








(** ** Whole numbers of cycles *)







(** The interleaved calls: two pulses of four cycles on generator 0, one
    pulse of eight cycles on generator 1. *)
Example interleaved_timestamps :
  auto_pulses interleaved_calls two_gen_state = Ok interleaved_state /\
  gen_ts interleaved_state = [8; 8] /\
  ticks_on two_gen_state 0 interleaved_calls = 8 /\
  ticks_on two_gen_state 1 interleaved_calls = 8.
Proof. vm_compute. auto. Qed.

End AsmV2Timing.

(** Linear arithmetic with division and remainder by constants. *)
Ltac divmod := Z.div_mod_to_equations; lia.

(** * The encoder and the pulse library of [qick_asm.py] *)

Section QickAsmEncoding.
Import QickAsm QickAsmSpec.

(** ** Bit fields *)

Lemma land_disjoint a b k :
  0 <= k -> a `mod` 2 ^ k = 0 -> 0 <= b < 2 ^ k -> Z.land a b = 0.
Proof.
  intros Hk Ha Hb. apply Z.bits_inj'. intros n Hn.
  rewrite Z.land_spec, Z.bits_0.
  destruct (Z.lt_ge_cases n k) as [Hlt | Hge].
  - rewrite <- (Z.mod_pow2_bits_low a k n Hlt), Ha, Z.bits_0. reflexivity.
  - rewrite <- (Z.mod_small b (2 ^ k) Hb), Z.mod_pow2_bits_high by lia.
    apply andb_false_r.
Qed.

Lemma lor_disjoint a b k :
  0 <= k -> a `mod` 2 ^ k = 0 -> 0 <= b < 2 ^ k -> Z.lor a b = a + b.
Proof.
  intros Hk Ha Hb. rewrite <- Z.add_lor_land, (land_disjoint a b k) by assumption. lia.
Qed.

Lemma lor_add_of_land a b : Z.land a b = 0 -> Z.lor a b = a + b.
Proof. intros H. rewrite <- Z.add_lor_land, H. lia. Qed.

Lemma bits_div_mod m off w :
  0 <= off -> 0 <= w -> bits m off w = (m `div` 2 ^ off) `mod` 2 ^ w.
Proof.
  intros Ho Hw. unfold bits. rewrite Z.land_ones, Z.shiftr_div_pow2 by assumption. reflexivity.
Qed.

Lemma compile_regwi lbls rp reg imm c :
  compile_instruction lbls (Inst "regwi" [AInt rp; AInt reg; AInt imm; c]) =
  v ← convert_immediate imm;
  Ok (Z.lor (Z.lor (Z.lor (Z.shiftl 25 56) (Z.shiftl rp 53)) (Z.shiftl reg 41)) (Z.shiftl v 0)).
Proof.
  unfold compile_instruction. cbn [name args].
  replace (dict_get instructions "regwi")
    with (Ok (Idef "I" 25 [(0%nat, 53); (1%nat, 41); (2%nat, 0)])) by reflexivity.
  rewrite bind_ok_l. cbv beta iota. cbn [ty fmt bin].
  unfold update_arg. cbn -[convert_immediate Z.shiftl Z.lor].
  destruct (convert_immediate imm); reflexivity.
Qed.

Lemma convert_immediate_range imm :
  - 2 ^ 31 <= imm <= 2 ^ 31 ->
  convert_immediate imm = Ok (if imm <? 0 then 2 ^ 31 + imm else imm).
Proof.
  intros H. unfold convert_immediate.
  destruct (Z.ltb_spec (2 ^ 31) imm); [lia |].
  destruct (imm <? 0); reflexivity.
Qed.

(** X1: a [regwi] with a page below 8, a register below 32 and an
    immediate between [-2^31] and [2^31] compiles to a 64-bit word whose
    fields read back: opcode 25 in the top byte, the page at bit 53, the
    register at bit 41 and the immediate in the low 32 bits, a negative
    immediate being stored as [2^31 + imm]. *)
Theorem regwi_word_fields lbls rp reg imm c :
  0 <= rp < 8 -> 0 <= reg < 32 -> - 2 ^ 31 <= imm <= 2 ^ 31 ->
  exists m,
    compile_instruction lbls (Inst "regwi" [AInt rp; AInt reg; AInt imm; c]) = Ok m /\
    0 <= m < 2 ^ 64 /\
    bits m 56 8 = 25 /\ bits m 53 3 = rp /\ bits m 41 5 = reg /\
    bits m 0 32 = (if imm <? 0 then 2 ^ 31 + imm else imm).
Proof.
  intros Hrp Hreg Himm.
  rewrite compile_regwi, (convert_immediate_range imm Himm), bind_ok_l.
  set (v := if imm <? 0 then 2 ^ 31 + imm else imm).
  assert (0 <= v <= 2 ^ 31) as Hv by (subst v; destruct (Z.ltb_spec imm 0); lia).
  clearbody v. eexists. split; [reflexivity |].
  rewrite !Z.shiftl_mul_pow2 by lia.
  rewrite (lor_disjoint (25 * 2 ^ 56) _ 56) by divmod.
  rewrite (lor_disjoint _ (reg * 2 ^ 41) 53) by divmod.
  rewrite (lor_disjoint _ (v * 2 ^ 0) 41) by divmod.
  rewrite !bits_div_mod by lia.
  repeat split; divmod.
Qed.

Lemma regwi_word_fields_witness :
  exists m,
    compile_instruction ∅ (Inst "regwi" [AInt 3; AInt 16; AInt (-1); AComment]) = Ok m /\
    0 <= m < 2 ^ 64 /\
    bits m 56 8 = 25 /\ bits m 53 3 = 3 /\ bits m 41 5 = 16 /\
    bits m 0 32 = (if -1 <? 0 then 2 ^ 31 + -1 else -1).
Proof.
  apply (regwi_word_fields ∅ 3 16 (-1) AComment); lia.
Defined.

(** ** [safe_regwi] and [compile] *)

Lemma compile_bitwi lbls rp rd ra op imm :
  compile_instruction lbls (Inst "bitwi" [AInt rp; AInt rd; AInt ra; AStr op; AInt imm]) =
  v ← convert_immediate imm;
  o ← dict_get op_codes op;
  Ok (Z.lor (Z.lor (Z.lor (Z.lor (Z.lor (Z.shiftl 22 56) (Z.shiftl rp 53)) (Z.shiftl o 46))
                      (Z.shiftl rd 41)) (Z.shiftl ra 36)) (Z.shiftl v 0)).
Proof.
  unfold compile_instruction. cbn [name args].
  replace (dict_get instructions "bitwi")
    with (Ok (Idef "I" 22 [(0%nat, 53); (3%nat, 46); (1%nat, 41); (2%nat, 36); (4%nat, 0)]))
    by reflexivity.
  rewrite bind_ok_l. cbv beta iota. cbn [ty fmt bin].
  unfold update_arg. cbn -[convert_immediate Z.shiftl Z.lor op_codes].
  destruct (convert_immediate imm); [| reflexivity].
  cbn -[Z.shiftl Z.lor op_codes].
  destruct (dict_get op_codes op); reflexivity.
Qed.

Lemma compile_mathi lbls rp rd ra op imm :
  compile_instruction lbls (Inst "mathi" [AInt rp; AInt rd; AInt ra; AStr op; AInt imm]) =
  v ← convert_immediate imm;
  o ← dict_get op_codes op;
  Ok (Z.lor (Z.lor (Z.lor (Z.lor (Z.lor (Z.shiftl 18 56) (Z.shiftl rp 53)) (Z.shiftl rd 41))
                      (Z.shiftl ra 36)) (Z.shiftl o 46)) (Z.shiftl v 0)).
Proof.
  unfold compile_instruction. cbn [name args].
  replace (dict_get instructions "mathi")
    with (Ok (Idef "I" 18 [(0%nat, 53); (1%nat, 41); (2%nat, 36); (3%nat, 46); (4%nat, 0)]))
    by reflexivity.
  rewrite bind_ok_l. cbv beta iota. cbn [ty fmt bin].
  unfold update_arg. cbn -[convert_immediate Z.shiftl Z.lor op_codes].
  destruct (convert_immediate imm); [| reflexivity].
  cbn -[Z.shiftl Z.lor op_codes].
  destruct (dict_get op_codes op); reflexivity.
Qed.

Lemma mapM_result_app {A B : Type} (f : A -> result B) (l1 l2 : list A) :
  mapM f (l1 ++ l2) = (x ← mapM f l1; y ← mapM f l2; Ok (x ++ y)).
Proof.
  induction l1 as [| a l1 IH]; simpl.
  - destruct (mapM f l2); reflexivity.
  - destruct (f a); [| reflexivity]. simpl. rewrite IH.
    destruct (mapM f l1); [| reflexivity]. simpl.
    destruct (mapM f l2); reflexivity.
Qed.

Lemma mapM_result_length {A B : Type} (f : A -> result B) (l : list A) (r : list B) :
  mapM f l = Ok r -> List.length r = List.length l.
Proof.
  revert r. induction l as [| a l IH]; simpl; intros r H.
  - injection H as <-. reflexivity.
  - destruct (f a); [| discriminate]. simpl in H.
    destruct (mapM f l); [| discriminate]. simpl in H.
    injection H as <-. simpl. f_equal. apply IH. reflexivity.
Qed.

Lemma compile_emit l p ws :
  compile p = Ok ws ->
  compile (emit l p) = (y ← mapM (compile_instruction (labels p)) l; Ok (ws ++ y)).
Proof.
  intros H. unfold compile in *. cbn [emit set_prog_list prog_list labels].
  rewrite mapM_result_app, H. reflexivity.
Qed.

(** X2: on a program that compiles, the instructions that [safe_regwi]
    appends compile as well, to one, two or three more words, exactly when
    the immediate is at most [2^32 + 1]; above that the first write
    [imm >> 1] exceeds [2^31] and [compile] raises [RuntimeError]. *)
Theorem safe_regwi_compiles rp reg imm p ws :
  compile p = Ok ws ->
  (imm <= 2 ^ 32 + 1 ->
   exists ws', compile (safe_regwi rp reg imm p) = Ok (ws ++ ws') /\
               (1 <= List.length ws' <= 3)%nat) /\
  (2 ^ 32 + 1 < imm -> compile (safe_regwi rp reg imm p) = Raise RuntimeError).
Proof.
  intros Hc. rewrite safe_regwi_emit, (compile_emit _ p ws Hc).
  unfold safe_regwi_code.
  assert (forall v, v <= 2 ^ 31 -> exists v', convert_immediate v = Ok v') as Hconv.
  { intros v Hv. unfold convert_immediate. destruct (Z.ltb_spec (2 ^ 31) v); [lia |].
    destruct (v <? 0); eauto. }
  split.
  - intros Himm. destruct (Z.ltb_spec imm (2 ^ 30)) as [Hlt | Hge].
    + cbn [mapM]. rewrite compile_regwi.
      destruct (Hconv imm ltac:(lia)) as (v & ->).
      eexists. split; [reflexivity | simpl; lia].
    + assert (Z.shiftr imm 1 <= 2 ^ 31) as Hs.
      { rewrite Z.shiftr_div_pow2 by lia. divmod. }
      destruct (Hconv _ Hs) as (v & Hv).
      destruct (Z.eqb_spec (imm `mod` 4) 0) as [Hz | Hnz].
      * cbn [app mapM]. rewrite compile_regwi, compile_bitwi, Hv.
        eexists. split; [reflexivity | simpl; lia].
      * destruct (Hconv (imm `mod` 4) ltac:(divmod)) as (v4 & Hv4).
        cbn [app mapM]. rewrite compile_regwi, compile_bitwi, compile_mathi, Hv, Hv4.
        eexists. split; [reflexivity | simpl; lia].
  - intros Himm. destruct (Z.ltb_spec imm (2 ^ 30)) as [Hlt | Hge]; [lia |].
    assert (convert_immediate (Z.shiftr imm 1) = Raise RuntimeError) as Hs.
    { unfold convert_immediate. rewrite Z.shiftr_div_pow2 by lia.
      destruct (Z.ltb_spec (2 ^ 31) (imm `div` 2 ^ 1)); [reflexivity | divmod]. }
    cbn [app mapM]. rewrite compile_regwi, Hs. reflexivity.
Qed.

Lemma safe_regwi_compiles_witness :
  exists ws', compile (safe_regwi 0 16 (2 ^ 32) init) = Ok ([] ++ ws') /\
              (1 <= List.length ws' <= 3)%nat.
Proof.
  apply (proj1 (safe_regwi_compiles 0 16 (2 ^ 32) init [] eq_refl)). lia.
Defined.

(** ** Labels and jumps *)

Lemma compile_loopnz lbls rp reg L :
  compile_instruction lbls (Inst "loopnz" [AInt rp; AInt reg; AStr L]) =
  a ← dict_get lbls L;
  Ok (Z.lor (Z.lor (Z.lor (Z.lor (Z.lor (Z.shiftl 48 56) (Z.shiftl rp 53)) (Z.shiftl reg 41))
                      (Z.shiftl reg 36)) (Z.shiftl a 0)) (Z.shiftl 8 46)).
Proof.
  unfold compile_instruction. cbn [name args].
  replace (dict_get instructions "loopnz")
    with (Ok (Idef "J1" 48 [(0%nat, 53); (1%nat, 41); (1%nat, 36); (2%nat, 0)]))
    by reflexivity.
  rewrite bind_ok_l. cbv beta iota. cbn [ty fmt bin].
  unfold update_arg. cbn -[Z.shiftl Z.lor].
  destruct (dict_get lbls L); reflexivity.
Qed.

Lemma land_between hi lo b k1 k2 :
  0 <= k1 <= k2 -> hi `mod` 2 ^ k2 = 0 -> 0 <= lo < 2 ^ k1 ->
  b `mod` 2 ^ k1 = 0 -> 0 <= b < 2 ^ k2 ->
  Z.land (hi + lo) b = 0.
Proof.
  intros Hk Hhi Hlo Hb1 Hb2.
  assert (2 ^ k1 <= 2 ^ k2) as Hp by (apply Z.pow_le_mono_r; lia).
  rewrite <- (lor_disjoint hi lo k2) by (first [lia | assumption]).
  rewrite Z.land_lor_distr_l, (land_disjoint hi b k2) by (first [lia | assumption]).
  rewrite Z.land_comm, (land_disjoint b lo k1) by (first [lia | assumption]).
  reflexivity.
Qed.

(** X3: a label placed before an instruction is the index of that
    instruction, and a [loopnz] to the label compiles to a word whose
    address field (the low 36 bits) is that index; the page, the register
    (twice) and the flag [0b1000] at bit 46 read back as well. *)
Theorem loopnz_targets_labelled_instruction p L nm a rp reg :
  0 <= rp < 8 -> 0 <= reg < 32 -> Z.of_nat (List.length (prog_list p)) < 2 ^ 36 ->
  let p1 := append_instruction nm a (label L p) in
  exists m,
    compile_instruction (labels p1) (Inst "loopnz" [AInt rp; AInt reg; AStr L]) = Ok m /\
    prog_list p1 !! Z.to_nat (bits m 0 36) = Some (Inst nm a) /\
    bits m 56 8 = 48 /\ bits m 53 3 = rp /\ bits m 46 4 = 8 /\
    bits m 41 5 = reg /\ bits m 36 5 = reg.
Proof.
  intros Hrp Hreg Hlen p1.
  rewrite compile_loopnz. subst p1. cbn [append_instruction label set_prog_list labels prog_list].
  unfold dict_get. rewrite lookup_insert_eq. rewrite bind_ok_l.
  set (n := Z.of_nat (List.length (prog_list p))) in *.
  assert (0 <= n) as Hn by (subst n; lia).
  eexists. split; [reflexivity |].
  rewrite !Z.shiftl_mul_pow2 by lia.
  rewrite (lor_disjoint (48 * 2 ^ 56) _ 56) by divmod.
  rewrite (lor_disjoint _ (reg * 2 ^ 41) 53) by divmod.
  rewrite (lor_disjoint _ (reg * 2 ^ 36) 41) by divmod.
  rewrite (lor_disjoint _ (n * 2 ^ 0) 36) by divmod.
  rewrite (lor_add_of_land _ (8 * 2 ^ 46)).
  2:{ replace (48 * 2 ^ 56 + rp * 2 ^ 53 + reg * 2 ^ 41 + reg * 2 ^ 36 + n * 2 ^ 0)
        with ((48 * 2 ^ 56 + rp * 2 ^ 53) + (reg * 2 ^ 41 + reg * 2 ^ 36 + n * 2 ^ 0)) by lia.
      apply (land_between _ _ _ 46 53); divmod. }
  rewrite !bits_div_mod by lia.
  assert (((48 * 2 ^ 56 + rp * 2 ^ 53 + reg * 2 ^ 41 + reg * 2 ^ 36 + n * 2 ^ 0
            + 8 * 2 ^ 46) `div` 2 ^ 0) `mod` 2 ^ 36 = n) as -> by divmod.
  split.
  - subst n. rewrite Nat2Z.id. apply list_lookup_middle. reflexivity.
  - repeat split; divmod.
Qed.

Lemma loopnz_targets_witness :
  exists m,
    compile_instruction (labels (append_instruction "synci" [AInt 5] (label "LOOP" init)))
      (Inst "loopnz" [AInt 0; AInt 1; AStr "LOOP"]) = Ok m /\
    prog_list (append_instruction "synci" [AInt 5] (label "LOOP" init))
      !! Z.to_nat (bits m 0 36) = Some (Inst "synci" [AInt 5]) /\
    bits m 56 8 = 48 /\ bits m 53 3 = 0 /\ bits m 46 4 = 8 /\
    bits m 41 5 = 1 /\ bits m 36 5 = 1.
Proof.
  apply (loopnz_targets_labelled_instruction init "LOOP" "synci" [AInt 5] 0 1);
    (simpl; lia).
Defined.

Lemma arg_lookup_insert lbls L n a v :
  lbls !! L = None -> arg_lookup lbls a = Ok v -> arg_lookup (<[L := n]> lbls) a = Ok v.
Proof.
  intros HL. destruct a as [z | s |]; simpl; try discriminate.
  unfold dict_get. destruct (lbls !! s) eqn:E; [| discriminate].
  intros H. rewrite lookup_insert_ne by congruence. rewrite E. exact H.
Qed.

Lemma update_arg_insert lbls L n i l l' :
  lbls !! L = None ->
  update_arg i (arg_lookup lbls) l = Ok l' ->
  update_arg i (arg_lookup (<[L := n]> lbls)) l = Ok l'.
Proof.
  intros HL. unfold update_arg. destruct (l !! i) as [a |]; [| discriminate].
  destruct (arg_lookup lbls a) as [v |] eqn:E; [| discriminate].
  rewrite (arg_lookup_insert lbls L n a v HL E). intros H. exact H.
Qed.

(** Defining one more label does not change the word of an instruction
    that compiled without it. *)
Lemma compile_instruction_insert lbls L n i m :
  lbls !! L = None ->
  compile_instruction lbls i = Ok m ->
  compile_instruction (<[L := n]> lbls) i = Ok m.
Proof.
  intros HL H. unfold compile_instruction in *.
  inv_bind H. rewrite E. ok_step.
  inv_bind H. rewrite E0. ok_step.
  inv_bind H.
  assert ((if (name i =? "loopnz")%string
           then match x0 with
                | [] => Raise IndexError
                | _ :: _ => update_arg (List.length x0 - 1) (arg_lookup (<[L := n]> lbls)) x0
                end
           else Ok x0) = Ok x1) as ->.
  { destruct (name i =? "loopnz")%string; [| exact E1].
    destruct x0; [discriminate |]. apply update_arg_insert; assumption. }
  ok_step.
  inv_bind H.
  assert ((if (name i =? "condj")%string
           then a1 ← update_arg 4 (arg_lookup (<[L := n]> lbls)) x1;
                x ← from_option Ok (Raise IndexError) (args i !! 2%nat);
                update_arg 2 (fun _ => arg_lookup op_codes x) a1
           else Ok x1) = Ok x2) as ->.
  { destruct (name i =? "condj")%string; [| exact E2].
    inv_bind E2. rewrite (update_arg_insert lbls L n _ _ _ HL E3). exact E2. }
  ok_step. exact H.
Qed.

Lemma compile_label_insert lbls L n l ws :
  lbls !! L = None ->
  mapM (compile_instruction lbls) l = Ok ws ->
  mapM (compile_instruction (<[L := n]> lbls)) l = Ok ws.
Proof.
  intros HL. revert ws. induction l as [| i l IH]; intros ws H; [exact H |].
  cbn [mapM] in *. inv_bind H. inv_bind H.
  rewrite (compile_instruction_insert lbls L n i x HL E), (IH x0 E0). exact H.
Qed.

(** X4: labels are resolved when the program is compiled, not when the
    jump is appended: a [loopnz] to a name that is not a label makes
    [compile] raise [KeyError], and defining the label afterwards (a
    forward reference) makes the same program compile, the words of the
    earlier instructions being unchanged. *)
Theorem loopnz_label_resolved_at_compile p ws rp reg L :
  compile p = Ok ws -> labels p !! L = None ->
  let p1 := append_instruction "loopnz" [AInt rp; AInt reg; AStr L] p in
  compile p1 = Raise KeyError /\
  exists m, compile (label L p1) = Ok (ws ++ [m]).
Proof.
  intros Hc HL p1. subst p1. split.
  - change (append_instruction "loopnz" [AInt rp; AInt reg; AStr L] p)
      with (emit [Inst "loopnz" [AInt rp; AInt reg; AStr L]] p).
    rewrite (compile_emit _ p ws Hc). cbn [mapM].
    rewrite compile_loopnz. unfold dict_get. rewrite HL. reflexivity.
  - unfold compile in *.
    cbn [label append_instruction set_prog_list labels prog_list].
    rewrite mapM_result_app, (compile_label_insert _ L _ _ ws HL Hc).
    cbn [mapM]. rewrite compile_loopnz. unfold dict_get. rewrite lookup_insert_eq.
    eexists. reflexivity.
Qed.

Lemma loopnz_label_witness :
  compile (append_instruction "loopnz" [AInt 0; AInt 1; AStr "END"] init) = Raise KeyError /\
  exists m,
    compile (label "END" (append_instruction "loopnz" [AInt 0; AInt 1; AStr "END"] init))
    = Ok ([] ++ [m]).
Proof.
  apply (loopnz_label_resolved_at_compile init [] 0 1 "END"); reflexivity.
Defined.

(** ** The mode code and the special registers *)

(** X5: the mode code packs the length into the low 16 bits and the
    flags [outsel], [mode], [stdysel], [phrst] above them, a flag that is
    not given taking its default (0, 0, 1, 0): for flags and a length in
    range every field reads back.  Without a length the code is not built
    ([TypeError]). *)
Theorem get_mode_code_round_trip phrst stdysel mode outsel len :
  0 <= default 0 phrst <= 1 -> 0 <= default 1 stdysel <= 1 ->
  0 <= default 0 mode <= 1 -> 0 <= default 0 outsel <= 3 -> 0 <= len < 2 ^ 16 ->
  (exists mc,
     get_mode_code phrst stdysel mode outsel (Some len) = Ok mc /\
     bits mc 0 16 = len /\ bits mc 16 2 = default 0 outsel /\
     bits mc 18 1 = default 0 mode /\ bits mc 19 1 = default 1 stdysel /\
     bits mc 20 1 = default 0 phrst) /\
  get_mode_code phrst stdysel mode outsel None = Raise TypeError.
Proof.
  intros Hp Hs Hm Ho Hl. split; [| reflexivity].
  unfold get_mode_code. eexists. split; [reflexivity |].
  set (a := default 0 phrst) in *. set (b := default 1 stdysel) in *.
  set (c := default 0 mode) in *. set (d := default 0 outsel) in *.
  rewrite Z.shiftl_mul_pow2 by lia.
  rewrite (lor_disjoint _ len 16) by divmod.
  rewrite !bits_div_mod by lia.
  repeat split; divmod.
Qed.

Lemma get_mode_code_round_trip_witness :
  (exists mc,
     get_mode_code (Some 1) None None (Some 1) (Some 100) = Ok mc /\
     bits mc 0 16 = 100 /\ bits mc 16 2 = 1 /\ bits mc 18 1 = 0 /\ bits mc 19 1 = 1 /\
     bits mc 20 1 = 1) /\
  get_mode_code (Some 1) None None (Some 1) None = Raise TypeError.
Proof.
  apply (get_mode_code_round_trip (Some 1) None None (Some 1) 100); simpl; lia.
Defined.

Lemma sreg_range ch nm r :
  1 <= ch <= 7 -> sreg ch nm = Ok r ->
  if Z.odd ch then 16 <= r <= 21 else 23 <= r <= 28.
Proof.
  intros Hch.
  assert (ch = 1 \/ ch = 2 \/ ch = 3 \/ ch = 4 \/ ch = 5 \/ ch = 6 \/ ch = 7) as Hc by lia.
  set (a := list_to_map [("freq", 16); ("phase", 17); ("addr", 18); ("gain", 19);
                         ("mode", 20); ("t", 21)] : gmap string Z).
  set (b := list_to_map [("freq", 23); ("phase", 24); ("addr", 25); ("gain", 26);
                         ("mode", 27); ("t", 28)] : gmap string Z).
  assert (list_get special_registers (ch - 1) = Ok (if Z.odd ch then a else b)) as Hl.
  { destruct Hc as [-> | [-> | [-> | [-> | [-> | [-> | ->]]]]]]; reflexivity. }
  unfold sreg, dict_get. rewrite Hl, bind_ok_l.
  destruct (Z.odd ch);
    (match goal with
     | |- context [match ?x with Some _ => _ | None => _ end] => destruct x as [v |] eqn:E
     end; [| discriminate]; intros [= <-];
     apply elem_of_list_to_map_2 in E;
     repeat (apply elem_of_cons in E; destruct E as [[= _ ->] | E]; [lia |]);
     apply elem_of_nil in E; destruct E).
Qed.

(** X6: two different channels that share a register page never share a
    special register: whatever the register names, the addresses that
    [sreg] returns for them differ. *)
Theorem special_registers_disjoint ch1 ch2 n1 n2 r1 r2 :
  1 <= ch1 <= 7 -> 1 <= ch2 <= 7 -> ch1 <> ch2 -> ch_page ch1 = ch_page ch2 ->
  sreg ch1 n1 = Ok r1 -> sreg ch2 n2 = Ok r2 -> r1 <> r2.
Proof.
  intros H1 H2 Hne Hpg E1 E2.
  apply sreg_range in E1; [| exact H1]. apply sreg_range in E2; [| exact H2].
  unfold ch_page in Hpg.
  assert (Z.odd ch1 = negb (Z.odd ch2)) as Hodd.
  { assert (ch1 = 1 \/ ch1 = 2 \/ ch1 = 3 \/ ch1 = 4 \/ ch1 = 5 \/ ch1 = 6 \/ ch1 = 7)
      as Hc1 by lia.
    assert (ch2 = 1 \/ ch2 = 2 \/ ch2 = 3 \/ ch2 = 4 \/ ch2 = 5 \/ ch2 = 6 \/ ch2 = 7)
      as Hc2 by lia.
    destruct Hc1 as [-> | [-> | [-> | [-> | [-> | [-> | ->]]]]]];
      destruct Hc2 as [-> | [-> | [-> | [-> | [-> | [-> | ->]]]]]];
      first [reflexivity | exfalso; apply Hne; reflexivity
            | exfalso; vm_compute in Hpg; discriminate Hpg]. }
  rewrite Hodd in E1. destruct (Z.odd ch2); simpl in E1; lia.
Qed.

Lemma special_registers_disjoint_witness : 16 <> 23.
Proof.
  apply (special_registers_disjoint 1 2 "freq" "freq" 16 23);
    first [lia | reflexivity].
Defined.

(** ** Timestamps of the pulse macros *)

(** X7: playing a registered constant pulse of stored length [len]
    advances the channel's timestamp by [len] when the time is ['auto'],
    and leaves every timestamp as it was when the time is given
    explicitly. *)
Theorem const_pulse_timestamp ch nm c pi len ts0 t
    freq phase gain phrst stdysel mode outsel length p :
  1 <= ch <= 7 ->
  channels p !! ch = Some c ->
  pulses c !! nm = Some pi ->
  pi_length pi = Some len ->
  dac_ts p !! Z.to_nat ch = Some ts0 ->
  exists p',
    const_pulse ch (Some nm) freq phase gain phrst stdysel mode outsel length
      (Some t) true p = Ok p' /\
    dac_ts p' = match t with
                | TAuto => <[Z.to_nat ch := ts0 + len]> (dac_ts p)
                | TInt _ => dac_ts p
                end.
Proof.
  intros Hch Hc Hpi Hlen Hts.
  unfold const_pulse.
  rewrite (get_pinfo_ok p ch nm c pi Hc Hpi). ok_step.
  rewrite (set_last_pulse_ok p ch nm c Hc). repeat ok_step.
  rewrite Hlen. simpl not_none. cbv iota.
  erewrite (set_pulse_registers_ok ch freq phase None gain phrst stdysel mode (Some 1)
              (Some len)) by (first [exact Hch | simpl; reflexivity]).
  ok_step. destruct t as [| tv].
  - rewrite (list_get_ok _ ch ts0) by (first [lia | exact Hts]). ok_step.
    simpl from_option. ok_step.
    erewrite (list_set_ok _ ch _ ts0) by (first [lia | exact Hts]).
    repeat ok_step.
    eexists. split; reflexivity.
  - repeat ok_step. eexists. split; reflexivity.
Qed.

(** X8: playing a registered arbitrary pulse of stored length [len] sets
    the channel's timestamp to the start time plus [len], the start time
    being the old timestamp for ['auto'] and the given time otherwise
    (also when that is earlier than the old timestamp). *)
Theorem arb_pulse_timestamp ch nm c pi len ts0 t
    freq phase gain phrst stdysel mode outsel length p :
  1 <= ch <= 7 ->
  channels p !! ch = Some c ->
  pulses c !! nm = Some pi ->
  pi_length pi = Some len ->
  dac_ts p !! Z.to_nat ch = Some ts0 ->
  exists p',
    arb_pulse ch (Some nm) freq phase gain phrst stdysel mode outsel length
      (Some t) true p = Ok p' /\
    dac_ts p' = <[Z.to_nat ch := match t with TAuto => ts0 | TInt tv => tv end + len]>
                  (dac_ts p).
Proof.
  intros Hch Hc Hpi Hlen Hts.
  unfold arb_pulse.
  rewrite (get_pinfo_ok p ch nm c pi Hc Hpi). ok_step.
  rewrite (set_last_pulse_ok p ch nm c Hc). repeat ok_step.
  rewrite Hlen.
  erewrite (set_pulse_registers_ok ch freq phase _ gain phrst stdysel mode outsel
              (Some len)) by (first [exact Hch | simpl; reflexivity]).
  ok_step.
  assert (forall q, dac_ts q = dac_ts p -> channels q = <[ch := Channel (ch_addr c) (pulses c) (Some nm)]> (channels p) ->
          forall t0,
          exists p',
            (pi0 ← get_pinfo q ch nm;
             len0 ← from_option Ok (Raise TypeError) (pi_length pi0);
             ts ← list_set (dac_ts q) ch (t0 + len0);
             Ok (safe_regwi (rp (regs_of ch)) (r_t (regs_of ch)) t0 (set_dac_ts ts q)))
            ≫= (fun p0 => Ok (play_set ch (regs_of ch) p0)) = Ok p' /\
            dac_ts p' = <[Z.to_nat ch := t0 + len]> (dac_ts p)) as Hrest.
  { intros q Hq Hcq t0.
    rewrite (get_pinfo_ok q ch nm (Channel (ch_addr c) (pulses c) (Some nm)) pi)
      by (first [rewrite Hcq; apply lookup_insert_eq | exact Hpi]).
    ok_step. rewrite Hlen. simpl from_option. ok_step.
    rewrite Hq. erewrite (list_set_ok _ ch _ ts0) by (first [lia | exact Hts]).
    repeat ok_step. eexists. split; [reflexivity |].
    unfold play_set, set, append_instruction, set_prog_list. cbn [dac_ts].
    rewrite (proj1 (proj2 (safe_regwi_frame _ _ _ _))). reflexivity. }
  destruct t as [| tv].
  - rewrite (list_get_ok _ ch ts0) by (first [lia | exact Hts]). ok_step.
    apply Hrest; reflexivity.
  - ok_step. apply Hrest; reflexivity.
Qed.

Lemma const_pulse_timestamp_witness :
  exists p',
    const_pulse 1 (Some "flat") None None (Some 1000) None None None None None
      (Some (TInt 7)) true const_state = Ok p' /\
    dac_ts p' = dac_ts const_state.
Proof.
  apply (const_pulse_timestamp 1 "flat"
           (Channel 0 {["flat" := Pinfo None None 0 (Some 10) "const" None]} None)
           (Pinfo None None 0 (Some 10) "const" None) 10 0 (TInt 7));
    first [lia | reflexivity].
Defined.

Lemma arb_pulse_timestamp_witness :
  exists p',
    arb_pulse 1 (Some "ramp") None None (Some 1000) None None None None None
      (Some (TInt 7)) true ramp_state = Ok p' /\
    dac_ts p' = <[Z.to_nat 1 := 7 + 4]> (dac_ts ramp_state).
Proof.
  apply (arb_pulse_timestamp 1 "ramp"
           (Channel 64
              {["ramp" := Pinfo (Some (replicate 64 0)) (Some (replicate 64 0)) 0 (Some 4)
                            "flat_top" None]} None)
           (Pinfo (Some (replicate 64 0)) (Some (replicate 64 0)) 0 (Some 4) "flat_top" None)
           4 0 (TInt 7));
    first [lia | reflexivity].
Defined.

(** ** [sync_all] *)








(** ** The pulse library *)

Lemma add_pulse_envelope_spec ch nm sty i q l p p' :
  sty = "arb" \/ sty = "flat_top" ->
  add_pulse ch nm sty (Some i) q l p = Ok p' ->
  exists c q',
    channels p !! ch = Some c /\
    Z.of_nat (List.length i) `mod` 16 = 0 /\
    channels p' =
      <[ch := Channel (ch_addr c + Z.of_nat (List.length i))
                (<[nm := Pinfo (Some i) q' (ch_addr c)
                           (Some (Z.of_nat (List.length i) `div` 16)) sty None]> (pulses c))
                (last_pulse c)]> (channels p).
Proof.
  intros Hsty. unfold add_pulse.
  destruct q as [qd |]; cbv beta iota zeta;
    (destruct (Z.eqb_spec (Z.of_nat (List.length i) `mod` 16) 0) as [Hm | Hm];
     simpl negb; cbv iota; [| discriminate];
     assert ((sty =? "arb")%string || (sty =? "flat_top")%string = true) as ->
       by (destruct Hsty as [-> | ->]; reflexivity);
     unfold chan; destruct (channels p !! ch) as [c |]; [| discriminate];
     ok_step; simpl from_option; ok_step; intros [= <-];
     eexists c, _; repeat split; exact Hm).
Qed.

(** X10: envelopes registered one after the other on a channel occupy
    consecutive address ranges: the second one starts where the first one
    ends, and the stored length of an envelope is its number of samples
    divided by 16, which divides it exactly. *)
Theorem add_pulse_addresses_consecutive ch n1 n2 s1 s2 i1 i2 q1 q2 l1 l2 p p1 p2 :
  s1 = "arb" \/ s1 = "flat_top" -> s2 = "arb" \/ s2 = "flat_top" -> n1 <> n2 ->
  add_pulse ch n1 s1 (Some i1) q1 l1 p = Ok p1 ->
  add_pulse ch n2 s2 (Some i2) q2 l2 p1 = Ok p2 ->
  exists pi1 pi2,
    get_pinfo p2 ch n1 = Ok pi1 /\ get_pinfo p2 ch n2 = Ok pi2 /\
    pi_addr pi2 = pi_addr pi1 + Z.of_nat (List.length i1) /\
    pi_length pi1 = Some (Z.of_nat (List.length i1) `div` 16) /\
    16 * (Z.of_nat (List.length i1) `div` 16) = Z.of_nat (List.length i1).
Proof.
  intros Hs1 Hs2 Hne H1 H2.
  destruct (add_pulse_envelope_spec _ _ _ _ _ _ _ _ Hs1 H1) as (c1 & q1' & Hc1 & Hm1 & E1).
  destruct (add_pulse_envelope_spec _ _ _ _ _ _ _ _ Hs2 H2) as (c2 & q2' & Hc2 & Hm2 & E2).
  rewrite E1, lookup_insert_eq in Hc2. injection Hc2 as <-.
  cbn [ch_addr pulses last_pulse] in E2.
  eexists _, _. split; [| split].
  - eapply get_pinfo_ok; [rewrite E2; apply lookup_insert_eq |].
    cbn [pulses]. rewrite lookup_insert_ne by congruence. apply lookup_insert_eq.
  - eapply get_pinfo_ok; [rewrite E2; apply lookup_insert_eq |].
    cbn [pulses]. apply lookup_insert_eq.
  - cbn [pi_addr pi_length]. repeat split. divmod.
Qed.

Lemma add_pulse_addresses_witness :
  exists pi1 pi2,
    get_pinfo
      (match add_pulse 1 "second" "arb" (Some (replicate 32 0)) None None ramp_state with
       | Ok p => p
       | Raise _ => init
       end) 1 "ramp" = Ok pi1 /\
    get_pinfo
      (match add_pulse 1 "second" "arb" (Some (replicate 32 0)) None None ramp_state with
       | Ok p => p
       | Raise _ => init
       end) 1 "second" = Ok pi2 /\
    pi_addr pi2 = pi_addr pi1 + Z.of_nat (List.length (replicate 64 0)) /\
    pi_length pi1 = Some (Z.of_nat (List.length (replicate 64 0)) `div` 16) /\
    16 * (Z.of_nat (List.length (replicate 64 0)) `div` 16)
    = Z.of_nat (List.length (replicate 64 0)).
Proof.
  apply (add_pulse_addresses_consecutive 1 "ramp" "second" "flat_top" "arb"
           (replicate 64 0) (replicate 32 0) None None (Some 10) None init ramp_state);
    first [right; reflexivity | left; reflexivity | discriminate | reflexivity].
Defined.

(** X11: [add_pulse] with a style other than [arb], [flat_top] and
    [const] registers nothing: when it returns, the program is unchanged,
    and playing the name through [pulse] raises [KeyError] unless the name
    was in the channel's library before. *)
Theorem add_pulse_unknown_style ch nm sty i q l p p' c
    freq phase gain phrst stdysel mode outsel length t play :
  sty <> "arb" -> sty <> "flat_top" -> sty <> "const" ->
  add_pulse ch nm sty i q l p = Ok p' ->
  channels p !! ch = Some c -> pulses c !! nm = None ->
  p' = p /\
  pulse ch (Some nm) freq phase gain phrst stdysel mode outsel length t play p'
  = Raise KeyError.
Proof.
  intros H1 H2 H3 H Hc Hnm.
  assert (p' = p) as ->.
  { unfold add_pulse in H.
    destruct (match _ with Some i0 => _ | None => false end); [discriminate |].
    apply String.eqb_neq in H1, H2, H3. rewrite H1, H2, H3 in H. simpl in H.
    injection H as <-. reflexivity. }
  split; [reflexivity |].
  unfold pulse. ok_step. unfold get_pinfo, chan. rewrite Hc. ok_step.
  unfold dict_get. rewrite Hnm. reflexivity.
Qed.

Lemma add_pulse_unknown_style_witness :
  init = init /\
  pulse 1 (Some "p") None None None None None None None None (Some TAuto) true init
  = Raise KeyError.
Proof.
  apply (add_pulse_unknown_style 1 "p" "poly" None None None init init (Channel 0 ∅ None));
    first [discriminate | reflexivity].
Defined.

(** ** Phase registers *)

(** X12: for a whole number of degrees, [deg2reg] maps a full turn to
    [2^32] (so the register value wraps modulo [2^32]); within one turn
    the value is a 32-bit number, and converting it back with [reg2deg]
    never overshoots and loses less than one register step. *)
Theorem deg2reg_turn_and_round_trip deg k :
  deg2reg (deg + 360 * k) = deg2reg deg + k * 2 ^ 32 /\
  (0 <= deg < 360 ->
   0 <= deg2reg deg < 2 ^ 32 /\
   (reg2deg (deg2reg deg) <= inject_Z deg)%Q /\
   (inject_Z deg < reg2deg (deg2reg deg + 1))%Q).
Proof.
  unfold deg2reg, reg2deg. split; [divmod |].
  intros Hdeg. split; [divmod |]. split.
  - unfold Qle, Qdiv, Qmult, Qinv, inject_Z. cbn [Qnum Qden].
    change (2 ^ 32) with 4294967296. cbv beta iota. cbn [Qnum Qden Pos.mul]. divmod.
  - unfold Qlt, Qdiv, Qmult, Qinv, inject_Z. cbn [Qnum Qden].
    change (2 ^ 32) with 4294967296. cbv beta iota. cbn [Qnum Qden Pos.mul]. divmod.
Qed.

Lemma deg2reg_witness :
  0 <= deg2reg 90 < 2 ^ 32 /\
  (reg2deg (deg2reg 90) <= inject_Z 90)%Q /\
  (inject_Z 90 < reg2deg (deg2reg 90 + 1))%Q.
Proof.
  apply (proj2 (deg2reg_turn_and_round_trip 90 0)). lia.
Defined.

End QickAsmEncoding.

(** * Waves, parameters, envelopes and listings of [asm_v2.py] *)

Section AsmV2Coverage.
Import AsmV2 AsmV2Spec.

(** ** The words of a wave *)

Lemma int32_of_le_bytes v :
  signed_fits 4 v = true ->
  match le_bytes 4 v with
  | [b0; b1; b2; b3] => int32_of_bytes b0 b1 b2 b3 = v
  | _ => False
  end.
Proof.
  unfold signed_fits. intros H. apply andb_prop in H. destruct H as [H1 H2].
  apply Z.leb_le in H1. apply Z.ltb_lt in H2.
  change (8 * Z.of_nat 4 - 1) with 31 in *.
  cbn [le_bytes]. unfold int32_of_bytes.
  match goal with |- context [?u <? 2 ^ 31] => destruct (Z.ltb_spec u (2 ^ 31)) end; divmod.
Qed.

Lemma wave_fits_fields w :
  wave_fits w = true ->
  signed_fits 4 (freq w) = true /\ signed_fits 4 (phase w) = true /\
  signed_fits 3 (env w) = true /\ signed_fits 4 (gain w) = true /\
  signed_fits 4 (length w) = true /\ signed_fits 2 (conf w) = true.
Proof.
  unfold wave_fits, fields, widths. cbn [zip zip_with forallb]. intros H.
  repeat (apply andb_prop in H; destruct H as [? H]). auto 10.
Qed.

Lemma paddedbytes_fits w :
  wave_fits w = true ->
  paddedbytes w =
  Ok (le_bytes 4 (freq w) ++ le_bytes 4 (phase w) ++ le_bytes 3 (env w) ++ [0] ++
      le_bytes 4 (gain w) ++ le_bytes 4 (length w) ++ le_bytes 2 (conf w) ++
      replicate 10 0).
Proof.
  intros H. destruct (wave_fits_fields w H) as (H1 & H2 & H3 & H4 & H5 & H6).
  unfold paddedbytes, rawbytes, fields, widths. cbn [zip zip_with mapM].
  rewrite !to_bytes_fits by assumption. reflexivity.
Qed.

(** The closed form of [Wave.compile]. *)
Lemma compile_closed_form w :
  compile w = if wave_fits w then Ok (wave_words w) else Raise OverflowError.
Proof.
  destruct (wave_fits w) eqn:Hfit.
  - unfold compile. rewrite (paddedbytes_fits w Hfit), bind_ok_l.
    destruct (wave_fits_fields w Hfit) as (H1 & H2 & H3 & H4 & H5 & H6).
    pose proof (int32_of_le_bytes _ H1) as E1. pose proof (int32_of_le_bytes _ H2) as E2.
    pose proof (int32_of_le_bytes _ H4) as E4. pose proof (int32_of_le_bytes _ H5) as E5.
    cbn [le_bytes] in E1, E2, E4, E5.
    cbn [le_bytes app replicate List.length frombuffer_int32].
    rewrite E1, E2, E4, E5. cbn -[int32_of_bytes Z.modulo Z.div Z.pow].
    unfold wave_words.
    assert (forall a b c, 0 <= a < 256 -> 0 <= b < 256 -> 0 <= c < 256 ->
              int32_of_bytes a b c 0 = a + 256 * b + 65536 * c) as Hlow.
    { intros a b c Ha Hb Hc. unfold int32_of_bytes.
      match goal with |- context [?u <? 2 ^ 31] => destruct (Z.ltb_spec u (2 ^ 31)) end; lia. }
    rewrite Hlow by divmod. rewrite (Hlow _ _ 0) by divmod.
    change (int32_of_bytes 0 0 0 0) with 0.
    repeat f_equal; divmod.
  - unfold compile, paddedbytes, rawbytes, fields, widths. cbn [zip zip_with mapM].
    unfold wave_fits, fields, widths in Hfit. cbn [zip zip_with forallb] in Hfit.
    unfold to_bytes.
    destruct (signed_fits 4 (freq w)), (signed_fits 4 (phase w)), (signed_fits 3 (env w)),
      (signed_fits 4 (gain w)), (signed_fits 4 (length w)), (signed_fits 2 (conf w));
      first [discriminate Hfit | reflexivity].
Qed.

Lemma wave_words_read_back w :
  wave_fits w = true -> wave_of_words (wave_words w) = Some w.
Proof.
  intros H. destruct (wave_fits_fields w H) as (H1 & H2 & H3 & H4 & H5 & H6).
  unfold signed_fits in H3, H6.
  apply andb_prop in H3, H6. destruct H3 as [H3 H3'], H6 as [H6 H6'].
  apply Z.leb_le in H3, H6. apply Z.ltb_lt in H3', H6'.
  change (8 * Z.of_nat 3 - 1) with 23 in *. change (8 * Z.of_nat 2 - 1) with 15 in *.
  unfold wave_words, wave_of_words, sext. destruct w as [f p e g l c]. cbn [freq phase env gain length conf] in *.
  do 2 f_equal; divmod.
Qed.

(** X13: the eight words that [Wave.compile] returns determine the wave:
    each is a signed 32-bit number, and reading the fields back from them
    (the envelope address from 24 bits, the configuration from 16 bits,
    sign-extended) gives the wave that was compiled. *)
Theorem wave_compile_round_trip w ws :
  compile w = Ok ws ->
  wave_of_words ws = Some w /\ Forall (fun x => - 2 ^ 31 <= x < 2 ^ 31) ws.
Proof.
  rewrite compile_closed_form. destruct (wave_fits w) eqn:Hfit; [| discriminate].
  intros [= <-]. split; [apply wave_words_read_back; exact Hfit |].
  destruct (wave_fits_fields w Hfit) as (H1 & H2 & H3 & H4 & H5 & H6).
  unfold signed_fits in *.
  repeat match goal with
         | H : _ && _ = true |- _ =>
             apply andb_prop in H; let H' := fresh in destruct H as [H H'];
             apply Z.leb_le in H; apply Z.ltb_lt in H'
         end.
  change (8 * Z.of_nat 4 - 1) with 31 in *.
  unfold wave_words. repeat constructor; first [lia | divmod].
Qed.

Lemma wave_compile_round_trip_witness :
  wave_of_words [100; 50; 3; 1000; 200; 5; 0; 0] = Some example_wave /\
  Forall (fun x => - 2 ^ 31 <= x < 2 ^ 31) [100; 50; 3; 1000; 200; 5; 0; 0].
Proof.
  apply (wave_compile_round_trip example_wave). reflexivity.
Defined.

(** X14: when [compile_waves] returns, the wave memory has one row per
    entry of the wave table, in the order of the table, and every row
    reads back as the wave of its entry; an entry that does not fit its
    field widths makes it raise [OverflowError] instead. *)
Theorem compile_waves_rows p :
  (forall rows, compile_waves p = Ok rows ->
     Forall2 (fun e r => wave_of_words r = Some e.2) (wave_table p) rows) /\
  (Exists (fun e => wave_fits e.2 = false) (wave_table p) ->
   compile_waves p = Raise OverflowError).
Proof.
  unfold compile_waves. generalize (wave_table p) as t. clear p. split.
  - induction t as [| [nm w] t IH]; intros rows H.
    + injection H as <-. constructor.
    + cbn [mapM] in H. inv_bind H. inv_bind H. injection H as <-.
      constructor; [| apply IH; exact E0].
      rewrite compile_closed_form in E.
      destruct (wave_fits w) eqn:Hfit; [| discriminate E].
      injection E as <-. apply wave_words_read_back. exact Hfit.
  - induction t as [| [nm w] t IH]; intros H.
    + inversion H.
    + cbn [mapM]. rewrite compile_closed_form.
      destruct (wave_fits w) eqn:Hfit; [| reflexivity].
      inversion H as [? ? Hw | ? ? Ht]; subst; [simpl in Hw; congruence |].
      rewrite bind_ok_l, (IH Ht). reflexivity.
Qed.

Lemma compile_waves_rows_witness :
  Forall2 (fun e r => wave_of_words r = Some e.2) (wave_table arb_state)
    [[100; 0; 0; 32766; 4; 8; 0; 0]].
Proof.
  apply (proj1 (compile_waves_rows arb_state)). reflexivity.
Defined.

(** ** Generator settings *)

Lemma dict_get_list {V : Type} (l : list (string * V)) (k : string) (v : V) :
  dict_get (list_to_map l : gmap string V) k = Ok v -> (k, v) ∈ l.
Proof.
  unfold dict_get. destruct (_ !! k) as [x |] eqn:E; [| discriminate].
  intros [= <-]. apply elem_of_list_to_map_2 in E. exact E.
Qed.

(** X15: the configuration register determines the generator settings:
    when [cfg2reg] returns [r], the two low bits of [r] are the position of
    the output selection among product, dds, input, zero; bit 2 tells
    oneshot from periodic, bit 3 last from zero, and [r // 16] is the
    phase-reset flag, a setting that is not given taking its default. *)
Theorem cfg2reg_decodes outsel mode stdysel phrst r :
  cfg2reg outsel mode stdysel phrst = Ok r ->
  exists o m s ph,
    default (PStr "product") outsel = PStr o /\
    default (PStr "oneshot") mode = PStr m /\
    default (PStr "zero") stdysel = PStr s /\
    default (PInt 0) phrst = PInt ph /\
    outsel_names !! Z.to_nat (r `mod` 4) = Some o /\
    mode_names !! Z.to_nat ((r `div` 4) `mod` 2) = Some m /\
    stdysel_names !! Z.to_nat ((r `div` 8) `mod` 2) = Some s /\
    r `div` 16 = ph.
Proof.
  unfold cfg2reg. intros H.
  destruct (default (PStr "product") outsel) as [o | |]; try discriminate.
  cbn [as_key] in H. rewrite bind_ok_l in H. inv_bind H. apply dict_get_list in E.
  destruct (default (PStr "oneshot") mode) as [m | |]; try discriminate.
  cbn [as_key] in H. rewrite bind_ok_l in H. inv_bind H. apply dict_get_list in E0.
  destruct (default (PStr "zero") stdysel) as [s | |]; try discriminate.
  cbn [as_key] in H. rewrite bind_ok_l in H. inv_bind H. apply dict_get_list in E1.
  destruct (default (PInt 0) phrst) as [| ph |]; try discriminate.
  cbn [as_int] in H. rewrite bind_ok_l in H. injection H as <-.
  exists o, m, s, ph. do 4 (split; [reflexivity |]).
  repeat (apply elem_of_cons in E; destruct E as [[= -> ->] | E]);
    [| | | | apply elem_of_nil in E; destruct E];
    (repeat (apply elem_of_cons in E0; destruct E0 as [[= -> ->] | E0]);
     [| | apply elem_of_nil in E0; destruct E0];
     (repeat (apply elem_of_cons in E1; destruct E1 as [[= -> ->] | E1]);
      [| | apply elem_of_nil in E1; destruct E1];
      (assert (forall a b c, 0 <= a < 4 -> 0 <= b < 2 -> 0 <= c < 2 ->
                 (ph * 16 + c * 8 + b * 4 + a) `mod` 4 = a /\
                 ((ph * 16 + c * 8 + b * 4 + a) `div` 4) `mod` 2 = b /\
                 ((ph * 16 + c * 8 + b * 4 + a) `div` 8) `mod` 2 = c /\
                 (ph * 16 + c * 8 + b * 4 + a) `div` 16 = ph) as Hd
         by (intros; divmod);
       match goal with
       | |- context [(ph * 16 + ?c * 8 + ?b * 4 + ?a) `div` 16] =>
           destruct (Hd a b c ltac:(lia) ltac:(lia) ltac:(lia)) as (-> & -> & -> & ->)
       end; repeat split))).
Qed.

Lemma cfg2reg_decodes_witness :
  exists o m s ph,
    default (PStr "product") (Some (PStr "dds")) = PStr o /\
    default (PStr "oneshot") None = PStr m /\
    default (PStr "zero") None = PStr s /\
    default (PInt 0) (Some (PInt 1)) = PInt ph /\
    outsel_names !! Z.to_nat (25 `mod` 4) = Some o /\
    mode_names !! Z.to_nat ((25 `div` 4) `mod` 2) = Some m /\
    stdysel_names !! Z.to_nat ((25 `div` 8) `mod` 2) = Some s /\
    25 `div` 16 = ph.
Proof.
  apply (cfg2reg_decodes (Some (PStr "dds")) None None (Some (PInt 1)) 25). reflexivity.
Defined.

(** ** Pulse parameters *)

(** X16: [check_params] accepts a parameter dictionary exactly when its
    style is one of the three known styles, every parameter required for
    the style is defined, and every defined parameter is required or
    optional for the style. *)
Theorem check_params_accepts params :
  check_params params = Ok tt <->
  exists style req opt,
    params !! "style" = Some (PStr style) /\
    PARAMS_REQUIRED !! style = Some req /\ PARAMS_OPTIONAL !! style = Some opt /\
    (forall k, k ∈ req -> is_Some (params !! k)) /\
    (forall k, is_Some (params !! k) -> k ∈ req \/ k ∈ opt).
Proof.
  unfold check_params, dict_get. split.
  - intros H.
    destruct (params !! "style") as [sv |] eqn:Es; [| discriminate].
    rewrite bind_ok_l in H. destruct sv as [style | |]; try discriminate.
    cbn [as_key] in H. rewrite bind_ok_l in H.
    destruct (PARAMS_REQUIRED !! style) as [req |] eqn:Er; [| discriminate].
    rewrite bind_ok_l in H.
    destruct (PARAMS_OPTIONAL !! style) as [opt |] eqn:Eo; [| discriminate].
    rewrite bind_ok_l in H. cbv zeta in H.
    destruct (bool_decide_reflect (list_to_set req ∖ dom params = (∅ : gset string)))
      as [H1 |]; [| discriminate].
    destruct (bool_decide_reflect
                (dom params ∖ (list_to_set req ∪ list_to_set opt) = (∅ : gset string)))
      as [H2 |]; [| discriminate].
    exists style, req, opt. split; [reflexivity |]. do 2 (split; [assumption |]). split.
    + intros k Hk. apply elem_of_dom.
      destruct (decide (k ∈ dom params)) as [| Hn]; [assumption |].
      assert (k ∈ (list_to_set req ∖ dom params : gset string)) as Hin
        by (apply elem_of_difference; split; [apply elem_of_list_to_set; exact Hk | exact Hn]).
      rewrite H1 in Hin. apply elem_of_empty in Hin. destruct Hin.
    + intros k Hk. apply elem_of_dom in Hk.
      destruct (decide (k ∈ (list_to_set req ∪ list_to_set opt : gset string))) as [Hin | Hn].
      * apply elem_of_union in Hin. rewrite !elem_of_list_to_set in Hin. exact Hin.
      * assert (k ∈ (dom params ∖ (list_to_set req ∪ list_to_set opt) : gset string)) as Hin
          by (apply elem_of_difference; split; assumption).
        rewrite H2 in Hin. apply elem_of_empty in Hin. destruct Hin.
  - intros (style & req & opt & Hs & Hr & Ho & Hreq & Hall).
    rewrite Hs, bind_ok_l. cbn [as_key]. rewrite bind_ok_l, Hr, bind_ok_l, Ho, bind_ok_l.
    cbv zeta.
    rewrite bool_decide_eq_true_2.
    2:{ apply set_eq. intros k. rewrite elem_of_difference, elem_of_list_to_set, elem_of_dom.
        split; [intros [Hk Hn]; destruct Hn; apply Hreq; exact Hk |].
        intros Hk. apply elem_of_empty in Hk. destruct Hk. }
    rewrite bool_decide_eq_true_2; [reflexivity |].
    apply set_eq. intros k.
    rewrite elem_of_difference, elem_of_union, !elem_of_list_to_set, elem_of_dom.
    split; [intros [Hk Hn]; destruct Hn; apply Hall; exact Hk |].
    intros Hk. apply elem_of_empty in Hk. destruct Hk.
Qed.

Lemma params2pulse_const B ch gcfg envs params :
  params !! "style" = Some (PStr "const") ->
  is_ok (params2pulse B ch gcfg envs params) = false.
Proof.
  intros Hs. unfold params2pulse.
  repeat match goal with
         | |- is_ok (?m ≫= _) = false =>
             let E := fresh "E" in
             destruct m eqn:E; [rewrite bind_ok_l; cbv beta iota zeta | reflexivity]
         end.
  match goal with
  | E : dict_get params "style" = Ok ?a |- _ =>
      unfold dict_get in E; rewrite Hs in E; injection E as <-
  end.
  reflexivity.
Qed.

(** X17: a pulse of style [const] cannot be added: whatever the other
    parameters, the generator and the program, [add_pulse] raises an
    exception ([params2wave] is called without the length register). *)
Theorem add_pulse_const_fails B ch nm kwargs p :
  kwargs !! "style" = Some (PStr "const") ->
  is_ok (add_pulse B ch nm kwargs p) = false.
Proof.
  intros Hs. unfold add_pulse.
  destruct (py_index _ ch); [| reflexivity].
  destruct (list_get (gens (cfg p)) _); [rewrite bind_ok_l | reflexivity].
  destruct (list_get (envelopes p) _); [rewrite bind_ok_l | reflexivity].
  unfold mgr_add_pulse.
  destruct (check_params kwargs); [rewrite bind_ok_l | reflexivity].
  pose proof (params2pulse_const B (Z.of_nat n) a a0 kwargs Hs) as Hp.
  destruct (params2pulse B (Z.of_nat n) a a0 kwargs); [discriminate Hp | reflexivity].
Qed.

Lemma add_pulse_const_fails_witness :
  is_ok (add_pulse base1 0 "c"
           (list_to_map [("style", PStr "const"); ("freq", PFloat 100%Q); ("phase", PInt 0);
                         ("gain", PFloat 1%Q); ("length", PFloat 1%Q)]) pulse_state) = false.
Proof.
  apply (add_pulse_const_fails base1 0 "c"). reflexivity.
Defined.

(** ** Envelopes *)


Lemma env_column_spec mx len d col :
  env_column mx len d = Ok col ->
  match d with
  | None => col = replicate len 0
  | Some x => x <> [] /\ col = int16 <$> x /\ Forall (fun v => Z.abs v <= mx) x
  end.
Proof.
  unfold env_column. destruct d as [x |]; [| intros [= <-]; reflexivity].
  intros H. inv_bind H. destruct (Z.ltb_spec mx x0); [discriminate |].
  injection H as <-. split; [| split; [reflexivity |]].
  - intros ->. discriminate E.
  - apply Forall_forall. intros v Hv.
    pose proof (py_max_ge (Z.abs <$> x) x0 (Z.abs v) E) as Hle.
    assert (Z.abs v ∈ Z.abs <$> x) as Hin by (apply list_elem_of_fmap; eauto).
    specialize (Hle Hin). lia.
Qed.

Lemma env_column_length mx len d col :
  env_column mx len d = Ok col ->
  List.length col = match d with Some x => List.length x | None => len end.
Proof.
  intros H. apply env_column_spec in H. destruct d as [x |].
  - destruct H as (_ & -> & _). apply length_fmap.
  - subst col. apply length_replicate.
Qed.

(** What a successful [add_envelope] did. *)
Lemma add_envelope_spec gcfg nm idata qdata m m' :
  add_envelope gcfg nm idata qdata m = Ok m' ->
  exists len ci cq,
    omap (fmap (M := option) (@List.length Z)) [idata; qdata] <> [] /\
    (forall x, idata = Some x -> List.length x = len) /\
    (forall x, qdata = Some x -> List.length x = len) /\
    samps_per_clk gcfg <> 0 /\ Z.of_nat len `mod` samps_per_clk gcfg = 0 /\
    env_column (maxv gcfg) len idata = Ok ci /\
    env_column (maxv gcfg) len qdata = Ok cq /\
    List.length (zip ci cq) = len /\
    m' = GenMgr (<[nm := Envelope (zip ci cq) (mgr_addr m)]> (mgr_envelopes m))
                (mgr_addr m + Z.of_nat len).
Proof.
  unfold add_envelope. intros H.
  destruct idata as [i |], qdata as [q |]; cbn [omap fmap option_fmap option_map list_omap] in H;
    try discriminate H;
    (match type of H with
     | (if negb (?a =? ?b)%nat then _ else _) = _ =>
         destruct (Nat.eqb_spec a b) as [Heq |]; [| discriminate H]
     | _ => idtac
     end;
     cbn [negb] in H;
     destruct (Z.eqb_spec (samps_per_clk gcfg) 0) as [| Hspc]; [discriminate H |];
     match type of H with
     | (if negb (?a =? 0) then _ else _) = _ =>
         destruct (Z.eqb_spec a 0) as [Hm |]; [| discriminate H]
     end;
     cbn [negb] in H;
     inv_bind H; inv_bind H; injection H as <-;
     pose proof (env_column_length _ _ _ _ E) as L1;
     pose proof (env_column_length _ _ _ _ E0) as L2;
     eexists _, x, x0;
     split; [cbn [omap fmap option_fmap option_map list_omap]; discriminate |];
     split; [intros ? [= <-]; first [reflexivity | symmetry; exact Heq] |];
     split; [intros ? [= <-]; first [reflexivity | symmetry; exact Heq | exact Heq] |];
     split; [exact Hspc |]; split; [exact Hm |];
     split; [exact E |]; split; [exact E0 |];
     split; [rewrite length_zip, L1, L2; lia | reflexivity]).
Qed.




(** X19: the envelope memory stays laid out in whole clock ticks: a fresh
    manager is aligned, [add_envelope] keeps a manager aligned, and the
    new envelope starts at or above the end of every envelope stored
    under another name. *)
Theorem add_envelope_keeps_aligned gcfg nm idata qdata m m' :
  aligned (samps_per_clk gcfg) (new_genmgr ∅) /\
  (aligned (samps_per_clk gcfg) m ->
   add_envelope gcfg nm idata qdata m = Ok m' ->
   aligned (samps_per_clk gcfg) m' /\
   forall nm' e e', nm' <> nm ->
     mgr_envelopes m' !! nm = Some e -> mgr_envelopes m' !! nm' = Some e' ->
     (env_range e').2 <= (env_range e).1).
Proof.
  split.
  - unfold aligned. cbn [new_genmgr mgr_envelopes mgr_addr].
    split; [lia |]. split; [apply Zmod_0_l |].
    intros nm0 e H. rewrite lookup_empty in H. discriminate H.
  - intros (Ha0 & Ha & Hall) H.
    destruct (add_envelope_spec _ _ _ _ _ _ H)
      as (len & ci & cq & Hne & Hi & Hq & Hspc & Hm & Ei & Eq & Hz & ->).
    unfold aligned. cbn [mgr_envelopes mgr_addr]. split.
    + split; [lia |]. split.
      * rewrite <- Z.add_mod_idemp_l, Ha, Z.add_0_l by exact Hspc. exact Hm.
      * intros nm0 e He. destruct (decide (nm0 = nm)) as [-> | Hn].
        -- rewrite lookup_insert_eq in He. injection He as <-.
           cbn [env_addr data]. rewrite Hz. repeat split; first [assumption | lia].
        -- rewrite lookup_insert_ne in He by congruence.
           destruct (Hall nm0 e He) as (? & ? & ? & ?). repeat split; first [assumption | lia].
    + intros nm' e e' Hn He He'.
      rewrite lookup_insert_eq in He. injection He as <-.
      rewrite lookup_insert_ne in He' by congruence.
      destruct (Hall nm' e' He') as (? & ? & ? & ?). cbn [env_range fst snd env_addr]. lia.
Qed.

Lemma add_envelope_keeps_aligned_witness :
  aligned (samps_per_clk gen1) ramp_mgr /\
  forall nm' e e', nm' <> "ramp" ->
    mgr_envelopes ramp_mgr !! "ramp" = Some e -> mgr_envelopes ramp_mgr !! nm' = Some e' ->
    (env_range e').2 <= (env_range e).1.
Proof.
  apply (proj2 (add_envelope_keeps_aligned gen1 "ramp" (Some (replicate 64 100)) None
                  (new_genmgr ∅) ramp_mgr)); [| reflexivity].
  apply (proj1 (add_envelope_keeps_aligned gen1 "ramp" None None (new_genmgr ∅)
                  (new_genmgr ∅))).
Defined.




(** ** Pulses over envelopes *)

Lemma params2pulse_arb B ch gcfg envs params pl :
  params !! "style" = Some (PStr "arb") ->
  params2pulse B ch gcfg envs params = Ok pl ->
  exists en e w,
    params !! "envelope" = Some (PStr en) /\ envs !! en = Some e /\
    samps_per_clk gcfg <> 0 /\
    pl = Pulse [w] None (Some (length w)) [] /\
    length w = Z.of_nat (List.length (data e)) `div` samps_per_clk gcfg /\
    env w = env_addr e `div` samps_per_clk gcfg /\
    3 <= length w < 2 ^ 16.
Proof.
  intros Hs H. unfold params2pulse in H.
  do 7 inv_bind H. inv_bind H.
  unfold dict_get in E6. rewrite Hs in E6. injection E6 as <-.
  cbn [style_is String.eqb Ascii.eqb Bool.eqb] in H. cbv iota in H.
  destruct x5 as [[elen eaddr] |]; [| discriminate H].
  cbn [from_option] in H. rewrite bind_ok_l in H. cbv beta iota in H.
  inv_bind H. injection H as <-.
  destruct (params !! "envelope") as [ev |]; [| discriminate E5].
  inv_bind E5. inv_bind E5.
  destruct ev as [en | |]; try discriminate E7. injection E7 as <-.
  unfold dict_get in E8. destruct (envs !! en) as [e |] eqn:Ee; [| discriminate E8].
  injection E8 as <-.
  destruct (Z.eqb_spec (samps_per_clk gcfg) 0) as [| Hspc]; [discriminate E5 |].
  injection E5 as <- <-.
  unfold params2wave in E6. cbn [wp_freqreg wp_phasereg wp_gainreg wp_lenreg wp_env
                                  from_option default] in E6.
  rewrite !bind_ok_l in E6.
  match type of E6 with
  | (if ?c then _ else _) = _ => destruct c eqn:Hc; [discriminate E6 |]
  end.
  inv_bind E6. injection E6 as <-.
  apply orb_false_elim in Hc. destruct Hc as [Hc1 Hc2].
  apply Z.leb_gt in Hc1. apply Z.ltb_ge in Hc2.
  eexists en, e, (MkWave _ _ _ _ _ _).
  split; [reflexivity |]. split; [exact Ee |]. split; [exact Hspc |].
  split; [reflexivity |]. cbn [length env]. repeat split; first [assumption | lia].
Qed.

(** X21: an [arb] pulse over an envelope that [add_envelope] has just
    stored in an aligned manager compiles to a single wave that covers the
    envelope exactly: its length in clock ticks times [samps_per_clk] is
    the number of samples, its envelope address times [samps_per_clk] is
    the address at which the envelope was stored, and the pulse length is
    the wave length, between 3 and [2^16 - 1]. *)
Theorem arb_pulse_covers_envelope B ch gcfg en idata qdata m m' params pl :
  aligned (samps_per_clk gcfg) m ->
  add_envelope gcfg en idata qdata m = Ok m' ->
  params !! "style" = Some (PStr "arb") ->
  params !! "envelope" = Some (PStr en) ->
  params2pulse B ch gcfg (mgr_envelopes m') params = Ok pl ->
  exists w e,
    mgr_envelopes m' !! en = Some e /\ env_addr e = mgr_addr m /\
    waves pl = [w] /\ p_length pl = Some (length w) /\
    length w * samps_per_clk gcfg = Z.of_nat (List.length (data e)) /\
    env w * samps_per_clk gcfg = mgr_addr m /\
    3 <= length w < 2 ^ 16.
Proof.
  intros (Ha0 & Ha & _) Hadd Hs He Hp.
  destruct (add_envelope_spec _ _ _ _ _ _ Hadd)
    as (len & ci & cq & Hne & Hi & Hq & Hspc & Hm & Ei & Eq & Hz & ->).
  destruct (params2pulse_arb _ _ _ _ _ _ Hs Hp)
    as (en' & e & w & He' & Hlook & _ & -> & Hl & Hv & Hr).
  rewrite He in He'. injection He' as <-.
  cbn [mgr_envelopes] in Hlook. rewrite lookup_insert_eq in Hlook. injection Hlook as <-.
  cbn [data env_addr] in *. rewrite Hz in Hl.
  exists w, (Envelope (zip ci cq) (mgr_addr m)). cbn [mgr_envelopes data env_addr waves p_length].
  rewrite lookup_insert_eq, Hz.
  repeat split; try assumption; try lia.
  - rewrite Hl. pose proof (Z.div_mod (Z.of_nat len) (samps_per_clk gcfg) Hspc). lia.
  - rewrite Hv. pose proof (Z.div_mod (mgr_addr m) (samps_per_clk gcfg) Hspc). lia.
Qed.

Lemma arb_pulse_covers_envelope_witness :
  exists w e,
    mgr_envelopes ramp_mgr !! "ramp" = Some e /\ env_addr e = mgr_addr (new_genmgr ∅) /\
    waves (Pulse [MkWave 100 0 0 32766 4 8] None (Some 4) []) = [w] /\
    p_length (Pulse [MkWave 100 0 0 32766 4 8] None (Some 4) []) = Some (length w) /\
    length w * samps_per_clk gen1 = Z.of_nat (List.length (data e)) /\
    env w * samps_per_clk gen1 = mgr_addr (new_genmgr ∅) /\
    3 <= length w < 2 ^ 16.
Proof.
  apply (arb_pulse_covers_envelope base1 0 gen1 "ramp" (Some (replicate 64 100)) None
           (new_genmgr ∅) ramp_mgr arb_kwargs
           (Pulse [MkWave 100 0 0 32766 4 8] None (Some 4) []));
    [| reflexivity | reflexivity | reflexivity | reflexivity].
  split; [simpl; lia |]. split; [reflexivity |].
  intros nm e H. cbn [new_genmgr mgr_envelopes] in H. rewrite lookup_empty in H.
  discriminate H.
Defined.

Lemma params2pulse_flat_top B ch gcfg envs params pl :
  params !! "style" = Some (PStr "flat_top") ->
  params2pulse B ch gcfg envs params = Ok pl -> pl = Pulse [] None None [].
Proof.
  intros Hs H. unfold params2pulse in H.
  do 7 inv_bind H. inv_bind H.
  unfold dict_get in E6. rewrite Hs in E6. injection E6 as <-.
  cbn [style_is String.eqb Ascii.eqb Bool.eqb] in H. cbv iota in H.
  injection H as <-. reflexivity.
Qed.

(** X22: a pulse of style [flat_top] that [add_pulse] accepts is stored
    without any wave and without a length: the wave table is unchanged,
    and playing the pulse raises [KeyError] on every channel and at every
    time. *)
Theorem add_pulse_flat_top_unplayable B ch nm kwargs p p' ch' t :
  kwargs !! "style" = Some (PStr "flat_top") ->
  add_pulse B ch nm kwargs p = Ok p' ->
  wave_table p' = wave_table p /\
  pulses p' !! nm = Some (Pulse [] None None []) /\
  pulse_ ch' nm t p' = Raise KeyError.
Proof.
  intros Hs H. apply add_pulse_manager in H. destruct H as (n & gcfg & envs & H).
  unfold mgr_add_pulse in H. inv_bind H. inv_bind H.
  apply (params2pulse_flat_top _ _ _ _ _ _ Hs) in E0. subst x0.
  cbn [waves register_waves p_lenreg p_length] in H. injection H as <-.
  cbn [set_pulses wave_table pulses].
  split; [reflexivity |]. split; [apply lookup_insert_eq |].
  unfold pulse_, dict_get. cbn [set_pulses pulses]. rewrite lookup_insert_eq. reflexivity.
Qed.

Lemma add_pulse_flat_top_witness :
  wave_table
    (match add_pulse base1 0 "ft"
             (list_to_map [("style", PStr "flat_top"); ("freq", PFloat 100%Q);
                           ("phase", PInt 0); ("gain", PFloat 1%Q);
                           ("length", PFloat 1%Q); ("envelope", PStr "ramp")]) pulse_state
     with Ok q => q | Raise _ => pulse_state end) = wave_table pulse_state /\
  pulses
    (match add_pulse base1 0 "ft"
             (list_to_map [("style", PStr "flat_top"); ("freq", PFloat 100%Q);
                           ("phase", PInt 0); ("gain", PFloat 1%Q);
                           ("length", PFloat 1%Q); ("envelope", PStr "ramp")]) pulse_state
     with Ok q => q | Raise _ => pulse_state end) !! "ft" = Some (Pulse [] None None []) /\
  pulse_ 0 "ft" TAuto
    (match add_pulse base1 0 "ft"
             (list_to_map [("style", PStr "flat_top"); ("freq", PFloat 100%Q);
                           ("phase", PInt 0); ("gain", PFloat 1%Q);
                           ("length", PFloat 1%Q); ("envelope", PStr "ramp")]) pulse_state
     with Ok q => q | Raise _ => pulse_state end) = Raise KeyError.
Proof.
  apply (add_pulse_flat_top_unplayable base1 0 "ft"
           (list_to_map [("style", PStr "flat_top"); ("freq", PFloat 100%Q);
                         ("phase", PInt 0); ("gain", PFloat 1%Q);
                         ("length", PFloat 1%Q); ("envelope", PStr "ramp")]) pulse_state);
    reflexivity.
Defined.

(** ** The wave table and its index *)

Lemma od_insert_fresh {V : Type} (k : string) (v : V) (l : list (string * V)) :
  k ∉ l.*1 -> od_insert k v l = l ++ [(k, v)].
Proof.
  induction l as [| [k' v'] l IH]; intros H; [reflexivity |].
  cbn [od_insert]. rewrite fmap_cons, not_elem_of_cons in H. destruct H as [Hne Hl].
  destruct (String.eqb_spec k' k) as [-> | _]; [destruct Hne; reflexivity |].
  cbn [app]. f_equal. apply IH. exact Hl.
Qed.

Lemma od_insert_length_known {V : Type} (k : string) (v : V) (l : list (string * V)) :
  k ∈ l.*1 -> List.length (od_insert k v l) = List.length l.
Proof.
  induction l as [| [k' v'] l IH]; intros H; [inversion H |].
  cbn [od_insert]. destruct (String.eqb_spec k' k) as [-> | Hne]; [reflexivity |].
  cbn [List.length]. f_equal. apply IH.
  rewrite fmap_cons in H. apply elem_of_cons in H. destruct H as [H | H]; [| exact H].
  destruct Hne. symmetry. exact H.
Qed.

Lemma od_insert_lookup_known {V : Type} (k : string) (v : V) (l : list (string * V)) i w :
  l !! i = Some (k, w) -> NoDup l.*1 -> od_insert k v l !! i = Some (k, v).
Proof.
  revert i. induction l as [| [k' v'] l IH]; intros i H Hnd; [discriminate H |].
  rewrite fmap_cons in Hnd. apply NoDup_cons in Hnd. destruct Hnd as [Hk Hnd].
  cbn [od_insert]. destruct i as [| i].
  - injection H as -> ->. rewrite String.eqb_refl. reflexivity.
  - cbn [lookup list_lookup] in H.
    destruct (String.eqb_spec k' k) as [-> | Hne].
    + destruct Hk. apply list_elem_of_fmap. exists (k, w). split; [reflexivity |].
      apply list_elem_of_lookup. eauto.
    + apply (IH i H Hnd).
Qed.

Lemma od_insert_keys_known {V : Type} (k : string) (v : V) (l : list (string * V)) :
  k ∈ l.*1 -> (od_insert k v l).*1 = l.*1.
Proof.
  induction l as [| [k' v'] l IH]; intros H; [inversion H |].
  cbn [od_insert]. destruct (String.eqb_spec k' k) as [-> | Hne]; [reflexivity |].
  rewrite !fmap_cons. f_equal. apply IH.
  rewrite fmap_cons in H. apply elem_of_cons in H. destruct H as [H | H]; [| exact H].
  destruct Hne. symmetry. exact H.
Qed.

(** X23: [add_wave] under a new name appends the wave to the table and
    indexes it at its position.  Under a name that is already in the
    table the wave replaces the old one at the old position, but the index
    of the name becomes the last position of the table: unless the name
    held the last position, the index then points at another wave's
    entry. *)
Theorem add_wave_index nm w p :
  NoDup (wave_table p).*1 ->
  let p' := add_wave nm w p in
  let last_pos := (List.length (wave_table p') - 1)%nat in
  wave2idx p' !! nm = Some (Z.of_nat last_pos) /\
  (nm ∉ (wave_table p).*1 ->
   wave_table p' = wave_table p ++ [(nm, w)] /\ wave_table p' !! last_pos = Some (nm, w)) /\
  (forall i w0, wave_table p !! i = Some (nm, w0) ->
   List.length (wave_table p') = List.length (wave_table p) /\
   wave_table p' !! i = Some (nm, w) /\
   (i <> last_pos -> exists nm' w', nm' <> nm /\ wave_table p' !! last_pos = Some (nm', w'))).
Proof.
  intros Hnd p' last_pos. subst p' last_pos. unfold add_wave. cbn [set_waves wave_table wave2idx].
  split; [| split].
  - rewrite lookup_insert_eq. f_equal.
    assert (0 < List.length (od_insert nm w (wave_table p)))%nat; [| lia].
    destruct (wave_table p) as [| [k v] l]; cbn [od_insert]; [simpl; lia |].
    destruct (String.eqb k nm); simpl; lia.
  - intros Hfresh. rewrite (od_insert_fresh nm w _ Hfresh). split; [reflexivity |].
    rewrite length_app. cbn [List.length].
    replace (List.length (wave_table p) + 1 - 1)%nat with (List.length (wave_table p) + 0)%nat
      by lia.
    rewrite lookup_app_r by lia.
    replace (List.length (wave_table p) + 0 - List.length (wave_table p))%nat with 0%nat by lia.
    reflexivity.
  - intros i w0 Hi.
    assert (nm ∈ (wave_table p).*1) as Hin.
    { apply list_elem_of_fmap. exists (nm, w0). split; [reflexivity |].
      apply list_elem_of_lookup. eauto. }
    pose proof (od_insert_length_known nm w _ Hin) as Hlen.
    pose proof (od_insert_lookup_known nm w _ i w0 Hi Hnd) as Hlook.
    split; [exact Hlen |]. split; [exact Hlook |].
    intros Hne. rewrite Hlen.
    assert (i < List.length (wave_table p))%nat as Hi' by (apply lookup_lt_Some in Hi; exact Hi).
    destruct (lookup_lt_is_Some_2 (od_insert nm w (wave_table p))
                (List.length (wave_table p) - 1)) as ([nm' w'] & Hl); [lia |].
    exists nm', w'. split; [| exact Hl].
    intros ->. apply Hne. rewrite Hlen.
    pose proof (od_insert_keys_known nm w _ Hin) as Hk.
    rewrite <- Hk in Hnd.
    apply (NoDup_lookup _ i (List.length (wave_table p) - 1) nm Hnd).
    + rewrite list_lookup_fmap, Hlook. reflexivity.
    + rewrite list_lookup_fmap, Hl. reflexivity.
Qed.

Lemma add_wave_index_witness :
  let p' := add_wave "pi_wave0" (MkWave 1 2 3 4 5 6) arb_state in
  let last_pos := (List.length (wave_table p') - 1)%nat in
  wave2idx p' !! "pi_wave0" = Some (Z.of_nat last_pos) /\
  ("pi_wave0" ∉ (wave_table arb_state).*1 ->
   wave_table p' = wave_table arb_state ++ [("pi_wave0", MkWave 1 2 3 4 5 6)] /\
   wave_table p' !! last_pos = Some ("pi_wave0", MkWave 1 2 3 4 5 6)) /\
  (forall i w0, wave_table arb_state !! i = Some ("pi_wave0", w0) ->
   List.length (wave_table p') = List.length (wave_table arb_state) /\
   wave_table p' !! i = Some ("pi_wave0", MkWave 1 2 3 4 5 6) /\
   (i <> last_pos ->
    exists nm' w', nm' <> "pi_wave0" /\ wave_table p' !! last_pos = Some (nm', w'))).
Proof.
  apply (add_wave_index "pi_wave0" (MkWave 1 2 3 4 5 6) arb_state).
  apply NoDup_cons. split; [apply not_elem_of_nil | apply NoDup_nil_2].
Defined.

(** ** Register allocation *)

Lemma scan_free_spec fuel regs a :
  a <= scan_free fuel regs a /\
  forall b, a <= b < scan_free fuel regs a -> b ∈ regs.
Proof.
  revert a. induction fuel as [| n IH]; intros a; cbn [scan_free].
  - split; [lia | intros b Hb; lia].
  - destruct (bool_decide_reflect (a ∈ regs)) as [Hin | Hout].
    + destruct (IH (a + 1)) as [H1 H2]. split; [lia |].
      intros b Hb. destruct (Z.eq_dec b a) as [-> | Hne]; [exact Hin | apply H2; lia].
    + split; [lia | intros b Hb; lia].
Qed.

(** X24: a register that [new_reg] returns has an address between 0 and
    the number of data registers that no register held before, recorded
    at the end of the list of used addresses, which stays free of
    duplicates; without an address argument it is the lowest address not
    in use.  The register is stored under its name, which was not in use
    either. *)
Theorem new_reg_allocation a nm iv rt g r p reg p' :
  new_reg a nm iv rt g r p = Ok (reg, p') ->
  0 <= addr reg < dreg_qty (cfg p) /\
  (addr reg ∉ user_regs p) /\
  user_regs p' = user_regs p ++ [addr reg] /\
  (NoDup (user_regs p) -> NoDup (user_regs p')) /\
  (a = None -> forall b, 0 <= b < addr reg -> b ∈ user_regs p) /\
  user_reg_dict p !! reg_name reg = None /\
  user_reg_dict p' !! reg_name reg = Some reg.
Proof.
  unfold new_reg. intros H. inv_bind H.
  match type of H with
  | (if bool_decide ?P then _ else _) = _ =>
      destruct (bool_decide_reflect P) as [| Hname]; [discriminate |]
  end.
  injection H as <- <-. cbn [addr reg_name set_regs user_regs user_reg_dict].
  assert (0 <= x < dreg_qty (cfg p) /\ (x ∉ user_regs p) /\
          (a = None -> forall b, 0 <= b < x -> b ∈ user_regs p)) as (Hr & Hfree & Hlow).
  { destruct a as [a |].
    - destruct (Z.ltb_spec a 0); [discriminate |].
      destruct (Z.leb_spec (dreg_qty (cfg p)) a); [discriminate |]. cbn [orb] in E.
      destruct (bool_decide_reflect (a ∈ user_regs p)); [discriminate |].
      injection E as <-. split; [lia |]. split; [assumption | discriminate].
    - cbv zeta in E.
      destruct (Z.leb_spec (dreg_qty (cfg p))
                  (scan_free (List.length (user_regs p)) (user_regs p) 0)); [discriminate |].
      injection E as <-.
      destruct (scan_free_spec (List.length (user_regs p)) (user_regs p) 0) as [H1 H2].
      split; [lia |]. split; [apply scan_free_first |]. intros _ b Hb. apply H2. exact Hb. }
  split; [exact Hr |]. split; [exact Hfree |]. split; [reflexivity |].
  split.
  { intros Hnd. apply NoDup_app. split; [exact Hnd |]. split.
    - intros y Hy Hy'. apply list_elem_of_singleton in Hy'. subst y. contradiction.
    - apply NoDup_singleton. }
  split; [exact Hlow |].
  split; [| apply lookup_insert_eq].
  destruct (user_reg_dict p !! default ("reg_page" +:+ py_str x) nm) eqn:El; [| reflexivity].
  destruct Hname. eauto.
Qed.

Lemma new_reg_allocation_witness :
  0 <= addr (MkRegister 0 1 None None None None "reg_page1") < dreg_qty (cfg loop_state) /\
  (addr (MkRegister 0 1 None None None None "reg_page1") ∉ user_regs loop_state).
Proof.
  pose proof (new_reg_allocation None None None None None None loop_state
                (MkRegister 0 1 None None None None "reg_page1") _ eq_refl) as H.
  exact (conj (proj1 H) (proj1 (proj2 H))).
Defined.

(** ** Line numbers *)

Lemma numbered_ext p q :
  prog_list q = prog_list p -> line q = line p -> numbered p -> numbered q.
Proof. unfold numbered. intros -> ->. auto. Qed.

Lemma numbered_add_instruction i inc p : numbered p -> numbered (add_instruction i inc p).
Proof.
  intros [Hl Hn]. unfold numbered. cbn [add_instruction set_code prog_list line].
  split; [rewrite length_app; simpl; lia |].
  intros k x Hk. apply lookup_app_Some in Hk. destruct Hk as [Hk | [Hge Hk]].
  - apply Hn. exact Hk.
  - destruct (k - List.length (prog_list p))%nat as [| j] eqn:Ej; [| discriminate Hk].
    injection Hk as <-. rewrite lookup_insert_eq. do 2 f_equal. lia.
Qed.

Lemma numbered_foldl {X : Type} (f : program -> X -> program) (l : list X) p :
  (forall q x, numbered q -> numbered (f q x)) -> numbered p -> numbered (foldl f p l).
Proof.
  intros Hf. revert p. induction l as [| x l IH]; intros p Hp; [exact Hp |].
  cbn [foldl]. apply IH, Hf, Hp.
Qed.

Lemma numbered_foldl_result {X : Type} (f : result program -> X -> result program)
    (l : list X) (acc : result program) p' :
  (forall a x q', (forall q, a = Ok q -> numbered q) -> f a x = Ok q' -> numbered q') ->
  (forall q, acc = Ok q -> numbered q) ->
  foldl f acc l = Ok p' -> numbered p'.
Proof.
  intros Hf. revert acc. induction l as [| x l IH]; intros acc Hacc H.
  - apply Hacc. exact H.
  - cbn [foldl] in H. apply (IH (f acc x)); [| exact H].
    intros q Hq. apply (Hf acc x q Hacc Hq).
Qed.

Lemma set_timestamp_gen_numbered v ch p p' :
  set_timestamp_gen v ch p = Ok p' -> numbered p -> numbered p'.
Proof.
  unfold set_timestamp_gen. intros H. inv_bind H. injection H as <-.
  apply numbered_ext; reflexivity.
Qed.

Lemma set_timestamp_ro_numbered v ch p p' :
  set_timestamp_ro v ch p = Ok p' -> numbered p -> numbered p'.
Proof.
  unfold set_timestamp_ro. intros H. inv_bind H. injection H as <-.
  apply numbered_ext; reflexivity.
Qed.

Lemma pulse_numbered ch nm t p p' : numbered p -> pulse_ ch nm t p = Ok p' -> numbered p'.
Proof.
  intros Hp H. unfold pulse_ in H. do 5 inv_bind H. inv_bind H. destruct x4 as [t0 p0].
  assert (numbered p0) as Hp0.
  { destruct t as [| tv].
    - inv_bind E4. injection E4 as _ <-. apply (set_timestamp_gen_numbered _ _ _ _ E5 Hp).
    - destruct (tv <? x3); inv_bind E4; injection E4 as _ <-;
        apply (set_timestamp_gen_numbered _ _ _ _ E5 Hp). }
  revert H. apply numbered_foldl_result.
  - intros acc wn q' Ha Hq. inv_bind Hq. inv_bind Hq. injection Hq as <-.
    apply numbered_add_instruction, Ha. assumption.
  - intros q [= <-]. apply numbered_add_instruction, Hp0.
Qed.

Lemma trigger_numbered B ros pins t width p p' :
  numbered p -> trigger B ros pins t width p = Ok p' -> numbered p'.
Proof.
  intros Hp H. unfold trigger in H. inv_bind H. destruct x as [[outdict trigset] p1].
  inv_bind H. destruct x as [outdict' trigset']. injection H as <-.
  assert (numbered p1) as Hp1.
  { assert (forall acc l r,
              (forall o s q, acc = Ok (o, s, q) -> numbered q) ->
              foldl (trigger_ro (us2cycles B None None t)) acc l = Ok r ->
              numbered r.2) as Hfold.
    { intros acc l. revert acc. induction l as [| ro l IH]; intros acc r Hacc Hr.
      - destruct r as [[o s] q]. apply (Hacc o s q Hr).
      - cbn [foldl] in Hr. revert Hr. apply IH.
        intros o s q Hq. unfold trigger_ro in Hq. inv_bind Hq.
        destruct x as [[o0 s0] q0]. inv_bind Hq. inv_bind Hq. destruct x0 as [o1 s1].
        inv_bind Hq. destruct (_ <? x0); [discriminate |].
        inv_bind Hq. inv_bind Hq. inv_bind Hq. injection Hq as _ _ <-.
        match goal with
        | Hs : set_timestamp_ro _ _ _ = Ok _ |- _ =>
            apply (set_timestamp_ro_numbered _ _ _ _ Hs)
        end.
        eapply Hacc. eassumption. }
    apply (Hfold (Ok ([], ∅, p)) ros (outdict, trigset, p1)); [| exact E].
    intros o s q [= _ _ <-]. exact Hp. }
  apply numbered_foldl.
  { intros q x Hq. apply numbered_add_instruction, numbered_add_instruction, Hq. }
  destruct outdict' as [| e outdict']; [exact Hp1 |].
  apply numbered_foldl; [intros q [o v] Hq; apply numbered_add_instruction, Hq |].
  apply numbered_add_instruction.
  apply numbered_foldl; [intros q [o v] Hq; apply numbered_add_instruction, Hq |].
  apply numbered_add_instruction, Hp1.
Qed.

(** X25: the listing stays numbered.  A fresh program is numbered, and
    every macro that returns keeps it so: the [LINE] of each instruction is
    its position in the list counted from 1 (whatever number of address
    slots the instructions take).  In a numbered program the label that
    [add_label] places is the [LINE] of the instruction appended next. *)
Theorem listing_numbered B c p :
  (forall p0, init c = Ok p0 -> numbered p0) /\
  (numbered p ->
   (forall i inc, numbered (add_instruction i inc p)) /\
   numbered (end_ p) /\ (forall t, numbered (wait t p)) /\
   (forall L, numbered (add_label L p)) /\
   (forall n nm a p', open_loop n nm a p = Ok p' -> numbered p') /\
   (forall p', close_loop p = Ok p' -> numbered p') /\
   (forall ch nm t p', pulse_ ch nm t p = Ok p' -> numbered p') /\
   (forall ros pins t width p', trigger B ros pins t width p = Ok p' -> numbered p') /\
   (forall t p', sync_all B t p = Ok p' -> numbered p') /\
   (forall L i inc,
      let p' := add_instruction i inc (add_label L p) in
      exists ln,
        last (prog_list p') ≫= (.!! "LINE") = Some (VInt ln) /\
        labels p' !! L = Some ("&" +:+ py_str ln))).
Proof.
  split.
  - intros p0. unfold init. destruct (forallb _ _); [| discriminate].
    intros [= <-]. split; [reflexivity |]. intros i x Hx. discriminate Hx.
  - intros Hp.
    split; [intros i inc; apply numbered_add_instruction, Hp |].
    split; [apply numbered_add_instruction, Hp |].
    split; [intros t; apply numbered_add_instruction, Hp |].
    split; [intros L; revert Hp; apply numbered_ext; reflexivity |].
    split.
    { intros n nm a p' H. unfold open_loop in H. inv_bind H. destruct x as [reg p0].
      injection H as <-.
      assert (numbered p0) as Hp0.
      { unfold new_reg in E. inv_bind E. destruct (bool_decide _); [discriminate |].
        injection E as _ <-. revert Hp. apply numbered_ext; reflexivity. }
      assert (forall L q, numbered q -> numbered (add_label L q)) as Hlab
        by (intros L q; apply numbered_ext; reflexivity).
      apply Hlab, numbered_add_instruction. revert Hp0. apply numbered_ext; reflexivity. }
    split.
    { intros p' H. unfold close_loop in H. inv_bind H. inv_bind H. injection H as <-.
      apply numbered_add_instruction, numbered_add_instruction.
      revert Hp. apply numbered_ext; reflexivity. }
    split; [intros ch nm t p'; apply pulse_numbered, Hp |].
    split; [intros ros pins t width p'; apply trigger_numbered, Hp |].
    split.
    { intros t p' H. unfold sync_all in H. inv_bind H.
      destruct (0 <? _); injection H as <-; [| exact Hp].
      assert (numbered (add_instruction
                (mk_inst [("CMD", "TIME"); ("DST", "inc_ref");
                          ("LIT", py_str (x + us2cycles B None None t))]) 1 p)) as Hq
        by apply numbered_add_instruction, Hp.
      revert Hq. apply numbered_ext; reflexivity. }
    intros L i inc p'. subst p'. destruct Hp as [Hl _].
    exists (line p). split.
    + cbn [add_instruction add_label set_code set_labels prog_list line p_addr].
      rewrite last_snoc. cbn [mbind option_bind]. apply lookup_insert_eq.
    + cbn [add_instruction add_label set_code set_labels labels].
      rewrite lookup_insert_eq, Hl. reflexivity.
Qed.

Lemma listing_numbered_witness :
  (forall i inc, numbered (add_instruction i inc loop_state)) /\
  numbered (end_ loop_state).
Proof.
  assert (numbered loop_state) as Hn.
  { assert (numbered fresh_program) as H0
      by (apply (proj1 (listing_numbered base1 cfg0 fresh_program)); reflexivity).
    apply (proj1 (proj2 (proj2 (proj2 (proj2
             (proj2 (listing_numbered base1 cfg0 fresh_program) H0)))))
             100 None None loop_state).
    reflexivity. }
  pose proof (proj2 (listing_numbered base1 cfg0 loop_state) Hn) as H.
  exact (conj (proj1 H) (proj1 (proj2 H))).
Defined.

End AsmV2Coverage.

(** * The buffer format of [qick.py] *)

Section QickFacts.
Import Qick.

Lemma format_word_fields b :
  - 2 ^ 31 <= b < 2 ^ 32 ->
  let i := int16 (Z.land b 65535) in
  let q := int16 (Z.shiftr b 16) in
  - 2 ^ 15 <= i < 2 ^ 15 /\ - 2 ^ 15 <= q < 2 ^ 15 /\
  (q `mod` 2 ^ 16) * 2 ^ 16 + i `mod` 2 ^ 16 = b `mod` 2 ^ 32.
Proof.
  intros Hb. cbv zeta. unfold int16.
  change 65535 with (Z.ones 16). rewrite Z.land_ones, Z.shiftr_div_pow2 by lia.
  repeat split; divmod.
Qed.

Lemma format_word_packed i q :
  - 2 ^ 15 <= i < 2 ^ 15 -> - 2 ^ 15 <= q < 2 ^ 15 ->
  int16 (Z.land (q * 2 ^ 16 + i `mod` 2 ^ 16) 65535) = i /\
  int16 (Z.shiftr (q * 2 ^ 16 + i `mod` 2 ^ 16) 16) = q.
Proof.
  intros Hi Hq. unfold int16.
  change 65535 with (Z.ones 16). rewrite Z.land_ones, Z.shiftr_div_pow2 by lia.
  split; divmod.
Qed.

(** X26: [format_buffer] splits every 32-bit word of the buffer (signed
    or unsigned) into two signed 16-bit numbers from which the word is
    recovered, the Q value being the high half and the I value the low
    half; and the words packed from any I and Q values in the signed
    16-bit range are unpacked into these values. *)
Theorem format_buffer_round_trip (buff : list Z) (iq : list (Z * Z)) :
  (Forall (fun b => - 2 ^ 31 <= b < 2 ^ 32) buff ->
   Forall2 (fun b x =>
              - 2 ^ 15 <= x.1 < 2 ^ 15 /\ - 2 ^ 15 <= x.2 < 2 ^ 15 /\
              (x.2 `mod` 2 ^ 16) * 2 ^ 16 + x.1 `mod` 2 ^ 16 = b `mod` 2 ^ 32)
           buff (zip (format_buffer buff).1 (format_buffer buff).2)) /\
  (Forall (fun x => - 2 ^ 15 <= x.1 < 2 ^ 15 /\ - 2 ^ 15 <= x.2 < 2 ^ 15) iq ->
   format_buffer ((fun x => x.2 * 2 ^ 16 + x.1 `mod` 2 ^ 16) <$> iq) = (iq.*1, iq.*2)).
Proof.
  unfold format_buffer. cbn [fst snd]. split.
  - intros H. induction H as [| b buff Hb _ IH]; [constructor |].
    cbn [fmap list_fmap zip zip_with]. constructor; [| exact IH].
    apply (format_word_fields b Hb).
  - intros H. induction H as [| [i q] l [Hi Hq] _ IH]; [reflexivity |].
    cbn [fmap list_fmap fst snd] in *.
    destruct (format_word_packed i q Hi Hq) as [-> ->].
    injection IH as -> ->. reflexivity.
Qed.

Lemma format_buffer_witness :
  format_buffer ((fun x => x.2 * 2 ^ 16 + x.1 `mod` 2 ^ 16) <$> [(-3, 7); (100, -1)])
  = ([(-3, 7); (100, -1)].*1, [(-3, 7); (100, -1)].*2).
Proof.
  apply (proj2 (format_buffer_round_trip [] [(-3, 7); (100, -1)])).
  constructor; [simpl; lia |]. constructor; [simpl; lia |]. constructor.
Defined.

End QickFacts.
